(** * zerver/lib/queue.py: the RabbitMQ queue clients

    A shallow embedding of [SimpleQueueClient], [TornadoQueueClient],
    [queue_json_publish] and [retry_event].

    The client objects are records, their methods are actions of a small
    state-and-exception monad, and everything that leaves the process (requests
    to the broker through pika, log lines, statsd counters) is appended to a
    trace. Closures that the source stores or passes around ([do_publish],
    the [basic_consume] lambdas, [opened], [finish], the deferred
    [ensure_queue] lambdas) are defunctionalised: one constructor per lambda
    of the source, carrying its captured variables. *)

From Stdlib Require Import ZArith List Lia Ascii.
From stdpp Require Import base option strings gmap list pretty.

Local Open Scope string_scope.
Local Open Scope Z_scope.
Local Open Scope list_scope.

(** ** Exceptions and outcomes *)

(** Exceptions are the instances of Python's [Exception] that the module can
    meet. [AMQPConnectionError] is pika's; every other constructor is a class
    that is not a subclass of it. *)
Inductive exn :=
| AMQPConnectionError
| AttributeError
| TypeError
| ValueError
| UserError (name : string).

#[global] Instance exn_eq_dec : EqDecision exn.
Proof. solve_decision. Defined.

Definition is_AMQPConnectionError (e : exn) : bool :=
  match e with AMQPConnectionError => true | _ => false end.

Inductive result (A : Type) :=
| Return (a : A)
| Raise (e : exn).
Arguments Return {A} a.
Arguments Raise {A} e.

Definition returned {A} (r : result A) : bool :=
  match r with Return _ => true | Raise _ => false end.

(** ** The monad: mutable state that survives a raised exception *)

Definition M (S A : Type) : Type := S -> result A * S.

Definition ret {S A} (a : A) : M S A := fun s => (Return a, s).
Definition raise {S A} (e : exn) : M S A := fun s => (Raise e, s).
Definition bind {S A B} (m : M S A) (k : A -> M S B) : M S B :=
  fun s => match m s with
           | (Return a, s') => k a s'
           | (Raise e, s') => (Raise e, s')
           end.
(** [try: m except h]: the handler sees the state as the failed body left it. *)
Definition try_except {S A} (m : M S A) (h : exn -> M S A) : M S A :=
  fun s => match m s with
           | (Return a, s') => (Return a, s')
           | (Raise e, s') => h e s'
           end.
Definition get {S} : M S S := fun s => (Return s, s).
Definition modify {S} (f : S -> S) : M S unit := fun s => (Return tt, f s).

Declare Scope py_scope.
Delimit Scope py_scope with py.
Notation "x <- m ;; k" := (bind m (fun x => k))
  (at level 100, m at next level, right associativity) : py_scope.
Notation "m ;; k" := (bind m (fun _ => k))
  (at level 100, right associativity) : py_scope.
Local Open Scope py_scope.

Fixpoint for_each {S A} (l : list A) (body : A -> M S unit) : M S unit :=
  match l with
  | [] => ret tt
  | x :: l' => body x ;; for_each l' body
  end.

(** ** Python values, events and payloads *)

Inductive pyval :=
| VNone
| VBool (b : bool)
| VInt (n : Z)
| VStr (s : string).

#[global] Instance pyval_eq_dec : EqDecision pyval.
Proof. solve_decision. Defined.
#[global] Instance pyval_inhabited : Inhabited pyval := populate VNone.

(** [Union[Mapping[str, Any], str]], the body handed to [json_publish]. *)
Inductive payload :=
| PStr (s : string)
| PDict (d : gmap string pyval).

#[global] Instance payload_eq_dec : EqDecision payload.
Proof. solve_decision. Defined.

(** What [drain_queue] appends to [messages]: the raw body, or the decoded one
    when [json] is set. *)
Inductive drained :=
| Raw (body : string)
| Decoded (p : payload).

#[global] Instance drained_eq_dec : EqDecision drained.
Proof. solve_decision. Defined.

(** ** pika objects *)

Record ConnectionParameters := {
  host : string;
  heartbeat_interval : option Z;
  credentials : string * string }.

#[global] Instance ConnectionParameters_eq_dec : EqDecision ConnectionParameters.
Proof. solve_decision. Defined.

(** A connection object. [is_open] is pika's flag; it is set when the
    connection is established and cleared by [close] or when the transport
    goes away ([transport_closed] below). *)
Record Connection := {
  conn_id : nat;
  is_open : bool;
  conn_parameters : ConnectionParameters }.

(** A user handler ([Consumer] in the source), reduced to what this module
    can see of it: whether it returns or raises, given the delivery tag and
    the body. What the handler does to the rest of the application is not
    modelled. *)
Definition Consumer : Type := Z -> string -> option exn.

Inductive wrapper := blocking_wrapper | tornado_wrapper.

(** A [wrapped_consumer] closure: [wid] is the identity of the function
    object (each [register_consumer] call creates a new one), [wkind] says
    which of the two [wrapped_consumer] bodies it is, [winner] is the
    captured [consumer]. *)
Record Wrapped := {
  wid : nat;
  wkind : wrapper;
  winner : Consumer }.

(** ** Closures *)

Inductive callback :=
| do_publish (queue_name body : string)
    (* publish: the local function do_publish *)
| consume_lambda (queue_name : string) (w : Wrapped)
    (* lambda: self.channel.basic_consume(w, queue=queue_name,
                                          consumer_tag=self._generate_ctag(queue_name)) *)
| opened (cell : nat) (queue_name : string) (json : bool)
    (* drain_queue: the local function opened; cell is its messages list *)
| ensure_queue_lambda (queue_name : string) (cb : callback)
    (* lambda: self.ensure_queue(queue_name, callback) *)
| user_callback (id : nat) (outcome : option exn).
    (* a callable of the caller's: it is recorded and returns or raises *)

(** Completions the event loop owes the event-driven client. *)
Inductive continuation :=
| k_on_open                                  (* on_open_callback = self._on_open *)
| k_on_channel_open                          (* on_open_callback = self._on_channel_open *)
| k_finish (queue_name : string) (cb : callback) (* queue_declare(..., callback=finish) *)
| k_on_timeout.                              (* call_later(retry_seconds, on_timeout) *)

(** ** The trace *)

Inductive level := INFO | WARNING | CRITICAL.

Inductive obs :=
(* requests to the broker *)
| Connect (blocking : bool) (params : ConnectionParameters)
| OpenChannel (conn : nat)
| CloseConnection (conn : nat)
| QueueDeclare (ch : nat) (queue : string) (durable : bool)
| BasicPublish (ch : nat) (routing_key : string) (delivery_mode : Z) (body : string)
| BasicConsume (ch : nat) (consumer : nat) (queue : string) (consumer_tag : string)
| BasicGet (ch : nat) (queue : string)
| BasicAck (ch : nat) (delivery_tag : Z)
| BasicNack (ch : nat) (delivery_tag : Z)
(* other output *)
| Log (l : level) (msg : string)
| StatsdIncr (stat : string)
| CallLater (seconds : Z)
| WorkerConsume (queue : string) (p : payload)
(* calls, recorded on entry *)
| Enter_reconnect
| Enter_publish (queue : string) (body : string)
| Enter_queue_json_publish (queue : string) (p : payload)
| Enter_processor (p : payload)
| Enter_failure_processor (d : gmap string pyval)
| Enter_consumer (delivery_tag : Z) (body : string)
| Enter_callback (id : nat).

#[global] Instance level_eq_dec : EqDecision level.
Proof. solve_decision. Defined.
#[global] Instance obs_eq_dec : EqDecision obs.
Proof. solve_decision. Defined.

(** ** Everything outside the client object *)

Record Settings := {
  USING_RABBITMQ : bool;
  RUNNING_INSIDE_TORNADO : bool;
  RABBITMQ_HOST : string;
  RABBITMQ_USERNAME : string;
  RABBITMQ_PASSWORD : string }.

(** [faults] scripts the broker: each request that waits on the broker takes
    the head of the list, [Some e] makes the request raise [e], [None] (or an
    exhausted list) makes it succeed. [entropy] and [draws] are the source of
    [random.getrandbits]. [broker] holds the ready messages of each queue,
    oldest first, and [unacked] the deliveries not yet acknowledged. [ioloop]
    holds the completions owed to the event-driven client, oldest first.
    [cells] are the [messages] lists captured by [opened] closures. [ujson_dumps]
    and [ujson_loads] are the ujson library. *)
Record environment := {
  settings : Settings;
  ujson_dumps : payload -> string;
  ujson_loads : string -> option payload;
  trace : list obs;
  faults : list (option exn);
  entropy : nat -> N;
  draws : nat;
  next_id : nat;
  broker : gmap string (list string);
  unacked : list (Z * string * string);
  next_delivery_tag : Z;
  ioloop : list continuation;
  cells : list (list drained) }.

Definition with_trace (f : list obs -> list obs) (e : environment) : environment :=
  {| settings := settings e; ujson_dumps := ujson_dumps e; ujson_loads := ujson_loads e;
     trace := f (trace e); faults := faults e; entropy := entropy e; draws := draws e;
     next_id := next_id e; broker := broker e; unacked := unacked e;
     next_delivery_tag := next_delivery_tag e; ioloop := ioloop e; cells := cells e |}.
Definition with_faults (f : list (option exn)) (e : environment) : environment :=
  {| settings := settings e; ujson_dumps := ujson_dumps e; ujson_loads := ujson_loads e;
     trace := trace e; faults := f; entropy := entropy e; draws := draws e;
     next_id := next_id e; broker := broker e; unacked := unacked e;
     next_delivery_tag := next_delivery_tag e; ioloop := ioloop e; cells := cells e |}.
Definition with_draws (n : nat) (e : environment) : environment :=
  {| settings := settings e; ujson_dumps := ujson_dumps e; ujson_loads := ujson_loads e;
     trace := trace e; faults := faults e; entropy := entropy e; draws := n;
     next_id := next_id e; broker := broker e; unacked := unacked e;
     next_delivery_tag := next_delivery_tag e; ioloop := ioloop e; cells := cells e |}.
Definition with_next_id (n : nat) (e : environment) : environment :=
  {| settings := settings e; ujson_dumps := ujson_dumps e; ujson_loads := ujson_loads e;
     trace := trace e; faults := faults e; entropy := entropy e; draws := draws e;
     next_id := n; broker := broker e; unacked := unacked e;
     next_delivery_tag := next_delivery_tag e; ioloop := ioloop e; cells := cells e |}.
Definition with_broker (b : gmap string (list string)) (u : list (Z * string * string))
    (t : Z) (e : environment) : environment :=
  {| settings := settings e; ujson_dumps := ujson_dumps e; ujson_loads := ujson_loads e;
     trace := trace e; faults := faults e; entropy := entropy e; draws := draws e;
     next_id := next_id e; broker := b; unacked := u;
     next_delivery_tag := t; ioloop := ioloop e; cells := cells e |}.
Definition with_ioloop (f : list continuation -> list continuation) (e : environment)
    : environment :=
  {| settings := settings e; ujson_dumps := ujson_dumps e; ujson_loads := ujson_loads e;
     trace := trace e; faults := faults e; entropy := entropy e; draws := draws e;
     next_id := next_id e; broker := broker e; unacked := unacked e;
     next_delivery_tag := next_delivery_tag e; ioloop := f (ioloop e); cells := cells e |}.
Definition with_cells (c : list (list drained)) (e : environment) : environment :=
  {| settings := settings e; ujson_dumps := ujson_dumps e; ujson_loads := ujson_loads e;
     trace := trace e; faults := faults e; entropy := entropy e; draws := draws e;
     next_id := next_id e; broker := broker e; unacked := unacked e;
     next_delivery_tag := next_delivery_tag e; ioloop := ioloop e; cells := c |}.

(** ** The client object *)

Inductive client_class := Simple | Tornado.

(** The attributes of a client. [consumers] is the [defaultdict(set)]: keys in
    insertion order, and each set as the list of its members in the order
    they were added (every member is a new function object, so no member is
    ever added twice). [_on_open_cbs] exists on the event-driven client only;
    the blocking client never reads it. *)
Record client := {
  class_of : client_class;
  queues : gset string;
  channel : option nat;
  connection : option Connection;
  consumers : list (string * list Wrapped);
  rabbitmq_heartbeat : option Z;
  _on_open_cbs : list callback }.

Definition with_queues (q : gset string) (c : client) : client :=
  {| class_of := class_of c; queues := q; channel := channel c;
     connection := connection c; consumers := consumers c;
     rabbitmq_heartbeat := rabbitmq_heartbeat c; _on_open_cbs := _on_open_cbs c |}.
Definition with_channel (ch : option nat) (c : client) : client :=
  {| class_of := class_of c; queues := queues c; channel := ch;
     connection := connection c; consumers := consumers c;
     rabbitmq_heartbeat := rabbitmq_heartbeat c; _on_open_cbs := _on_open_cbs c |}.
Definition with_connection (cn : option Connection) (c : client) : client :=
  {| class_of := class_of c; queues := queues c; channel := channel c;
     connection := cn; consumers := consumers c;
     rabbitmq_heartbeat := rabbitmq_heartbeat c; _on_open_cbs := _on_open_cbs c |}.
Definition with_consumers (cs : list (string * list Wrapped)) (c : client) : client :=
  {| class_of := class_of c; queues := queues c; channel := channel c;
     connection := connection c; consumers := cs;
     rabbitmq_heartbeat := rabbitmq_heartbeat c; _on_open_cbs := _on_open_cbs c |}.
Definition with_rabbitmq_heartbeat (h : option Z) (c : client) : client :=
  {| class_of := class_of c; queues := queues c; channel := channel c;
     connection := connection c; consumers := consumers c;
     rabbitmq_heartbeat := h; _on_open_cbs := _on_open_cbs c |}.
Definition with_on_open_cbs (l : list callback) (c : client) : client :=
  {| class_of := class_of c; queues := queues c; channel := channel c;
     connection := connection c; consumers := consumers c;
     rabbitmq_heartbeat := rabbitmq_heartbeat c; _on_open_cbs := l |}.

(** A method runs on [self] and on the environment. *)
Record state := { self : client; env : environment }.

Definition on_self (f : client -> client) (s : state) : state :=
  {| self := f (self s); env := env s |}.
Definition on_env (f : environment -> environment) (s : state) : state :=
  {| self := self s; env := f (env s) |}.

(** Run an action on the environment inside a method. *)
Definition lift_env {A} (m : M environment A) : M state A :=
  fun s => let (r, e) := m (env s) in (r, {| self := self s; env := e |}).

(** ** Primitive actions on the environment *)

Definition emit (o : obs) : M environment unit :=
  modify (with_trace (fun t => t ++ [o])).

(** A request the broker answers: recorded, then it succeeds or raises as
    [faults] says. *)
Definition request (o : obs) : M environment unit :=
  fun e =>
    let e' := with_trace (fun t => t ++ [o]) e in
    match faults e with
    | Some x :: fs => (Raise x, with_faults fs e')
    | None :: fs => (Return tt, with_faults fs e')
    | [] => (Return tt, e')
    end.

(** A new object identity. *)
Definition fresh : M environment nat :=
  fun e => (Return (next_id e), with_next_id (S (next_id e)) e).

(** [random.getrandbits(k)] *)
Definition getrandbits (k : N) : M environment N :=
  fun e => (Return (entropy e (draws e) mod 2 ^ k)%N, with_draws (S (draws e)) e).

Definition log (l : level) (msg : string) : M environment unit := emit (Log l msg).
Definition statsd_incr (stat : string) : M environment unit := emit (StatsdIncr stat).

(** ** Attribute access *)

Definition get_self : M state client := fun s => (Return (self s), s).
Definition set_self (f : client -> client) : M state unit := modify (on_self f).
Definition get_env : M state environment := fun s => (Return (env s), s).

(** [self.channel.<method>]: [None] has no attributes. *)
Definition the_channel : M state nat :=
  c <- get_self ;;
  match channel c with
  | Some ch => ret ch
  | None => raise AttributeError
  end.

(** ** The broker behind a channel *)

Definition ready_messages (e : environment) (queue : string) : list string :=
  default [] (broker e !! queue).

(** [channel.basic_publish(exchange='', routing_key=queue, ...)]: the default
    exchange routes the body to the queue of that name. *)
Definition basic_publish (ch : nat) (queue : string) (delivery_mode : Z) (body : string)
    : M environment unit :=
  request (BasicPublish ch queue delivery_mode body) ;;
  modify (fun e => with_broker (<[queue := ready_messages e queue ++ [body]]> (broker e))
                               (unacked e) (next_delivery_tag e) e).

(** [channel.basic_get(queue)]: [Some (delivery_tag, body)] for the oldest
    ready message, which becomes unacknowledged; [None] stands for the triple
    [(None, None, None)] of an empty queue. *)
Definition basic_get (ch : nat) (queue : string) : M environment (option (Z * string)) :=
  request (BasicGet ch queue) ;;
  e <- get ;;
  match ready_messages e queue with
  | [] => ret None
  | body :: rest =>
      let tag := next_delivery_tag e in
      modify (with_broker (<[queue := rest]> (broker e))
                          (unacked e ++ [(tag, queue, body)]) (tag + 1)) ;;
      ret (Some (tag, body))
  end.

Definition forget (tag : Z) (u : list (Z * string * string)) : list (Z * string * string) :=
  filter (fun d => d.1.1 ≠ tag) u.

(** Acknowledgements are written to the channel that made the delivery and
    are not answered by the broker. *)
Definition basic_ack (ch : nat) (delivery_tag : Z) : M environment unit :=
  emit (BasicAck ch delivery_tag) ;;
  modify (fun e => with_broker (broker e) (forget delivery_tag (unacked e))
                               (next_delivery_tag e) e).

(** A negative acknowledgement puts the delivery back at the head of its queue. *)
Definition requeue (tag : Z) (e : environment) : gmap string (list string) :=
  foldr (fun d b => if decide (d.1.1 = tag)
                    then <[d.1.2 := d.2 :: default [] (b !! d.1.2)]> b else b)
        (broker e) (unacked e).

Definition basic_nack (ch : nat) (delivery_tag : Z) : M environment unit :=
  emit (BasicNack ch delivery_tag) ;;
  modify (fun e => with_broker (requeue delivery_tag e) (forget delivery_tag (unacked e))
                               (next_delivery_tag e) e).

(** ** Methods that no subclass overrides and that call no overridden method *)

Definition _get_parameters : M state ConnectionParameters :=
  s <- get ;;
  let credentials := (RABBITMQ_USERNAME (settings (env s)),
                      RABBITMQ_PASSWORD (settings (env s))) in
  ret {| host := RABBITMQ_HOST (settings (env s));
         heartbeat_interval := rabbitmq_heartbeat (self s);
         credentials := credentials |}.

(** ["%s_%s" % (queue_name, str(random.getrandbits(16)))] *)
Definition _generate_ctag (queue_name : string) : M state string :=
  n <- lift_env (getrandbits 16) ;;
  ret (queue_name +:+ "_" +:+ pretty n).

Definition ready : M state bool :=
  c <- get_self ;;
  ret (match channel c with Some _ => true | None => false end).

Definition close : M state unit :=
  c <- get_self ;;
  match connection c with
  | Some conn =>
      lift_env (request (CloseConnection (conn_id conn))) ;;
      set_self (with_connection (Some {| conn_id := conn_id conn; is_open := false;
                                         conn_parameters := conn_parameters conn |}))
  | None => ret tt
  end.

(** The transport of the current connection goes away: pika clears [is_open]. *)
Definition transport_closed (s : state) : state :=
  on_self (fun c => with_connection
    (match connection c with
     | Some conn => Some {| conn_id := conn_id conn; is_open := false;
                            conn_parameters := conn_parameters conn |}
     | None => None
     end) c) s.

(** ** Calling a closure *)

(** [messages.append(message)] on the list captured by [opened]. *)
Definition messages_append (cell : nat) (m : drained) : M environment unit :=
  modify (fun e => with_cells (alter (fun l => l ++ [m]) cell (cells e)) e).

(** The [while True] loop of [opened]. Every turn takes one message off the
    queue, so [S (length ready)] turns are enough ([opened_loop_fuel] below);
    the loop is entered with exactly that much fuel. *)
Fixpoint opened_loop (fuel : nat) (cell : nat) (queue_name : string) (json : bool)
    : M state unit :=
  match fuel with
  | O => ret tt
  | S fuel' =>
      ch <- the_channel ;;
      got <- lift_env (basic_get ch queue_name) ;;
      match got with
      | None => ret tt                              (* message is None: break *)
      | Some (delivery_tag, message) =>
          if decide (message = "") then ret tt      (* message is empty: break *)
          else
            ch <- the_channel ;;
            lift_env (basic_ack ch delivery_tag) ;;
            message' <- (if json : bool
                         then e <- get_env ;;
                              match ujson_loads e message with
                              | Some p => ret (Decoded p)
                              | None => raise ValueError
                              end
                         else ret (Raw message)) ;;
            lift_env (messages_append cell message') ;;
            opened_loop fuel' cell queue_name json
      end
  end.

(** [call ensure_queue' cb] is [cb()]. [ensure_queue'] is the [ensure_queue]
    of the class of [self], taking the callback both as the closure and as
    the action that calling it is. *)
Fixpoint call (ensure_queue' : string -> callback -> M state unit -> M state unit)
    (cb : callback) : M state unit :=
  match cb with
  | do_publish queue_name body =>
      ch <- the_channel ;;
      lift_env (basic_publish ch queue_name 2 body) ;;
      lift_env (statsd_incr ("rabbitmq.publish." +:+ queue_name))
  | consume_lambda queue_name w =>
      ch <- the_channel ;;
      ctag <- _generate_ctag queue_name ;;
      lift_env (request (BasicConsume ch (wid w) queue_name ctag))
  | opened cell queue_name json =>
      e <- get_env ;;
      opened_loop (S (length (ready_messages e queue_name))) cell queue_name json
  | ensure_queue_lambda queue_name cb' =>
      ensure_queue' queue_name cb' (call ensure_queue' cb')
  | user_callback id outcome =>
      lift_env (emit (Enter_callback id)) ;;
      match outcome with
      | None => ret tt
      | Some e => raise e
      end
  end.

(** ** pika's connection classes *)

(** [pika.BlockingConnection(params)] returns once the connection is open, or
    raises. *)
Definition BlockingConnection (params : ConnectionParameters) : M environment Connection :=
  request (Connect true params) ;;
  id <- fresh ;;
  ret {| conn_id := id; is_open := true; conn_parameters := params |}.

(** [connection.channel()] of a blocking connection. *)
Definition blocking_channel (conn : Connection) : M environment nat :=
  request (OpenChannel (conn_id conn)) ;;
  fresh.

(** [ExceptionFreeTornadoConnection(params, on_open_callback=self._on_open,
    on_close_callback=self._on_connection_closed)] returns at once; the
    connection is not open yet and the event loop owes [_on_open]. *)
Definition ExceptionFreeTornadoConnection (params : ConnectionParameters)
    : M environment Connection :=
  request (Connect false params) ;;
  id <- fresh ;;
  modify (with_ioloop (fun l => l ++ [k_on_open])) ;;
  ret {| conn_id := id; is_open := false; conn_parameters := params |}.

(** ** The methods a subclass overrides *)

(** [self._connect()], [self._reconnect()], [self.ensure_queue(..)] and
    [self.register_consumer(..)] are looked up in the class of [self]. *)
Class QueueClient := {
  self_connect : M state unit;
  self_reconnect : M state unit;
  self_ensure_queue : string -> callback -> M state unit;
  self_register_consumer : string -> Consumer -> M state unit }.

(** ** The methods of [SimpleQueueClient] that [TornadoQueueClient] inherits *)

Section Inherited.
Context (C : QueueClient).

Definition __init__ : M state unit :=
  set_self (with_queues ∅) ;;
  set_self (with_channel None) ;;
  set_self (with_consumers []) ;;
  set_self (with_rabbitmq_heartbeat (Some 0)) ;;
  self_connect.

Definition _reconnect_consumer_callback (queue : string) (consumer : Wrapped)
    : M state unit :=
  lift_env (log INFO ("Queue reconnecting saved consumer to queue " +:+ queue)) ;;
  self_ensure_queue queue (consume_lambda queue consumer).

Definition _reconnect_consumer_callbacks : M state unit :=
  c <- get_self ;;
  for_each (consumers c) (fun item =>
    for_each item.2 (fun consumer =>
      _reconnect_consumer_callback item.1 consumer)).

Definition publish (queue_name body : string) : M state unit :=
  lift_env (emit (Enter_publish queue_name body)) ;;
  self_ensure_queue queue_name (do_publish queue_name body).

Definition json_publish (queue_name : string) (body : payload) : M state unit :=
  sent <- try_except
            (e <- get_env ;;
             publish queue_name (ujson_dumps e body) ;;
             ret true)
            (fun x =>
               if is_AMQPConnectionError x
               then lift_env (log WARNING
                      "Failed to send to rabbitmq, trying to reconnect and send again") ;;
                    ret false
               else raise x) ;;
  if sent : bool then ret tt
  else
    self_reconnect ;;
    e <- get_env ;;
    publish queue_name (ujson_dumps e body).

(** [register_json_consumer]: [callback] sees the decoded body. *)
Definition register_json_consumer (queue_name : string)
    (callback : payload -> option exn) : M state unit :=
  e <- get_env ;;
  let wrapped_callback : Consumer := fun _ body =>
    match ujson_loads e body with
    | Some p => callback p
    | None => Some ValueError
    end in
  self_register_consumer queue_name wrapped_callback.

Definition drain_queue (queue_name : string) (json : bool) : M state (list drained) :=
  e <- get_env ;;
  let cell := length (cells e) in
  lift_env (modify (with_cells (cells e ++ [[]]))) ;;
  self_ensure_queue queue_name (opened cell queue_name json) ;;
  e <- get_env ;;
  ret (default [] (cells e !! cell)).

End Inherited.

(** [consumers[queue_name].add(w)] on the [defaultdict(set)]. The registry is
    kept as a list, whose order stands for the order in which Python iterates
    the dictionary and the sets in it. Python does not fix that order for a
    set of functions, so where the new wrapper lands among the wrappers of its
    queue means nothing: what is stated of a registry after an addition is
    stated up to permutation. *)
Fixpoint consumers_add (queue_name : string) (w : Wrapped)
    (d : list (string * list Wrapped)) : list (string * list Wrapped) :=
  match d with
  | [] => [(queue_name, [w])]
  | (q, ws) :: d' =>
      if decide (q = queue_name) then (q, ws ++ [w]) :: d'
      else (q, ws) :: consumers_add queue_name w d'
  end.

(** The call of a user handler from a [wrapped_consumer]. *)
Definition call_consumer (consumer : Consumer) (delivery_tag : Z) (body : string)
    : M environment unit :=
  emit (Enter_consumer delivery_tag body) ;;
  match consumer delivery_tag body with
  | None => ret tt
  | Some e => raise e
  end.

(** ** class SimpleQueueClient *)

(** Log lines are recorded without the values formatted into them (the time
    a connection took, the repr of a consumer). *)
Module SimpleQueueClient.

Definition _connect : M state unit :=
  params <- _get_parameters ;;
  conn <- lift_env (BlockingConnection params) ;;
  set_self (with_connection (Some conn)) ;;
  ch <- lift_env (blocking_channel conn) ;;
  set_self (with_channel (Some ch)) ;;
  lift_env (log INFO "SimpleQueueClient connected").

Definition _reconnect : M state unit :=
  lift_env (emit Enter_reconnect) ;;
  set_self (with_connection None) ;;
  set_self (with_channel None) ;;
  set_self (with_queues ∅) ;;
  _connect.

Definition connection_is_dead (c : client) : bool :=
  match connection c with
  | None => true
  | Some conn => negb (is_open conn)
  end.

Definition ensure_queue' (queue_name : string) (cb : callback) (callback : M state unit)
    : M state unit :=
  c <- get_self ;;
  (if connection_is_dead c then _connect else ret tt) ;;
  c <- get_self ;;
  (if decide (queue_name ∉ queues c)
   then ch <- the_channel ;;
        lift_env (request (QueueDeclare ch queue_name true)) ;;
        set_self (fun c => with_queues (queues c ∪ {[queue_name]}) c)
   else ret tt) ;;
  callback.

Definition ensure_queue (queue_name : string) (callback : callback) : M state unit :=
  ensure_queue' queue_name callback (call ensure_queue' callback).

(** The local function [wrapped_consumer] of [register_consumer];
    [delivery_tag] is [method.delivery_tag]. *)
Definition wrapped_consumer (consumer : Consumer) (ch : nat) (delivery_tag : Z)
    (body : string) : M environment unit :=
  try_except
    (call_consumer consumer delivery_tag body ;;
     basic_ack ch delivery_tag)
    (fun e =>
       basic_nack ch delivery_tag ;;
       raise e).

Definition register_consumer (queue_name : string) (consumer : Consumer) : M state unit :=
  id <- lift_env fresh ;;
  let wrapped := {| wid := id; wkind := blocking_wrapper; winner := consumer |} in
  set_self (fun c => with_consumers (consumers_add queue_name wrapped (consumers c)) c) ;;
  ensure_queue queue_name (consume_lambda queue_name wrapped).

#[export] Instance methods : QueueClient := {|
  self_connect := _connect;
  self_reconnect := _reconnect;
  self_ensure_queue := ensure_queue;
  self_register_consumer := register_consumer |}.

End SimpleQueueClient.

(** ** class TornadoQueueClient(SimpleQueueClient) *)

Module TornadoQueueClient.

Definition _connect (on_open_cb : option callback) : M state unit :=
  lift_env (log INFO "Beginning TornadoQueueClient connection") ;;
  match on_open_cb with
  | Some cb => set_self (fun c => with_on_open_cbs (_on_open_cbs c ++ [cb]) c)
  | None => ret tt
  end ;;
  params <- _get_parameters ;;
  conn <- lift_env (ExceptionFreeTornadoConnection params) ;;
  set_self (with_connection (Some conn)).

Definition _reconnect : M state unit :=
  lift_env (emit Enter_reconnect) ;;
  set_self (with_connection None) ;;
  set_self (with_channel None) ;;
  set_self (with_queues ∅) ;;
  _connect None.

(** [queue_declare(..., callback=finish)] returns at once; [finish] is owed
    by the event loop. *)
Definition ensure_queue' (queue_name : string) (cb : callback) (callback : M state unit)
    : M state unit :=
  c <- get_self ;;
  if decide (queue_name ∉ queues c)
  then
    r <- ready ;;
    if negb r
    then set_self (fun c => with_on_open_cbs
                     (_on_open_cbs c ++ [ensure_queue_lambda queue_name cb]) c)
    else
      ch <- the_channel ;;
      lift_env (request (QueueDeclare ch queue_name true) ;;
                modify (with_ioloop (fun l => l ++ [k_finish queue_name cb])))
  else callback.

Definition ensure_queue (queue_name : string) (callback : callback) : M state unit :=
  ensure_queue' queue_name callback (call ensure_queue' callback).

(** The local function [finish] of [ensure_queue]. *)
Definition finish (queue_name : string) (callback : callback) : M state unit :=
  set_self (fun c => with_queues (queues c ∪ {[queue_name]}) c) ;;
  call ensure_queue' callback.

(** The local function [wrapped_consumer] of [register_consumer]. *)
Definition wrapped_consumer (consumer : Consumer) (ch : nat) (delivery_tag : Z)
    (body : string) : M environment unit :=
  call_consumer consumer delivery_tag body ;;
  basic_ack ch delivery_tag.

Definition register_consumer (queue_name : string) (consumer : Consumer) : M state unit :=
  id <- lift_env fresh ;;
  let wrapped := {| wid := id; wkind := tornado_wrapper; winner := consumer |} in
  r <- ready ;;
  if negb r
  then set_self (fun c => with_consumers (consumers_add queue_name wrapped (consumers c)) c)
  else
    set_self (fun c => with_consumers (consumers_add queue_name wrapped (consumers c)) c) ;;
    ensure_queue queue_name (consume_lambda queue_name wrapped).

#[export] Instance methods : QueueClient := {|
  self_connect := _connect None;
  self_reconnect := _reconnect;
  self_ensure_queue := ensure_queue;
  self_register_consumer := register_consumer |}.

Definition __init__ : M state unit :=
  __init__ methods ;;                           (* super().__init__() *)
  set_self (with_rabbitmq_heartbeat None) ;;
  set_self (with_on_open_cbs []).

Definition _on_open : M state unit :=
  c <- get_self ;;
  match connection c with
  | Some conn =>
      lift_env (request (OpenChannel (conn_id conn)) ;;
                modify (with_ioloop (fun l => l ++ [k_on_channel_open])))
  | None => raise AttributeError
  end.

(** The loop runs over [_on_open_cbs] as it is when the channel opens: with
    [self.channel] set, no call appends to it ([call_keeps_on_open_cbs]). *)
Definition _on_channel_open (channel : nat) : M state unit :=
  set_self (with_channel (Some channel)) ;;
  c <- get_self ;;
  for_each (_on_open_cbs c) (call ensure_queue') ;;
  _reconnect_consumer_callbacks methods ;;
  lift_env (log INFO "TornadoQueueClient connected").

Definition retry_seconds : Z := 2.

(** [ioloop.IOLoop.instance().call_later(retry_seconds, on_timeout)] *)
Definition call_later_on_timeout : M state unit :=
  lift_env (emit (CallLater retry_seconds) ;;
            modify (with_ioloop (fun l => l ++ [k_on_timeout]))).

(** The local function [on_timeout] of [_on_connection_closed]. *)
Definition on_timeout : M state unit :=
  try_except _reconnect
    (fun x =>
       if is_AMQPConnectionError x
       then lift_env (log CRITICAL "Failed to reconnect to RabbitMQ, retrying...") ;;
            call_later_on_timeout
       else raise x).

Definition _on_connection_closed : M state unit :=
  lift_env (log WARNING "TornadoQueueClient lost connection to RabbitMQ, reconnecting...") ;;
  call_later_on_timeout.

(** *** The event loop *)

Definition mark_open (c : client) : client :=
  with_connection
    (match connection c with
     | Some conn => Some {| conn_id := conn_id conn; is_open := true;
                            conn_parameters := conn_parameters conn |}
     | None => None
     end) c.

Definition run_continuation (k : continuation) : M state unit :=
  match k with
  | k_on_open => set_self mark_open ;; _on_open
  | k_on_channel_open => ch <- lift_env fresh ;; _on_channel_open ch
  | k_finish queue_name cb => finish queue_name cb
  | k_on_timeout => on_timeout
  end.

(** One turn of the loop: the oldest completion, if any, is delivered. *)
Definition ioloop_step : M state unit :=
  e <- get_env ;;
  match ioloop e with
  | [] => ret tt
  | k :: rest =>
      lift_env (modify (with_ioloop (fun _ => rest))) ;;
      run_continuation k
  end.

Fixpoint ioloop_run (turns : nat) : M state unit :=
  match turns with
  | O => ret tt
  | S n => ioloop_step ;; ioloop_run n
  end.

(** The connection closes under the client: pika clears [is_open] and calls
    [on_close_callback]. *)
Definition connection_closed : M state unit :=
  modify transport_closed ;;
  _on_connection_closed.

End TornadoQueueClient.

(** A delivery to a registered consumer runs the body of its wrapper. *)
Definition deliver (w : Wrapped) (ch : nat) (delivery_tag : Z) (body : string)
    : M environment unit :=
  match wkind w with
  | blocking_wrapper => SimpleQueueClient.wrapped_consumer (winner w) ch delivery_tag body
  | tornado_wrapper => TornadoQueueClient.wrapped_consumer (winner w) ch delivery_tag body
  end.

(** Objects are built by running [__init__] on a new instance. *)
Definition blank (cls : client_class) : client :=
  {| class_of := cls; queues := ∅; channel := None; connection := None;
     consumers := []; rabbitmq_heartbeat := None; _on_open_cbs := [] |}.

Definition construct (cls : client_class) (init : M state unit) : M environment client :=
  fun e => match init {| self := blank cls; env := e |} with
           | (Return _, s) => (Return (self s), env s)
           | (Raise x, s) => (Raise x, env s)
           end.

Definition new_SimpleQueueClient : M environment client :=
  construct Simple (__init__ SimpleQueueClient.methods).
Definition new_TornadoQueueClient : M environment client :=
  construct Tornado TornadoQueueClient.__init__.

Definition methods_of (cls : client_class) : QueueClient :=
  match cls with
  | Simple => SimpleQueueClient.methods
  | Tornado => TornadoQueueClient.methods
  end.

(** ** Module level *)

Definition MAX_REQUEST_RETRIES : Z := 3.

(** The global [queue_client] and the environment. *)
Record process := { queue_client : option client; world : environment }.

Definition in_world {A} (m : M environment A) : M process A :=
  fun p => let (r, e) := m (world p) in (r, {| queue_client := queue_client p; world := e |}).

Definition get_queue_client : M process (option client) :=
  p <- get ;;
  match queue_client p with
  | None =>
      (if RUNNING_INSIDE_TORNADO (settings (world p)) && USING_RABBITMQ (settings (world p))
       then c <- in_world new_TornadoQueueClient ;;
            modify (fun p => {| queue_client := Some c; world := world p |})
       else if USING_RABBITMQ (settings (world p))
       then c <- in_world new_SimpleQueueClient ;;
            modify (fun p => {| queue_client := Some c; world := world p |})
       else ret tt) ;;
      p <- get ;;
      ret (queue_client p)
  | Some c => ret (Some c)
  end.

(** A method call on the object [queue_client] refers to. *)
Definition on_queue_client {A} (m : QueueClient -> M state A) : M process A :=
  fun p => match queue_client p with
           | Some c =>
               let (r, s) := m (methods_of (class_of c)) {| self := c; env := world p |} in
               (r, {| queue_client := Some (self s); world := env s |})
           | None => (Raise AttributeError, p)
           end.

(** A [processor] handed to [queue_json_publish]: recorded, then it returns or
    raises. *)
Definition call_processor (processor : payload -> option exn) (event : payload)
    : M process unit :=
  in_world (emit (Enter_processor event)) ;;
  match processor event with
  | None => ret tt
  | Some e => raise e
  end.

(** [queue_lock] is a reentrant lock around the body; with one thread it does
    nothing. [get_worker(queue_name).consume_wrapper(event)] belongs to
    zerver.worker.queue_processors and is only recorded. *)
Definition queue_json_publish (queue_name : string) (event : payload)
    (processor : option (payload -> option exn)) : M process unit :=
  in_world (emit (Enter_queue_json_publish queue_name event)) ;;
  p <- get ;;
  if USING_RABBITMQ (settings (world p))
  then get_queue_client ;;
       on_queue_client (fun C => json_publish C queue_name event)
  else match processor with
       | Some f => call_processor f event
       | None => in_world (emit (WorkerConsume queue_name event))
       end.

(** [retry_event] works on the caller's dictionary, which it changes in place:
    the state is the dictionary and the process. *)
Record retrying := { event : gmap string pyval; proc : process }.

Definition in_proc {A} (m : M process A) : M retrying A :=
  fun r => let (x, p) := m (proc r) in (x, {| event := event r; proc := p |}).
Definition set_event (f : gmap string pyval -> gmap string pyval) : M retrying unit :=
  modify (fun r => {| event := f (event r); proc := proc r |}).

(** [v += 1] on a Python value *)
Definition iadd_1 (v : pyval) : result pyval :=
  match v with
  | VInt n => Return (VInt (n + 1))
  | VBool b => Return (VInt ((if b then 1 else 0) + 1))
  | VNone | VStr _ => Raise TypeError
  end.

(** [v > n] on a Python value and an int *)
Definition gt_int (v : pyval) (n : Z) : result bool :=
  match v with
  | VInt m => Return (n <? m)
  | VBool b => Return (n <? (if b then 1 else 0))
  | VNone | VStr _ => Raise TypeError
  end.

Definition of_result {S A} (r : result A) : M S A := fun s => (r, s).

(** [failure_processor] may change the dictionary it is given and may raise. *)
Definition call_failure_processor
    (failure_processor : gmap string pyval -> gmap string pyval * option exn)
    : M retrying unit :=
  r <- get ;;
  in_proc (in_world (emit (Enter_failure_processor (event r)))) ;;
  set_event (fun d => (failure_processor d).1) ;;
  match (failure_processor (event r)).2 with
  | None => ret tt
  | Some e => raise e
  end.

Definition retry_event (queue_name : string)
    (failure_processor : gmap string pyval -> gmap string pyval * option exn)
    : M retrying unit :=
  r <- get ;;
  (if decide ("failed_tries" ∉ dom (event r))
   then set_event <["failed_tries" := VInt 0]>
   else ret tt) ;;
  r <- get ;;
  v <- of_result (iadd_1 (event r !!! "failed_tries")) ;;
  set_event <["failed_tries" := v]> ;;
  r <- get ;;
  exceeded <- of_result (gt_int (event r !!! "failed_tries") MAX_REQUEST_RETRIES) ;;
  if exceeded : bool
  then call_failure_processor failure_processor
  else in_proc (queue_json_publish queue_name (PDict (event r)) (Some (fun _ => None))).

(** * Vocabulary for the properties *)

(** The trace of each kind of state. *)
Class Traced (S : Type) := trace_of : S -> list obs.
#[global] Instance environment_traced : Traced environment := trace.
#[global] Instance state_traced : Traced state := fun s => trace (env s).
#[global] Instance process_traced : Traced process := fun p => trace (world p).
#[global] Instance retrying_traced : Traced retrying := fun r => trace (world (proc r)).

(** What was recorded between two states. *)
Definition emitted {S} `{Traced S} (s s' : S) : list obs :=
  drop (length (trace_of s)) (trace_of s').

Fixpoint count (sel : obs -> bool) (l : list obs) : nat :=
  match l with
  | [] => O
  | o :: l' => if sel o then S (count sel l') else count sel l'
  end.

(** [keeps I P m]: from a state in [I], the action [m] ends in [I], whether it
    returns or raises, and only appends to the trace, every new entry being
    in [P]. *)
Definition keeps {S} `{Traced S} {A} (I : S -> Prop) (P : obs -> Prop) (m : M S A) : Prop :=
  forall s, I s ->
    I (m s).2 /\ exists l, trace_of (m s).2 = trace_of s ++ l /\ Forall P l.

(** Invariants of a method: one on [self], one on the environment. *)
Definition inv (J : client -> Prop) (K : environment -> Prop) (s : state) : Prop :=
  J (self s) /\ K (env s).

Definition any_client (c : client) : Prop := True.

(** Kinds of trace entries. *)
Definition channel_obs (o : obs) : bool :=
  match o with
  | BasicPublish _ _ _ _ | BasicConsume _ _ _ _ | BasicGet _ _ | BasicAck _ _
  | BasicNack _ _ | Log _ _ | StatsdIncr _ | Enter_callback _ | Enter_consumer _ _ => true
  | _ => false
  end.
Definition connection_obs (o : obs) : bool :=
  match o with
  | OpenChannel _ | CloseConnection _ | CallLater _ => true
  | _ => false
  end.
Definition is_QueueDeclare (queue : string) (o : obs) : bool :=
  match o with
  | QueueDeclare _ q _ => bool_decide (q = queue)
  | _ => false
  end.
Definition is_Connect (o : obs) : bool :=
  match o with Connect _ _ => true | _ => false end.
Definition is_BasicConsume (o : obs) : bool :=
  match o with BasicConsume _ _ _ _ => true | _ => false end.
Definition is_BasicAck (o : obs) : bool :=
  match o with BasicAck _ _ => true | _ => false end.
Definition is_BasicNack (o : obs) : bool :=
  match o with BasicNack _ _ => true | _ => false end.
Definition is_Enter_reconnect (o : obs) : bool :=
  match o with Enter_reconnect => true | _ => false end.
Definition is_Enter_publish (o : obs) : bool :=
  match o with Enter_publish _ _ => true | _ => false end.
Definition is_Enter_queue_json_publish (o : obs) : bool :=
  match o with Enter_queue_json_publish _ _ => true | _ => false end.
Definition is_Enter_failure_processor (o : obs) : bool :=
  match o with Enter_failure_processor _ => true | _ => false end.

(** Entries that only the methods of the clients record. *)
Definition method_entry (o : obs) : bool :=
  match o with Enter_reconnect | Enter_publish _ _ => true | _ => false end.
Definition no_method_entry (o : obs) : Prop := method_entry o = false.

(** An invariant of the environment that only looks at the script of faults
    and survives the consumption of its head. *)
Definition on_faults (F : list (option exn) -> Prop) (e : environment) : Prop :=
  F (faults e).
Definition tail_closed (F : list (option exn) -> Prop) : Prop :=
  forall x fs, F (x :: fs) -> F fs.

(** What a predicate on trace entries must allow for a method to keep it. *)
Definition chan (P : obs -> Prop) : Prop := forall o, channel_obs o = true -> P o.
Definition conn (P : obs -> Prop) : Prop := forall o, connection_obs o = true -> P o.
Definition decl (P : obs -> Prop) : Prop := forall ch q d, P (QueueDeclare ch q d).
Definition meth (P : obs -> Prop) : Prop := forall o, method_entry o = true -> P o.
(** The parameters of a connection made by a client in [J]. *)
Definition params (J : client -> Prop) (P : obs -> Prop) : Prop :=
  forall c b h cr, J c ->
    P (Connect b {| host := h; heartbeat_interval := rabbitmq_heartbeat c;
                    credentials := cr |}).

(** An invariant of [self] that no assignment outside the constructors breaks. *)
Definition survives (J : client -> Prop) : Prop :=
  forall c, J c ->
    (forall x, J (with_queues x c)) /\ (forall x, J (with_channel x c)) /\
    (forall x, J (with_connection x c)) /\ (forall x, J (with_consumers x c)) /\
    (forall x, J (with_on_open_cbs x c)).

(** The parameters of the connections requested in a stretch of trace. *)
Definition connects (l : list obs) : list ConnectionParameters :=
  omap (fun o => match o with Connect _ p => Some p | _ => None end) l.

(** ** Concrete settings, environments and handlers *)

Definition example_settings (rabbitmq tornado : bool) : Settings :=
  {| USING_RABBITMQ := rabbitmq; RUNNING_INSIDE_TORNADO := tornado;
     RABBITMQ_HOST := "localhost"; RABBITMQ_USERNAME := "zulip";
     RABBITMQ_PASSWORD := "secret" |}.

Definition example_dumps (p : payload) : string :=
  match p with
  | PStr s => s
  | PDict _ => "{}"
  end.

Definition example_loads (s : string) : option payload := Some (PStr s).

(** An environment with nothing recorded yet: [fs] scripts the broker, [b] is
    what its queues hold, and every random draw gives [bits]. *)
Definition example_env (st : Settings) (fs : list (option exn))
    (b : gmap string (list string)) (bits : N) : environment :=
  {| settings := st; ujson_dumps := example_dumps; ujson_loads := example_loads;
     trace := []; faults := fs; entropy := fun _ => bits; draws := 0;
     next_id := 0; broker := b; unacked := []; next_delivery_tag := 1;
     ioloop := []; cells := [] |}.

Definition quiet_env : environment :=
  example_env (example_settings true false) [] ∅ 7.

Definition failing_consumer : Consumer := fun _ _ => Some (UserError "handler failed").
Definition passing_consumer : Consumer := fun _ _ => None.

(** ** The event-driven wrapper, as claimed *)

(** The acknowledgement is issued whether or not the handler raises, and no
    negative acknowledgement is. *)
Definition tornado_wrapper_always_acks (consumer : Consumer) (ch : nat)
    (delivery_tag : Z) (body : string) (e : environment) : Prop :=
  let after := (TornadoQueueClient.wrapped_consumer consumer ch delivery_tag body e).2 in
  BasicAck ch delivery_tag ∈ emitted e after /\
  count is_BasicNack (emitted e after) = O.

(** ** What can happen to a client once it is built *)

Inductive operation :=
| op_reconnect
| op_ensure_queue (queue_name : string) (cb : callback)
| op_publish (queue_name body : string)
| op_json_publish (queue_name : string) (body : payload)
| op_register_consumer (queue_name : string) (consumer : Consumer)
| op_register_json_consumer (queue_name : string) (callback : payload -> option exn)
| op_drain_queue (queue_name : string) (json : bool)
| op_close
| op_transport_closed        (* the connection of a blocking client drops *)
| op_ioloop_step             (* the event loop delivers a completion *)
| op_connection_closed.      (* the connection of an event-driven client closes *)

Definition perform (cls : client_class) (o : operation) : M state unit :=
  let C := methods_of cls in
  match o with
  | op_reconnect => self_reconnect
  | op_ensure_queue q cb => self_ensure_queue q cb
  | op_publish q body => publish C q body
  | op_json_publish q body => json_publish C q body
  | op_register_consumer q c => self_register_consumer q c
  | op_register_json_consumer q f => register_json_consumer C q f
  | op_drain_queue q json => drain_queue C q json ;; ret tt
  | op_close => close
  | op_transport_closed => modify transport_closed
  | op_ioloop_step =>
      match cls with
      | Tornado => TornadoQueueClient.ioloop_step
      | Simple => ret tt
      end
  | op_connection_closed =>
      match cls with
      | Tornado => TornadoQueueClient.connection_closed
      | Simple => modify transport_closed
      end
  end.

(** The operations in turn, each from the state the one before left, whether
    it returned or raised. *)
Definition perform_all (cls : client_class) (ops : list operation) (s : state) : state :=
  foldl (fun s o => (perform cls o s).2) s ops.

Definition heartbeat_is (h : option Z) (o : obs) : Prop :=
  match o with
  | Connect _ p => heartbeat_interval p = h
  | _ => True
  end.

(** ** Bounded publish retry, as claimed *)

(** A blocking client built against a broker that answers the two requests of
    the constructor and then follows the script [fs]. *)
Definition built_simple (fs : list (option exn)) (b : gmap string (list string)) : state :=
  (__init__ SimpleQueueClient.methods
     {| self := blank Simple;
        env := example_env (example_settings true false) (None :: None :: fs) b 7 |}).2.

(** A first publish attempt that raises a connection error is followed by
    exactly one reconnect and exactly one more publish attempt. *)
Definition json_publish_retries_exactly_once (cls : client_class) (queue_name : string)
    (body : payload) (s : state) : Prop :=
  let C := methods_of cls in
  let after := (json_publish C queue_name body s).2 in
  (publish C queue_name (ujson_dumps (env s) body) s).1 = Raise AMQPConnectionError ->
  count is_Enter_reconnect (emitted s after) = 1%nat /\
  count is_Enter_publish (emitted s after) = 2%nat.

(** ** The retry envelope *)

(** The two things [retry_event] can decide to do with an event. *)
Definition decision (o : obs) : bool :=
  is_Enter_queue_json_publish o || is_Enter_failure_processor o.
Definition no_decision (o : obs) : Prop := decision o = false.

(** The processor [lambda x: None] that [retry_event] hands over. *)
Definition lambda_x_None : payload -> option exn := fun _ => None.

(** [failed_tries] as [retry_event] finds it: 0 when the key is absent. *)
Definition found_tries (d : gmap string pyval) (n : Z) : Prop :=
  (d !! "failed_tries" = None /\ n = 0) \/ d !! "failed_tries" = Some (VInt n).

(** When [retry_event] decides to republish, it returns normally, whatever the
    publish path does. *)
Definition retry_event_ignores_republish_failure (queue_name : string)
    (failure_processor : gmap string pyval -> gmap string pyval * option exn)
    (r : retrying) : Prop :=
  forall n, found_tries (event r) n -> n + 1 <= MAX_REQUEST_RETRIES ->
    (retry_event queue_name failure_processor r).1 = Return tt.

(** A process whose client is the blocking client [built_simple fs b], about
    to retry the event [d]. *)
Definition retrying_with (fs : list (option exn)) (d : gmap string pyval) : retrying :=
  {| event := d;
     proc := {| queue_client := Some (self (built_simple fs ∅));
                world := env (built_simple fs ∅) |} |}.

(** A process without a broker. *)
Definition retrying_without_broker (d : gmap string pyval) : retrying :=
  {| event := d;
     proc := {| queue_client := None;
                world := example_env (example_settings false false) [] ∅ 7 |} |}.

Definition failure_processor_noop (d : gmap string pyval)
    : gmap string pyval * option exn := (d, None).

(** ** A blocking client whose connection dropped *)

(** The client has declared the queue "old"; then the transport went away. *)
Definition stale_simple : state :=
  transport_closed
    (SimpleQueueClient.ensure_queue "old" (user_callback 0 None) (built_simple [] ∅)).2.

(** ** A queue to drain *)

Definition simple_with_queue (queue : string) (bodies : list string) : state :=
  built_simple [] {[queue := bodies]}.

Definition connected (c : client) (ch : nat) : Prop :=
  SimpleQueueClient.connection_is_dead c = false /\ channel c = Some ch.

(** What draining [bodies] records on channel [ch] when the next delivery tag
    is [t]: a fetch and an acknowledgement per message, and the fetch that
    finds the queue empty. *)
Fixpoint drain_trace (ch : nat) (queue : string) (t : Z) (bodies : list string)
    : list obs :=
  match bodies with
  | [] => [BasicGet ch queue]
  | _ :: bodies' => BasicGet ch queue :: BasicAck ch t :: drain_trace ch queue (t + 1) bodies'
  end.

(** ** Declaration idempotency *)

(** Actions run in turn, each from the state the one before left, whether it
    returned or raised; the outcomes are collected. *)
Fixpoint runs {A} (ms : list (M state A)) (s : state) : list (result A) * state :=
  match ms with
  | [] => ([], s)
  | m :: ms' =>
      let (r, s1) := m s in
      let (rs, s2) := runs ms' s1 in
      (r :: rs, s2)
  end.

(** [ensure_queue(queue_name, cb)] for each callback of a list, with nothing
    happening to the connection in between. *)
Definition ensure_queue_calls (cls : client_class) (queue_name : string)
    (cbs : list callback) : state -> list (result unit) * state :=
  runs (map (fun cb => self_ensure_queue (QueueClient := methods_of cls) queue_name cb) cbs).

(** The callbacks called in turn, without [ensure_queue]. *)
Definition callback_calls (cls : client_class) (cbs : list callback)
    : state -> list (result unit) * state :=
  runs (map (fun cb => match cls with
                       | Simple => call SimpleQueueClient.ensure_queue' cb
                       | Tornado => call TornadoQueueClient.ensure_queue' cb
                       end) cbs).

(** As claimed: whatever the class, the calls issue at most one
    [queue_declare] for the name. *)
Definition declared_at_most_once (cls : client_class) (queue_name : string)
    (cbs : list callback) (s : state) : Prop :=
  (count (is_QueueDeclare queue_name)
         (emitted s (ensure_queue_calls cls queue_name cbs s).2) <= 1)%nat.

(** The state of a blocking client after a successful declaration of
    [queue_name] on channel [ch], if the name was not cached. *)
Definition declare_if_new (ch : nat) (queue_name : string) (s : state) : state :=
  if decide (queue_name ∉ queues (self s))
  then {| self := with_queues (queues (self s) ∪ {[queue_name]}) (self s);
          env := with_trace (fun t => t ++ [QueueDeclare ch queue_name true]) (env s) |}
  else s.

(** An event-driven client whose connection and channel have opened. *)
Definition ready_tornado (bits : N) : state :=
  ((TornadoQueueClient.__init__ ;; TornadoQueueClient.ioloop_run 2)%py
     {| self := blank Tornado;
        env := example_env (example_settings true true) [] ∅ bits |}).2.

(** ** Replay after a reconnect *)

(** The registry as the list of its (queue, consumer) pairs, in the order
    [_reconnect_consumer_callbacks] visits them. *)
Definition registered (c : client) : list (string * Wrapped) :=
  flat_map (fun item => map (fun w => (item.1, w)) item.2) (consumers c).

(** The consumer tags of the subscriptions requested for a consumer. *)
Definition subscriptions (consumer : nat) (l : list obs) : list string :=
  omap (fun o => match o with
                 | BasicConsume _ c _ tag => if decide (c = consumer) then Some tag else None
                 | _ => None
                 end) l.

(** The tag [_generate_ctag] builds from the [i]-th draw after [e]. *)
Definition ctag_of_draw (e : environment) (i : nat) (queue_name : string) : string :=
  queue_name +:+ "_" +:+ pretty (entropy e (draws e + i)%nat mod 2 ^ 16)%N.

(** The subscriptions a replay requests on channel [ch]: one per registered
    consumer, in order, each with the tag of the next draw. *)
Fixpoint replay_trace (e : environment) (ch : nat) (i : nat)
    (reg : list (string * Wrapped)) : list obs :=
  match reg with
  | [] => []
  | (q, w) :: reg' =>
      BasicConsume ch (wid w) q (ctag_of_draw e i q) :: replay_trace e ch (S i) reg'
  end.

(** The event loop delivers [turns] completions, whatever the class. *)
Definition after_turns (cls : client_class) (turns : nat) (s : state) : state :=
  perform_all cls (replicate turns op_ioloop_step) s.

(** As claimed: after a forced reconnect (and, for the event-driven client,
    once the loop has delivered the completions) the cache was emptied, the
    registry is unchanged, and every registered consumer has been subscribed
    again exactly once, with a tag that differs from the tag of its last
    subscription. *)
Definition replayed_with_new_tags (cls : client_class) (turns : nat) (s : state) : Prop :=
  let reconnected := (self_reconnect (QueueClient := methods_of cls) s).2 in
  let after := after_turns cls turns reconnected in
  queues (self reconnected) = ∅ /\
  consumers (self after) = consumers (self s) /\
  forall q w, (q, w) ∈ registered (self s) ->
    exists tag, subscriptions (wid w) (emitted s after) = [tag] /\
                last (subscriptions (wid w) (trace (env s))) <> Some tag.

(** A blocking client with one consumer registered on "q". *)
Definition simple_with_consumer : state :=
  (SimpleQueueClient.register_consumer "q" passing_consumer (built_simple [] ∅)).2.

(** An event-driven client with one consumer registered and subscribed on
    "q"; every random draw gives the same bits. *)
Definition tornado_with_consumer : state :=
  ((TornadoQueueClient.register_consumer "q" passing_consumer ;;
    TornadoQueueClient.ioloop_run 1)%py (ready_tornado 7)).2.

(** The completion owed for the declaration made when a consumer is replayed. *)
Definition finish_of (x : string * Wrapped) : continuation :=
  k_finish x.1 (consume_lambda x.1 x.2).

(** ** Further vocabulary *)

(** A blocking client as its constructor leaves it, paired with the
    environment the constructor left. *)
Definition after_construction (c : client) (e : environment) : state :=
  {| self := c; env := e |}.

(** No underscore in a string. *)
Fixpoint no_underscore (s : string) : Prop :=
  match s with
  | EmptyString => True
  | String a s' => a <> "_"%char /\ no_underscore s'
  end.

Definition is_CallLater (o : obs) : bool :=
  match o with CallLater _ => true | _ => false end.
Definition is_BasicPublish (o : obs) : bool :=
  match o with BasicPublish _ _ _ _ => true | _ => false end.
Definition is_CloseConnection (o : obs) : bool :=
  match o with CloseConnection _ => true | _ => false end.
Definition is_Enter_processor (o : obs) : bool :=
  match o with Enter_processor _ => true | _ => false end.
Definition is_request (o : obs) : bool :=
  match o with
  | Connect _ _ | OpenChannel _ | CloseConnection _ | QueueDeclare _ _ _
  | BasicPublish _ _ _ _ | BasicConsume _ _ _ _ | BasicGet _ _ | BasicAck _ _
  | BasicNack _ _ => true
  | _ => false
  end.

(** An event-driven client without consumers whose connection has been
    requested: no channel, an empty cache, [cbs] deferred, and the event loop
    owing only [_on_open]. *)
Definition awaiting_open (cbs : list callback) (s : state) : Prop :=
  channel (self s) = None /\ queues (self s) = ∅ /\ _on_open_cbs (self s) = cbs /\
  consumers (self s) = [] /\
  (exists conn, connection (self s) = Some conn) /\
  ioloop (env s) = [k_on_open] /\ faults (env s) = [].

(** An event-driven client without consumers whose channel is open, with
    [cbs] in [_on_open_cbs] and nothing owed by the event loop. *)
Definition open_with (cbs : list callback) (s : state) : Prop :=
  (exists ch, channel (self s) = Some ch) /\ _on_open_cbs (self s) = cbs /\
  consumers (self s) = [] /\ ioloop (env s) = [] /\ faults (env s) = [].

(** A forced reconnect, followed by the three turns of the loop that open
    the connection, open the channel and complete one declaration. *)
Definition reconnect_cycle (s : state) : state :=
  after_turns Tornado 3 (TornadoQueueClient._reconnect s).2.

(** The same environment with another [ujson.loads]. *)
Definition with_ujson_loads (f : string -> option payload) (e : environment) : environment :=
  {| settings := settings e; ujson_dumps := ujson_dumps e; ujson_loads := f;
     trace := trace e; faults := faults e; entropy := entropy e; draws := draws e;
     next_id := next_id e; broker := broker e; unacked := unacked e;
     next_delivery_tag := next_delivery_tag e; ioloop := ioloop e; cells := cells e |}.

(** A decoder that accepts only the empty JSON object. *)
Definition loads_only_empty_object (s : string) : option payload :=
  if decide (s = "{}") then Some (PDict ∅) else None.

(** * Proofs *)

(** ** Counting *)

Lemma count_app sel l1 l2 : count sel (l1 ++ l2) = (count sel l1 + count sel l2)%nat.
Proof. induction l1 as [|o l1 IH]; cbn; [done|]. destruct (sel o); cbn; lia. Qed.

Lemma count_none sel l : Forall (fun o => sel o = false) l -> count sel l = O.
Proof. induction 1 as [|o l Ho _ IH]; cbn; [done|]. by rewrite Ho. Qed.

Lemma emitted_app {S} `{Traced S} (s s' : S) l :
  trace_of s' = trace_of s ++ l -> emitted s s' = l.
Proof. intros E. unfold emitted. rewrite E. by rewrite drop_app_length. Qed.

(** ** The rules of [keeps] *)

Section Keeps.
Context {S : Type} `{Traced S}.
Implicit Types (I : S -> Prop) (P : obs -> Prop).

Lemma keeps_ret {A} I P (a : A) : keeps I P (ret a).
Proof. intros s Hs. split; [done|]. exists []. by rewrite app_nil_r. Qed.

Lemma keeps_raise {A} I P e : keeps I P (raise (A := A) e).
Proof. intros s Hs. split; [done|]. exists []. by rewrite app_nil_r. Qed.

Lemma keeps_get I P : keeps I P get.
Proof. intros s Hs. split; [done|]. exists []. by rewrite app_nil_r. Qed.

Lemma keeps_of_result {A} I P (r : result A) : keeps I P (of_result r).
Proof. intros s Hs. split; [done|]. exists []. by rewrite app_nil_r. Qed.

Lemma keeps_bind {A B} I P (m : M S A) (k : A -> M S B) :
  keeps I P m -> (forall a, keeps I P (k a)) -> keeps I P (bind m k).
Proof.
  intros Hm Hk s Hs. unfold bind.
  destruct (Hm s Hs) as (Hi & l & El & Hl).
  destruct (m s) as [[a|e] s1]; cbn in *.
  - destruct (Hk a s1 Hi) as (Hi2 & l2 & El2 & Hl2).
    split; [done|]. exists (l ++ l2). rewrite El2, El, app_assoc.
    split; [done|]. by apply Forall_app.
  - split; [done|]. by exists l.
Qed.

Lemma keeps_try_except {A} I P (m : M S A) (h : exn -> M S A) :
  keeps I P m -> (forall e, keeps I P (h e)) -> keeps I P (try_except m h).
Proof.
  intros Hm Hh s Hs. unfold try_except.
  destruct (Hm s Hs) as (Hi & l & El & Hl).
  destruct (m s) as [[a|e] s1]; cbn in *.
  - split; [done|]. by exists l.
  - destruct (Hh e s1 Hi) as (Hi2 & l2 & El2 & Hl2).
    split; [done|]. exists (l ++ l2). rewrite El2, El, app_assoc.
    split; [done|]. by apply Forall_app.
Qed.

Lemma keeps_for_each {A} I P (l : list A) (body : A -> M S unit) :
  (forall a, keeps I P (body a)) -> keeps I P (for_each l body).
Proof.
  intros Hb. induction l as [|a l IH]; cbn.
  - apply keeps_ret.
  - apply keeps_bind; [apply Hb | intros _; apply IH].
Qed.

Lemma keeps_weaken {A} I P Q (m : M S A) :
  (forall o, P o -> Q o) -> keeps I P m -> keeps I Q m.
Proof.
  intros HPQ Hm s Hs. destruct (Hm s Hs) as (Hi & l & El & Hl).
  split; [done|]. exists l. split; [done|]. eapply Forall_impl; eauto.
Qed.

Lemma keeps_emitted {A} I P (m : M S A) s :
  keeps I P m -> I s -> Forall P (emitted s (m s).2).
Proof.
  intros Hm Hs. destruct (Hm s Hs) as (_ & l & El & Hl).
  by rewrite (emitted_app _ _ _ El).
Qed.

End Keeps.

(** ** Actions on the environment *)

Section EnvRules.
Context (F : list (option exn) -> Prop) (F_tail : tail_closed F) (P : obs -> Prop).
Let K := on_faults F.

Lemma keeps_emit o : P o -> keeps K P (emit o).
Proof.
  intros Ho e He. split; [done|]. exists [o]. split; [done|]. by constructor.
Qed.

Lemma keeps_request o : P o -> keeps K P (request o).
Proof.
  intros Ho e He. unfold request, K, on_faults in *.
  destruct (faults e) as [|[x|] fs] eqn:E; cbn.
  - split; [by rewrite E|]. exists [o]. split; [done|]. by constructor.
  - split; [by apply F_tail in He|]. exists [o]. split; [done|]. by constructor.
  - split; [by apply F_tail in He|]. exists [o]. split; [done|]. by constructor.
Qed.

Lemma keeps_modify_env (f : environment -> environment) :
  (forall e, trace (f e) = trace e /\ faults (f e) = faults e) ->
  keeps K P (modify f).
Proof.
  intros Hf e He. destruct (Hf e) as [Et Ef]. unfold K, on_faults in *. cbn. split.
  - by rewrite Ef.
  - exists []. unfold trace_of, environment_traced. by rewrite Et, app_nil_r.
Qed.

Lemma keeps_fresh : keeps K P fresh.
Proof. intros e He. split; [done|]. exists []. cbn. by rewrite app_nil_r. Qed.

Lemma keeps_getrandbits k : keeps K P (getrandbits k).
Proof. intros e He. split; [done|]. exists []. cbn. by rewrite app_nil_r. Qed.

End EnvRules.

(** ** Actions on [self] and on the environment *)

Section StateRules.
Context (J : client -> Prop) (K : environment -> Prop) (P : obs -> Prop).

Lemma keeps_lift_env {A} (m : M environment A) :
  keeps K P m -> keeps (inv J K) P (lift_env m).
Proof.
  intros Hm s [Hj Hk]. unfold lift_env.
  destruct (Hm (env s) Hk) as (Hk' & l & El & Hl).
  destruct (m (env s)) as [r e']; cbn in *.
  split; [by split|]. by exists l.
Qed.

Lemma keeps_set_self (f : client -> client) :
  (forall c, J c -> J (f c)) -> keeps (inv J K) P (set_self f).
Proof.
  intros Hf s [Hj Hk]. cbn. split; [split; cbn; auto|].
  exists []. cbn. by rewrite app_nil_r.
Qed.

Lemma keeps_get_self : keeps (inv J K) P get_self.
Proof. intros s Hs. split; [done|]. exists []. cbn. by rewrite app_nil_r. Qed.

Lemma keeps_get_env : keeps (inv J K) P get_env.
Proof. intros s Hs. split; [done|]. exists []. cbn. by rewrite app_nil_r. Qed.

End StateRules.

(** Breaks a [keeps] goal along the structure of the action. *)
Ltac keeps_step :=
  match goal with
  | |- keeps _ _ (ret _) => apply keeps_ret
  | |- keeps _ _ (raise _) => apply keeps_raise
  | |- keeps _ _ get => apply keeps_get
  | |- keeps _ _ (of_result _) => apply keeps_of_result
  | |- keeps _ _ get_self => apply keeps_get_self
  | |- keeps _ _ get_env => apply keeps_get_env
  | |- keeps _ _ fresh => apply keeps_fresh
  | |- keeps _ _ (getrandbits _) => apply keeps_getrandbits
  | |- keeps _ _ (bind _ _) => apply keeps_bind; [|intros ?]
  | |- keeps _ _ (try_except _ _) => apply keeps_try_except; [|intros ?]
  | |- keeps _ _ (for_each _ _) => apply keeps_for_each; intros ?
  | |- keeps _ _ (lift_env _) => apply keeps_lift_env
  | |- keeps _ _ (match ?x with _ => _ end) => destruct x
  | |- keeps _ _ (let (_, _) := ?x in _) => destruct x
  end.


Section BrokerRules.
Context (F : list (option exn) -> Prop) (F_tail : tail_closed F) (P : obs -> Prop).
Context (P_chan : chan P).
Let K := on_faults F.

Lemma keeps_log l msg : keeps K P (log l msg).
Proof. apply keeps_emit. by apply P_chan. Qed.

Lemma keeps_statsd_incr stat : keeps K P (statsd_incr stat).
Proof. apply keeps_emit. by apply P_chan. Qed.

Lemma keeps_basic_publish ch q dm body : keeps K P (basic_publish ch q dm body).
Proof.
  unfold basic_publish. apply keeps_bind; [|intros _].
  - apply keeps_request; [done|]. by apply P_chan.
  - by apply keeps_modify_env.
Qed.

Lemma keeps_basic_get ch q : keeps K P (basic_get ch q).
Proof.
  unfold basic_get. apply keeps_bind; [|intros _].
  - apply keeps_request; [done|]. by apply P_chan.
  - apply keeps_bind; [apply keeps_get|intros e].
    destruct (ready_messages e q); [apply keeps_ret|].
    apply keeps_bind; [by apply keeps_modify_env | intros _; apply keeps_ret].
Qed.

Lemma keeps_basic_ack ch tag : keeps K P (basic_ack ch tag).
Proof.
  unfold basic_ack. apply keeps_bind; [|intros _].
  - apply keeps_emit. by apply P_chan.
  - by apply keeps_modify_env.
Qed.

Lemma keeps_basic_nack ch tag : keeps K P (basic_nack ch tag).
Proof.
  unfold basic_nack. apply keeps_bind; [|intros _].
  - apply keeps_emit. by apply P_chan.
  - by apply keeps_modify_env.
Qed.

Lemma keeps_messages_append cell m : keeps K P (messages_append cell m).
Proof. by apply keeps_modify_env. Qed.

Lemma keeps_call_consumer c tag body : keeps K P (call_consumer c tag body).
Proof.
  unfold call_consumer. apply keeps_bind; [|intros _].
  - apply keeps_emit. by apply P_chan.
  - destruct (c tag body); [apply keeps_raise | apply keeps_ret].
Qed.

End BrokerRules.

Section ClosureRules.
Context (J : client -> Prop) (F : list (option exn) -> Prop) (F_tail : tail_closed F).
Context (P : obs -> Prop) (P_chan : chan P).
Let I := inv J (on_faults F).

Lemma keeps_the_channel : keeps I P the_channel.
Proof.
  unfold the_channel. apply keeps_bind; [apply keeps_get_self|intros c].
  destruct (channel c); [apply keeps_ret | apply keeps_raise].
Qed.

Lemma keeps_generate_ctag q : keeps I P (_generate_ctag q).
Proof.
  unfold _generate_ctag. apply keeps_bind; [|intros n; apply keeps_ret].
  apply keeps_lift_env, keeps_getrandbits.
Qed.

Lemma keeps_ready : keeps I P ready.
Proof. unfold ready. apply keeps_bind; [apply keeps_get_self|intros c; apply keeps_ret]. Qed.

Lemma keeps_opened_loop fuel cell q json : keeps I P (opened_loop fuel cell q json).
Proof.
  induction fuel as [|fuel IH]; cbn; [apply keeps_ret|].
  apply keeps_bind; [apply keeps_the_channel|intros ch].
  apply keeps_bind; [by apply keeps_lift_env, keeps_basic_get|intros [[tag message]|]];
    [|apply keeps_ret].
  destruct (decide (message = "")); [apply keeps_ret|].
  apply keeps_bind; [apply keeps_the_channel|intros ch'].
  apply keeps_bind; [by apply keeps_lift_env, keeps_basic_ack|intros _].
  apply keeps_bind.
  - destruct json; [|apply keeps_ret].
    apply keeps_bind; [apply keeps_get_env|intros e].
    destruct (ujson_loads e message); [apply keeps_ret | apply keeps_raise].
  - intros m. apply keeps_bind; [|intros _; apply IH].
    by apply keeps_lift_env, keeps_messages_append.
Qed.

(** A callback keeps what the [ensure_queue] of the class keeps. *)
Lemma keeps_call ensure_queue' :
  (forall q cb act, keeps I P act -> keeps I P (ensure_queue' q cb act)) ->
  forall cb, keeps I P (call ensure_queue' cb).
Proof.
  intros He cb. induction cb as [q body|q w|cell q json|q cb IH|id outcome]; cbn [call].
  - apply keeps_bind; [apply keeps_the_channel|intros ch].
    apply keeps_bind; [by apply keeps_lift_env, keeps_basic_publish|intros _].
    by apply keeps_lift_env, keeps_statsd_incr.
  - apply keeps_bind; [apply keeps_the_channel|intros ch].
    apply keeps_bind; [apply keeps_generate_ctag|intros ctag].
    apply keeps_lift_env, keeps_request; [done|]. by apply P_chan.
  - apply keeps_bind; [apply keeps_get_env|intros e]. apply keeps_opened_loop.
  - by apply He.
  - apply keeps_bind; [apply keeps_lift_env, keeps_emit; by apply P_chan|intros _].
    destruct outcome; [apply keeps_raise | apply keeps_ret].
Qed.

End ClosureRules.

(** Closes a [keeps] goal about straight-line code, with the hypotheses on
    the predicate and on the invariant taken from the context. *)
Ltac keeps_obs :=
  match goal with
  | H : chan _ |- _ => by apply H
  | H : conn _ |- _ => by apply H
  | H : decl _ |- _ => by apply H
  | H : meth _ |- _ => by apply H
  end.

Ltac keeps_self :=
  let c := fresh "c" in let Hc := fresh "Hc" in
  intros c Hc;
  match goal with
  | J_ok : survives _ |- _ =>
      destruct (J_ok c Hc) as (? & ? & ? & ? & ?); eauto
  end.

Ltac keeps_prim :=
  match goal with
  | |- keeps _ _ the_channel => apply keeps_the_channel
  | |- keeps _ _ (_generate_ctag _) => apply keeps_generate_ctag
  | |- keeps _ _ ready => apply keeps_ready
  | |- keeps _ _ (log _ _) => apply keeps_log; done
  | |- keeps _ _ (statsd_incr _) => apply keeps_statsd_incr; done
  | |- keeps _ _ (emit _) => apply keeps_emit; keeps_obs
  | |- keeps _ _ (request _) => apply keeps_request; [done|keeps_obs]
  | |- keeps _ _ (modify _) => apply keeps_modify_env; done
  | |- keeps _ _ (set_self _) => apply keeps_set_self; keeps_self
  end.

Ltac keeps_go := repeat first [ keeps_step | keeps_prim | done ].

Section ClientRules.
Context (J : client -> Prop) (J_ok : survives J).
Context (F : list (option exn) -> Prop) (F_tail : tail_closed F).
Context (P : obs -> Prop).
Context (P_chan : chan P) (P_conn : conn P) (P_decl : decl P) (P_meth : meth P).
Context (P_params : params J P).
Let I := inv J (on_faults F).

Lemma keeps_close : keeps I P close.
Proof. unfold close. keeps_go. Qed.

Lemma keeps_transport_closed : keeps I P (modify transport_closed).
Proof. apply (keeps_set_self J (on_faults F) P). keeps_self. Qed.

(** *** SimpleQueueClient *)

(** The parameters of a connection are read off a client in [J]. *)
Lemma keeps_with_parameters {B} (k : ConnectionParameters -> M state B) :
  (forall c st, J c ->
     keeps I P (k {| host := RABBITMQ_HOST st;
                     heartbeat_interval := rabbitmq_heartbeat c;
                     credentials := (RABBITMQ_USERNAME st, RABBITMQ_PASSWORD st) |})) ->
  keeps I P (bind _get_parameters k).
Proof. intros Hk s Hs. exact (Hk (self s) (settings (env s)) (proj1 Hs) s Hs). Qed.

Lemma keeps_Simple_connect : keeps I P SimpleQueueClient._connect.
Proof.
  unfold SimpleQueueClient._connect. apply keeps_with_parameters. intros c st Hc.
  unfold BlockingConnection, blocking_channel. keeps_go.
  apply keeps_request; [done|]. by apply P_params.
Qed.

Lemma keeps_Simple_reconnect : keeps I P SimpleQueueClient._reconnect.
Proof. unfold SimpleQueueClient._reconnect. keeps_go. apply keeps_Simple_connect. Qed.

Lemma keeps_Simple_ensure_queue' q cb act :
  keeps I P act -> keeps I P (SimpleQueueClient.ensure_queue' q cb act).
Proof.
  intros Hact. unfold SimpleQueueClient.ensure_queue'. keeps_go.
  apply keeps_Simple_connect.
Qed.

Lemma keeps_Simple_ensure_queue q cb : keeps I P (SimpleQueueClient.ensure_queue q cb).
Proof.
  apply keeps_Simple_ensure_queue', keeps_call; [done|done|].
  apply keeps_Simple_ensure_queue'.
Qed.

Lemma keeps_Simple_register_consumer q c :
  keeps I P (SimpleQueueClient.register_consumer q c).
Proof.
  unfold SimpleQueueClient.register_consumer. keeps_go. apply keeps_Simple_ensure_queue.
Qed.

(** *** TornadoQueueClient *)

Lemma keeps_Tornado_connect cb : keeps I P (TornadoQueueClient._connect cb).
Proof.
  unfold TornadoQueueClient._connect.
  apply keeps_bind; [keeps_go|intros _].
  apply keeps_bind; [keeps_go|intros _].
  apply keeps_with_parameters. intros c st Hc.
  unfold ExceptionFreeTornadoConnection. keeps_go.
  apply keeps_request; [done|]. by apply P_params.
Qed.

Lemma keeps_Tornado_reconnect : keeps I P TornadoQueueClient._reconnect.
Proof. unfold TornadoQueueClient._reconnect. keeps_go. apply keeps_Tornado_connect. Qed.

Lemma keeps_Tornado_ensure_queue' q cb act :
  keeps I P act -> keeps I P (TornadoQueueClient.ensure_queue' q cb act).
Proof. intros Hact. unfold TornadoQueueClient.ensure_queue'. keeps_go. Qed.

Lemma keeps_Tornado_call cb : keeps I P (call TornadoQueueClient.ensure_queue' cb).
Proof. apply keeps_call; [done|done|]. apply keeps_Tornado_ensure_queue'. Qed.

Lemma keeps_Tornado_ensure_queue q cb : keeps I P (TornadoQueueClient.ensure_queue q cb).
Proof. apply keeps_Tornado_ensure_queue', keeps_Tornado_call. Qed.

Lemma keeps_Tornado_finish q cb : keeps I P (TornadoQueueClient.finish q cb).
Proof. unfold TornadoQueueClient.finish. keeps_go. apply keeps_Tornado_call. Qed.

Lemma keeps_Tornado_register_consumer q c :
  keeps I P (TornadoQueueClient.register_consumer q c).
Proof.
  unfold TornadoQueueClient.register_consumer. keeps_go. apply keeps_Tornado_ensure_queue.
Qed.

(** *** The inherited methods, for a class whose own methods keep [I] *)

Section InheritedRules.
Context (C : QueueClient).
Context (C_connect : keeps I P self_connect) (C_reconnect : keeps I P self_reconnect).
Context (C_ensure_queue : forall q cb, keeps I P (self_ensure_queue q cb)).
Context (C_register_consumer : forall q c, keeps I P (self_register_consumer q c)).

Lemma keeps_reconnect_consumer_callbacks : keeps I P (_reconnect_consumer_callbacks C).
Proof.
  unfold _reconnect_consumer_callbacks, _reconnect_consumer_callback. keeps_go.
Qed.

Lemma keeps_publish q body : keeps I P (publish C q body).
Proof. unfold publish. keeps_go. Qed.

Lemma keeps_json_publish q body : keeps I P (json_publish C q body).
Proof. unfold json_publish. keeps_go; apply keeps_publish. Qed.

Lemma keeps_register_json_consumer q f : keeps I P (register_json_consumer C q f).
Proof. unfold register_json_consumer. keeps_go. Qed.

Lemma keeps_drain_queue q json : keeps I P (drain_queue C q json).
Proof. unfold drain_queue. keeps_go. Qed.

End InheritedRules.

Lemma keeps_Tornado_on_open : keeps I P TornadoQueueClient._on_open.
Proof. unfold TornadoQueueClient._on_open. keeps_go. Qed.

Lemma keeps_Tornado_on_channel_open ch : keeps I P (TornadoQueueClient._on_channel_open ch).
Proof.
  unfold TornadoQueueClient._on_channel_open. keeps_go.
  - apply keeps_Tornado_call.
  - apply keeps_reconnect_consumer_callbacks. apply keeps_Tornado_ensure_queue.
Qed.

Lemma keeps_Tornado_on_timeout : keeps I P TornadoQueueClient.on_timeout.
Proof.
  unfold TornadoQueueClient.on_timeout, TornadoQueueClient.call_later_on_timeout.
  keeps_go. apply keeps_Tornado_reconnect.
Qed.

Lemma keeps_Tornado_on_connection_closed : keeps I P TornadoQueueClient._on_connection_closed.
Proof.
  unfold TornadoQueueClient._on_connection_closed,
    TornadoQueueClient.call_later_on_timeout. keeps_go.
Qed.

Lemma keeps_Tornado_run_continuation k : keeps I P (TornadoQueueClient.run_continuation k).
Proof.
  destruct k; cbn [TornadoQueueClient.run_continuation].
  - apply keeps_bind; [|intros _; apply keeps_Tornado_on_open].
    apply keeps_set_self. intros c Hc. by apply J_ok.
  - keeps_go. apply keeps_Tornado_on_channel_open.
  - apply keeps_Tornado_finish.
  - apply keeps_Tornado_on_timeout.
Qed.

Lemma keeps_Tornado_ioloop_step : keeps I P TornadoQueueClient.ioloop_step.
Proof.
  unfold TornadoQueueClient.ioloop_step. keeps_go. apply keeps_Tornado_run_continuation.
Qed.

Lemma keeps_Tornado_ioloop_run n : keeps I P (TornadoQueueClient.ioloop_run n).
Proof.
  induction n as [|n IH]; cbn [TornadoQueueClient.ioloop_run]; keeps_go.
  apply keeps_Tornado_ioloop_step.
Qed.

Lemma keeps_Tornado_connection_closed : keeps I P TornadoQueueClient.connection_closed.
Proof.
  unfold TornadoQueueClient.connection_closed.
  apply keeps_bind; [apply keeps_transport_closed|intros _].
  apply keeps_Tornado_on_connection_closed.
Qed.

(** *** Whatever the class of [self] *)

Lemma keeps_self_connect cls : keeps I P (self_connect (QueueClient := methods_of cls)).
Proof. destruct cls; [apply keeps_Simple_connect | apply keeps_Tornado_connect]. Qed.

Lemma keeps_self_reconnect cls : keeps I P (self_reconnect (QueueClient := methods_of cls)).
Proof. destruct cls; [apply keeps_Simple_reconnect | apply keeps_Tornado_reconnect]. Qed.

Lemma keeps_self_ensure_queue cls q cb :
  keeps I P (self_ensure_queue (QueueClient := methods_of cls) q cb).
Proof. destruct cls; [apply keeps_Simple_ensure_queue | apply keeps_Tornado_ensure_queue]. Qed.

Lemma keeps_self_register_consumer cls q c :
  keeps I P (self_register_consumer (QueueClient := methods_of cls) q c).
Proof.
  destruct cls; [apply keeps_Simple_register_consumer | apply keeps_Tornado_register_consumer].
Qed.

Lemma keeps_publish_of cls q body : keeps I P (publish (methods_of cls) q body).
Proof. apply keeps_publish, keeps_self_ensure_queue. Qed.

Lemma keeps_json_publish_of cls q body : keeps I P (json_publish (methods_of cls) q body).
Proof.
  apply keeps_json_publish; [apply keeps_self_reconnect | apply keeps_self_ensure_queue].
Qed.

End ClientRules.

(** ** Running straight-line code *)

(** Unfolds the monad and the primitive actions, so that a method applied to
    a state computes as far as the state is known. *)
Ltac exec :=
  cbv beta iota zeta delta
    [bind ret raise try_except get modify set_self get_self get_env lift_env
     on_self on_env emit request fresh getrandbits log statsd_incr of_result
     the_channel _get_parameters _generate_ctag ready ready_messages
     basic_publish basic_get basic_ack basic_nack messages_append call_consumer
     BlockingConnection blocking_channel ExceptionFreeTornadoConnection
     in_world in_proc set_event];
  cbn -[opened_loop call].

Ltac exec_with tac := repeat (progress (exec; tac)).

(** Rewrites with what is known of the state, and runs on. *)
Ltac known :=
  repeat match goal with
  | H : channel ?c = _ |- context [channel ?c] => rewrite H
  | H : connection ?c = _ |- context [connection ?c] => rewrite H
  | H : faults ?e = _ |- context [faults ?e] => rewrite H
  | H : broker ?e !! ?q = _ |- context [broker ?e !! ?q] => rewrite H
  | H : ioloop ?e = _ |- context [ioloop ?e] => rewrite H
  end.

Ltac sym := repeat (progress (exec; known)).

(** Splits on what the script of faults says for the next requests. *)
Ltac split_faults :=
  repeat match goal with
  | H : faults ?e = _ |- context [faults ?e] => rewrite H; cbn
  | |- context [match faults ?e with _ => _ end] =>
      destruct (faults e) as [|[?|] ?] eqn:?; cbn
  | |- context [match ?l with [] => _ | _ :: _ => _ end] =>
      is_var l; destruct l as [|[?|] ?]; cbn
  end.

(** ** Any operation on a built client *)

Lemma keeps_perform J F P cls o :
  survives J -> tail_closed F -> chan P -> conn P -> decl P -> meth P -> params J P ->
  keeps (inv J (on_faults F)) P (perform cls o).
Proof.
  intros J_ok F_tail P_chan P_conn P_decl P_meth P_params.
  destruct o; cbn [perform].
  - by apply keeps_self_reconnect.
  - by apply keeps_self_ensure_queue.
  - by apply keeps_publish_of.
  - by apply keeps_json_publish_of.
  - by apply keeps_self_register_consumer.
  - apply keeps_register_json_consumer; try done.
    intros q c. by apply keeps_self_register_consumer.
  - apply keeps_bind; [|intros _; apply keeps_ret].
    apply keeps_drain_queue; try done. intros q cb. by apply keeps_self_ensure_queue.
  - by apply keeps_close.
  - by apply keeps_transport_closed.
  - destruct cls; [apply keeps_ret | by apply keeps_Tornado_ioloop_step].
  - destruct cls; [by apply keeps_transport_closed|by apply keeps_Tornado_connection_closed].
Qed.

Lemma keeps_perform_all J F P cls ops s :
  survives J -> tail_closed F -> chan P -> conn P -> decl P -> meth P -> params J P ->
  inv J (on_faults F) s ->
  inv J (on_faults F) (perform_all cls ops s) /\
  exists l, trace_of (perform_all cls ops s) = trace_of s ++ l /\ Forall P l.
Proof.
  intros J_ok F_tail P_chan P_conn P_decl P_meth P_params.
  revert s. induction ops as [|o ops IH]; intros s Hs; cbn.
  - split; [done|]. exists []. by rewrite app_nil_r.
  - destruct (keeps_perform J F P cls o J_ok F_tail P_chan P_conn P_decl P_meth P_params
                s Hs) as (H1 & l1 & E1 & F1).
    destruct (IH _ H1) as (H2 & l2 & E2 & F2).
    split; [done|]. exists (l1 ++ l2). unfold perform_all in *.
    rewrite E2, E1, app_assoc. split; [done|]. by apply Forall_app.
Qed.

(** ** The wrapped consumers *)

(** C6. The blocking client's wrapped consumer, for a delivery with tag [T]:
    if the handler raises [x], the wrapper issues a negative acknowledgement
    with tag [T] (and no positive one) and raises [x] again; if the handler
    returns, the wrapper issues a positive acknowledgement with tag [T]. *)
Theorem blocking_wrapper_acknowledges consumer ch T body e :
  let run := SimpleQueueClient.wrapped_consumer consumer ch T body e in
  (forall x, consumer T body = Some x ->
     run.1 = Raise x /\
     emitted e run.2 = [Enter_consumer T body; BasicNack ch T]) /\
  (consumer T body = None ->
     run.1 = Return tt /\
     emitted e run.2 = [Enter_consumer T body; BasicAck ch T]).
Proof.
  cbn zeta. unfold SimpleQueueClient.wrapped_consumer, try_except, call_consumer, bind.
  split.
  - intros x Hx. cbn. rewrite Hx. cbn. split; [done|].
    apply emitted_app. cbn. by rewrite <- app_assoc.
  - intros Hx. cbn. rewrite Hx. cbn. split; [done|].
    apply emitted_app. cbn. by rewrite <- app_assoc.
Qed.

Lemma blocking_wrapper_acknowledges_witness :
  let failed := SimpleQueueClient.wrapped_consumer failing_consumer 1 42 "body" quiet_env in
  let passed := SimpleQueueClient.wrapped_consumer passing_consumer 1 42 "body" quiet_env in
  (failed.1 = Raise (UserError "handler failed") /\
   emitted quiet_env failed.2 = [Enter_consumer 42 "body"; BasicNack 1 42]) /\
  (passed.1 = Return tt /\
   emitted quiet_env passed.2 = [Enter_consumer 42 "body"; BasicAck 1 42]).
Proof.
  split.
  - apply (proj1 (blocking_wrapper_acknowledges failing_consumer 1 42 "body" quiet_env)).
    reflexivity.
  - apply (proj2 (blocking_wrapper_acknowledges passing_consumer 1 42 "body" quiet_env)).
    reflexivity.
Defined.

(** C7, as amended. The event-driven client's wrapped consumer catches
    nothing and never issues a negative acknowledgement: if the handler
    returns, the wrapper acknowledges the delivery by its tag; if the handler
    raises, the exception leaves the wrapper and no acknowledgement of either
    kind is issued. *)
Theorem tornado_wrapper_acks_on_return consumer ch T body e :
  let run := TornadoQueueClient.wrapped_consumer consumer ch T body e in
  (consumer T body = None ->
     run.1 = Return tt /\
     emitted e run.2 = [Enter_consumer T body; BasicAck ch T]) /\
  (forall x, consumer T body = Some x ->
     run.1 = Raise x /\
     emitted e run.2 = [Enter_consumer T body]).
Proof.
  cbn zeta. unfold TornadoQueueClient.wrapped_consumer, call_consumer, bind.
  split.
  - intros Hx. cbn. rewrite Hx. cbn. split; [done|].
    apply emitted_app. cbn. by rewrite <- app_assoc.
  - intros x Hx. cbn. rewrite Hx. cbn. split; [done|].
    by apply emitted_app.
Qed.

Lemma tornado_wrapper_acks_on_return_witness :
  let passed := TornadoQueueClient.wrapped_consumer passing_consumer 1 42 "body" quiet_env in
  let failed := TornadoQueueClient.wrapped_consumer failing_consumer 1 42 "body" quiet_env in
  (passed.1 = Return tt /\
   emitted quiet_env passed.2 = [Enter_consumer 42 "body"; BasicAck 1 42]) /\
  (failed.1 = Raise (UserError "handler failed") /\
   emitted quiet_env failed.2 = [Enter_consumer 42 "body"]).
Proof.
  split.
  - apply (proj1 (tornado_wrapper_acks_on_return passing_consumer 1 42 "body" quiet_env)).
    reflexivity.
  - apply (proj2 (tornado_wrapper_acks_on_return failing_consumer 1 42 "body" quiet_env)).
    reflexivity.
Defined.

(** C7 as stated fails: when the handler raises, no acknowledgement is issued. *)
Lemma tornado_wrapper_does_not_ack_a_failed_handler :
  ~ tornado_wrapper_always_acks failing_consumer 1 42 "body" quiet_env.
Proof.
  intros [Hack _]. vm_compute in Hack.
  apply list_elem_of_In in Hack. destruct Hack as [Heq|[]]. discriminate Heq.
Qed.

(** ** The heartbeat of the event-driven client *)

Lemma connects_heartbeat h l :
  Forall (heartbeat_is h) l -> Forall (fun p => heartbeat_interval p = h) (connects l).
Proof.
  induction 1 as [|o l Ho _ IH]; [constructor|].
  destruct o; cbn; try done. by constructor.
Qed.

Lemma survives_heartbeat h : survives (fun c => rabbitmq_heartbeat c = h).
Proof. intros c Hc. by repeat split. Qed.

Lemma tail_closed_any : tail_closed (fun _ => True).
Proof. by intros x fs _. Qed.

(** The constructor: one connection request, made while the field is 0. *)
Lemma new_TornadoQueueClient_trace e :
  trace (new_TornadoQueueClient e).2 =
  trace e ++ [Log INFO "Beginning TornadoQueueClient connection";
              Connect false {| host := RABBITMQ_HOST (settings e);
                               heartbeat_interval := Some 0;
                               credentials := (RABBITMQ_USERNAME (settings e),
                                               RABBITMQ_PASSWORD (settings e)) |}].
Proof.
  unfold new_TornadoQueueClient, construct, TornadoQueueClient.__init__, __init__.
  exec_with ltac:(unfold TornadoQueueClient._connect).
  destruct (faults e) as [|[x|] fs]; cbn; by rewrite <- app_assoc.
Qed.

Lemma new_TornadoQueueClient_heartbeat e c :
  (new_TornadoQueueClient e).1 = Return c ->
  rabbitmq_heartbeat c = None /\ class_of c = Tornado /\ _on_open_cbs c = [] /\
  queues c = ∅ /\ channel c = None /\ consumers c = [].
Proof.
  unfold new_TornadoQueueClient, construct, TornadoQueueClient.__init__, __init__.
  exec_with ltac:(unfold TornadoQueueClient._connect).
  destruct (faults e) as [|[x|] fs]; cbn; intros [= <-]; done.
Qed.

Lemma Tornado_reconnect_trace s :
  trace_of (TornadoQueueClient._reconnect s).2 =
  trace_of s ++ [Enter_reconnect;
                 Log INFO "Beginning TornadoQueueClient connection";
                 Connect false {| host := RABBITMQ_HOST (settings (env s));
                                  heartbeat_interval := rabbitmq_heartbeat (self s);
                                  credentials := (RABBITMQ_USERNAME (settings (env s)),
                                                  RABBITMQ_PASSWORD (settings (env s))) |}].
Proof.
  unfold TornadoQueueClient._reconnect, TornadoQueueClient._connect.
  exec. destruct (faults (env s)) as [|[x|] fs]; cbn; by rewrite <- !app_assoc.
Qed.

(** C10. The connection that the constructor of the event-driven client opens
    is requested with [heartbeat_interval = 0]; the constructor then sets
    [rabbitmq_heartbeat] to [None], and every connection requested by anything
    done to the client afterwards carries [None]; a reconnect is such a
    request. *)
Theorem tornado_first_connection_has_heartbeat_0 e :
  let built := new_TornadoQueueClient e in
  connects (emitted e built.2) =
    [{| host := RABBITMQ_HOST (settings e);
        heartbeat_interval := Some 0;
        credentials := (RABBITMQ_USERNAME (settings e), RABBITMQ_PASSWORD (settings e)) |}] /\
  forall c, built.1 = Return c ->
    rabbitmq_heartbeat c = None /\
    forall ops,
      let s := perform_all Tornado ops {| self := c; env := built.2 |} in
      Forall (fun p => heartbeat_interval p = None)
             (connects (emitted {| self := c; env := built.2 |} s)) /\
      exists p, connects (emitted s (TornadoQueueClient._reconnect s).2) = [p] /\
                heartbeat_interval p = None.
Proof.
  cbn zeta. split.
  - by erewrite emitted_app by apply new_TornadoQueueClient_trace.
  - intros c Hc. destruct (new_TornadoQueueClient_heartbeat e c Hc) as (Hh & _).
    split; [done|]. intros ops.
    set (s0 := {| self := c; env := (new_TornadoQueueClient e).2 |}).
    assert (Hchan : chan (heartbeat_is None)) by (by intros [] ?).
    assert (Hconn : conn (heartbeat_is None)) by (by intros [] ?).
    assert (Hdecl : decl (heartbeat_is None)) by done.
    assert (Hmeth : meth (heartbeat_is None)) by (by intros [] ?).
    assert (Hparams : params (fun c => rabbitmq_heartbeat c = None) (heartbeat_is None))
      by (by intros c' b h cr Hc').
    assert (Hs0 : inv (fun c => rabbitmq_heartbeat c = None) (on_faults (fun _ => True)) s0)
      by done.
    destruct (keeps_perform_all _ _ _ Tornado ops s0 (survives_heartbeat None)
                tail_closed_any Hchan Hconn Hdecl Hmeth Hparams Hs0)
      as ((Hj & _) & l & El & Hl).
    split.
    + erewrite emitted_app by exact El. by apply connects_heartbeat.
    + eexists. erewrite emitted_app by apply Tornado_reconnect_trace. cbn.
      split; [reflexivity|]. exact Hj.
Qed.

Lemma tornado_first_connection_has_heartbeat_0_witness :
  let built := new_TornadoQueueClient quiet_env in
  exists c, built.1 = Return c /\
    rabbitmq_heartbeat c = None /\
    Forall (fun p => heartbeat_interval p = None)
      (connects (emitted {| self := c; env := built.2 |}
                   (perform_all Tornado [op_connection_closed; op_ioloop_step]
                      {| self := c; env := built.2 |}))).
Proof.
  cbn zeta. eexists. split; [reflexivity|].
  destruct (tornado_first_connection_has_heartbeat_0 quiet_env) as [_ H].
  destruct (H _ eq_refl) as [Hh Hops]. split; [exact Hh|].
  exact (proj1 (Hops [op_connection_closed; op_ioloop_step])).
Defined.

(** ** Publishing *)

Lemma no_method_entry_chan : chan no_method_entry.
Proof. by intros [] ?. Qed.
Lemma no_method_entry_conn : conn no_method_entry.
Proof. by intros [] ?. Qed.
Lemma no_method_entry_decl : decl no_method_entry.
Proof. done. Qed.
Lemma no_method_entry_params : params any_client no_method_entry.
Proof. done. Qed.
Lemma survives_any : survives any_client.
Proof. done. Qed.

Lemma no_method_entry_count l :
  Forall no_method_entry l ->
  count is_Enter_publish l = O /\ count is_Enter_reconnect l = O.
Proof.
  intros Hl. split; apply count_none; eapply Forall_impl; eauto; by intros [] ?.
Qed.

Lemma anything s : inv any_client (on_faults (fun _ => True)) s.
Proof. done. Qed.

(** [publish] records its entry; what follows has no entry of a method. *)
Lemma publish_trace cls q b s :
  exists l, trace_of (publish (methods_of cls) q b s).2
            = trace_of s ++ Enter_publish q b :: l /\
            Forall no_method_entry l.
Proof.
  unfold publish, bind at 1. cbn.
  destruct (keeps_self_ensure_queue any_client survives_any (fun _ => True) tail_closed_any
              no_method_entry no_method_entry_chan no_method_entry_conn
              no_method_entry_decl no_method_entry_params cls q (do_publish q b)
              (on_env (with_trace (fun t => t ++ [Enter_publish q b])) s) (anything _))
    as (_ & l & El & Hl).
  exists l. split; [|done]. etrans; [exact El|]. cbn. by rewrite <- app_assoc.
Qed.

(** So does [_reconnect], in both classes. *)
Lemma reconnect_trace cls s :
  exists l, trace_of (self_reconnect (QueueClient := methods_of cls) s).2
            = trace_of s ++ Enter_reconnect :: l /\
            Forall no_method_entry l.
Proof.
  assert (Hset : forall f, keeps (inv any_client (on_faults (fun _ => True)))
                   no_method_entry (set_self f)) by (intros f; by apply keeps_set_self).
  destruct cls; cbn [methods_of self_reconnect SimpleQueueClient.methods
                     TornadoQueueClient.methods].
  - unfold SimpleQueueClient._reconnect, bind at 1. cbn.
    assert (Hk : keeps (inv any_client (on_faults (fun _ => True))) no_method_entry
              (set_self (with_connection None) ;; set_self (with_channel None) ;;
               set_self (with_queues ∅) ;; SimpleQueueClient._connect)%py).
    { repeat (apply keeps_bind; [apply Hset|intros _]).
      apply keeps_Simple_connect; auto using survives_any, tail_closed_any,
        no_method_entry_chan, no_method_entry_conn, no_method_entry_params. }
    destruct (Hk (on_env (with_trace (fun t => t ++ [Enter_reconnect])) s) (anything _))
      as (_ & l & El & Hl).
    exists l. split; [|done]. etrans; [exact El|]. cbn. by rewrite <- app_assoc.
  - unfold TornadoQueueClient._reconnect, bind at 1. cbn.
    assert (Hk : keeps (inv any_client (on_faults (fun _ => True))) no_method_entry
              (set_self (with_connection None) ;; set_self (with_channel None) ;;
               set_self (with_queues ∅) ;; TornadoQueueClient._connect None)%py).
    { repeat (apply keeps_bind; [apply Hset|intros _]).
      apply keeps_Tornado_connect; auto using survives_any, tail_closed_any,
        no_method_entry_chan, no_method_entry_conn, no_method_entry_params. }
    destruct (Hk (on_env (with_trace (fun t => t ++ [Enter_reconnect])) s) (anything _))
      as (_ & l & El & Hl).
    exists l. split; [|done]. etrans; [exact El|]. cbn. by rewrite <- app_assoc.
Qed.

(** C2, as amended. [json_publish] never enters [_reconnect] more than once
    nor [publish] more than twice. If the first [publish] returns, or raises
    anything but a connection error, that is the outcome and nothing else is
    tried. If it raises a connection error there is exactly one [_reconnect];
    if the reconnect returns, there is exactly one more [publish], whose
    outcome is the outcome of [json_publish]; if the reconnect itself raises,
    its exception is the outcome and [publish] is not tried again. *)
Theorem json_publish_retries_at_most_once cls q body s :
  let C := methods_of cls in
  let run := json_publish C q body s in
  let new := emitted s run.2 in
  let first := publish C q (ujson_dumps (env s) body) s in
  (count is_Enter_reconnect new <= 1)%nat /\
  (count is_Enter_publish new <= 2)%nat /\
  match first.1 with
  | Return _ =>
      run.1 = Return tt /\
      count is_Enter_reconnect new = 0%nat /\ count is_Enter_publish new = 1%nat
  | Raise x =>
      if is_AMQPConnectionError x
      then
        let warned :=
          (lift_env (log WARNING
             "Failed to send to rabbitmq, trying to reconnect and send again")
             first.2).2 in
        let again := self_reconnect warned in
        count is_Enter_reconnect new = 1%nat /\
        match again.1 with
        | Return _ =>
            count is_Enter_publish new = 2%nat /\
            run.1 = (publish C q (ujson_dumps (env again.2) body) again.2).1
        | Raise y =>
            count is_Enter_publish new = 1%nat /\ run.1 = Raise y
        end
      else
        run.1 = Raise x /\
        count is_Enter_reconnect new = 0%nat /\ count is_Enter_publish new = 1%nat
  end.
Proof.
  cbn zeta. unfold json_publish.
  cbv beta iota zeta delta [bind try_except get_env ret raise].
  destruct (publish_trace cls q (ujson_dumps (env s) body) s) as (l1 & E1 & H1).
  destruct (no_method_entry_count l1 H1) as [P1 R1].
  destruct (publish (methods_of cls) q (ujson_dumps (env s) body) s) as [[[]|x] s1];
    cbn [fst snd] in *.
  - erewrite emitted_app by exact E1. cbn. rewrite P1, R1. repeat split; lia.
  - destruct (is_AMQPConnectionError x).
    + set (warned := (lift_env (log WARNING _) s1)).
      assert (Ew : trace_of warned.2 = trace_of s1 ++
                [Log WARNING "Failed to send to rabbitmq, trying to reconnect and send again"])
        by done.
      assert (warned.1 = Return tt) as Hw by done.
      destruct warned as [w s1']; cbn [fst snd] in *. subst w. cbn match.
      destruct (reconnect_trace cls s1') as (l2 & E2 & H2).
      destruct (no_method_entry_count l2 H2) as [P2 R2].
      destruct (self_reconnect s1') as [[[]|y] s2]; cbn [fst snd] in *.
      * destruct (publish_trace cls q (ujson_dumps (env s2) body) s2) as (l3 & E3 & H3).
        destruct (no_method_entry_count l3 H3) as [P3 R3].
        destruct (publish (methods_of cls) q (ujson_dumps (env s2) body) s2) as [r3 s3];
          cbn [fst snd] in *.
        erewrite emitted_app; [|rewrite E3, E2, Ew, E1; by rewrite <- !app_assoc].
        cbn. rewrite !count_app. cbn. rewrite !count_app. cbn.
        rewrite P1, R1, P2, R2, P3, R3. repeat split; lia.
      * erewrite emitted_app; [|rewrite E2, Ew, E1; by rewrite <- !app_assoc].
        cbn. rewrite !count_app. cbn. rewrite P1, R1, P2, R2. repeat split; lia.
    + erewrite emitted_app by exact E1. cbn. rewrite P1, R1. repeat split; lia.
Qed.

(** C2 as stated fails: the first attempt raises a connection error, the
    reconnect raises too, and [publish] has been entered once, not twice. *)
Lemma json_publish_gives_up_when_the_reconnect_fails :
  ~ json_publish_retries_exactly_once Simple "q" (PStr "hello")
      (built_simple [None; Some AMQPConnectionError; Some AMQPConnectionError] ∅).
Proof.
  intros H.
  assert (Hfirst : (publish (methods_of Simple) "q"
                      (ujson_dumps (env (built_simple
                         [None; Some AMQPConnectionError; Some AMQPConnectionError] ∅))
                         (PStr "hello"))
                      (built_simple
                         [None; Some AMQPConnectionError; Some AMQPConnectionError] ∅)).1
                   = Raise AMQPConnectionError) by (vm_compute; reflexivity).
  destruct (H Hfirst) as [_ Hcount]. vm_compute in Hcount. discriminate Hcount.
Qed.

(** ** Constructors and the module-level functions *)

Section ProcessRules.
Context (P : obs -> Prop) (P_chan : chan P) (P_conn : conn P) (P_decl : decl P).
Context (P_meth : meth P) (P_params : params any_client P).
Let K := on_faults (fun _ => True).
Let Any := inv any_client K.

Lemma keeps_init C :
  keeps Any P (self_connect (QueueClient := C)) -> keeps Any P (__init__ C).
Proof.
  intros HC. unfold __init__.
  repeat (apply keeps_bind; [by apply keeps_set_self|intros _]). exact HC.
Qed.

Lemma keeps_Tornado_init : keeps Any P TornadoQueueClient.__init__.
Proof.
  unfold TornadoQueueClient.__init__.
  apply keeps_bind; [|intros _].
  - apply keeps_init. apply keeps_Tornado_connect; auto using survives_any, tail_closed_any.
  - apply keeps_bind; [by apply keeps_set_self|intros _]. by apply keeps_set_self.
Qed.

Lemma keeps_construct cls init :
  keeps Any P init -> keeps K P (construct cls init).
Proof.
  intros Hinit e He. unfold construct.
  destruct (Hinit {| self := blank cls; env := e |} (anything _)) as (_ & l & El & Hl).
  destruct (init _) as [[[]|x] s]; cbn in *; (split; [done|]); by exists l.
Qed.

Lemma keeps_in_world {A} (m : M environment A) :
  keeps K P m -> keeps (fun _ : process => True) P (in_world m).
Proof.
  intros Hm p _. unfold in_world.
  destruct (Hm (world p) Logic.I) as (_ & l & El & Hl).
  destruct (m (world p)) as [r e]; cbn in *. split; [done|]. by exists l.
Qed.

Lemma keeps_get_queue_client : keeps (fun _ : process => True) P get_queue_client.
Proof.
  unfold get_queue_client. apply keeps_bind; [apply keeps_get|intros p].
  destruct (queue_client p); [apply keeps_ret|].
  apply keeps_bind; [|intros _; apply keeps_bind; [apply keeps_get|intros; apply keeps_ret]].
  destruct (_ && _).
  - apply keeps_bind; [|by intros c p' _; split; [|exists []; rewrite app_nil_r]].
    apply keeps_in_world, keeps_construct, keeps_Tornado_init.
  - destruct (USING_RABBITMQ _); [|apply keeps_ret].
    apply keeps_bind; [|by intros c p' _; split; [|exists []; rewrite app_nil_r]].
    apply keeps_in_world, keeps_construct, keeps_init.
    apply keeps_Simple_connect; auto using survives_any, tail_closed_any.
Qed.

Lemma keeps_on_queue_client {A} (m : QueueClient -> M state A) :
  (forall cls, keeps Any P (m (methods_of cls))) ->
  keeps (fun _ : process => True) P (on_queue_client m).
Proof.
  intros Hm p _. unfold on_queue_client.
  destruct (queue_client p) as [c|]; [|by split; [|exists []; rewrite app_nil_r]].
  destruct (Hm (class_of c) {| self := c; env := world p |} (anything _))
    as (_ & l & El & Hl).
  destruct (m _ _) as [r s]; cbn in *. split; [done|]. by exists l.
Qed.

Lemma keeps_queue_client_json_publish q ev :
  keeps (fun _ : process => True) P
    (get_queue_client ;; on_queue_client (fun C => json_publish C q ev))%py.
Proof.
  apply keeps_bind; [apply keeps_get_queue_client|intros _].
  apply keeps_on_queue_client. intros cls.
  apply keeps_json_publish_of; auto using survives_any, tail_closed_any.
Qed.

End ProcessRules.

Lemma no_decision_chan : chan no_decision.
Proof. by intros [] ?. Qed.
Lemma no_decision_conn : conn no_decision.
Proof. by intros [] ?. Qed.
Lemma no_decision_decl : decl no_decision.
Proof. done. Qed.
Lemma no_decision_meth : meth no_decision.
Proof. by intros [] ?. Qed.
Lemma no_decision_params : params any_client no_decision.
Proof. done. Qed.

Lemma no_decision_filter l : Forall no_decision l -> List.filter decision l = [].
Proof. induction 1 as [|o l Ho _ IH]; cbn; [done|]. by rewrite Ho. Qed.

(** [queue_json_publish] records its entry once; nothing it calls is another
    entry of it, nor an entry of a failure processor. *)
Lemma queue_json_publish_trace q ev f p :
  exists l, trace_of (queue_json_publish q ev f p).2
            = trace_of p ++ Enter_queue_json_publish q ev :: l /\
            Forall no_decision l.
Proof.
  unfold queue_json_publish, bind at 1. cbn.
  set (p1 := {| queue_client := queue_client p;
                world := with_trace (fun t => t ++ [Enter_queue_json_publish q ev]) (world p) |}).
  assert (Hk : keeps (fun _ : process => True) no_decision
            (p <- get ;;
             if USING_RABBITMQ (settings (world p))
             then get_queue_client ;;
                  on_queue_client (fun C => json_publish C q ev)
             else match f with
                  | Some f => call_processor f ev
                  | None => in_world (emit (WorkerConsume q ev))
                  end)%py).
  { apply keeps_bind; [apply keeps_get|intros p'].
    destruct (USING_RABBITMQ _).
    - apply keeps_queue_client_json_publish;
        auto using no_decision_chan, no_decision_conn, no_decision_decl,
          no_decision_meth, no_decision_params.
    - destruct f as [f|].
      + unfold call_processor. apply keeps_bind; [|intros _].
        * apply keeps_in_world. by apply (keeps_emit (fun _ => True)).
        * destruct (f ev); [apply keeps_raise|apply keeps_ret].
      + apply keeps_in_world. by apply (keeps_emit (fun _ => True)). }
  destruct (Hk p1 Logic.I) as (_ & l & El & Hl).
  exists l. split; [|done]. etrans; [exact El|]. cbn. by rewrite <- app_assoc.
Qed.

(** Without a broker the event goes to the processor handed over. *)
Lemma queue_json_publish_without_broker q ev f p :
  USING_RABBITMQ (settings (world p)) = false ->
  queue_json_publish q ev (Some f) p =
  (match f ev with None => Return tt | Some x => Raise x end,
   {| queue_client := queue_client p;
      world := with_trace (fun t => (t ++ [Enter_queue_json_publish q ev])
                                      ++ [Enter_processor ev]) (world p) |}).
Proof.
  intros Hu. unfold queue_json_publish, call_processor. exec. rewrite Hu. exec.
  by destruct (f ev).
Qed.

(** One call of [retry_event], on an event whose counter is an integer or is
    absent: the counter becomes [n + 1]; past the bound the event goes to the
    failure processor, otherwise to [queue_json_publish], whose outcome is the
    outcome of the call. *)
Lemma retry_event_step q fp r n :
  found_tries (event r) n ->
  let d := <["failed_tries" := VInt (n + 1)]> (event r) in
  retry_event q fp r =
  if MAX_REQUEST_RETRIES <? n + 1
  then (match (fp d).2 with None => Return tt | Some x => Raise x end,
        {| event := (fp d).1;
           proc := {| queue_client := queue_client (proc r);
                      world := with_trace (fun t => t ++ [Enter_failure_processor d])
                                 (world (proc r)) |} |})
  else let pub := queue_json_publish q (PDict d) (Some lambda_x_None) (proc r) in
       (pub.1, {| event := d; proc := pub.2 |}).
Proof.
  intros Hn d. unfold retry_event, call_failure_processor.
  generalize (queue_json_publish q) as pubf. intros pubf. exec.
  destruct (decide _) as [Hdec|Hdec]; exec.
  - assert (event r !! "failed_tries" = None) as Hnone by (by apply not_elem_of_dom).
    destruct Hn as [[_ ->]|Hsome]; [|congruence].
    rewrite lookup_total_insert_eq. exec. rewrite lookup_total_insert_eq. exec.
    rewrite !insert_insert_eq. fold d.
    destruct (MAX_REQUEST_RETRIES <? 0 + 1); exec.
    + by destruct (fp d) as [d' [x|]].
    + by destruct (pubf _ _ _).
  - destruct Hn as [[Hnone _]|Hsome];
      [by apply not_elem_of_dom in Hnone|].
    rewrite (lookup_total_correct _ _ _ Hsome). exec.
    rewrite lookup_total_insert_eq. exec. fold d.
    destruct (MAX_REQUEST_RETRIES <? n + 1); exec.
    + by destruct (fp d) as [d' [x|]].
    + by destruct (pubf _ _ _).
Qed.

Lemma no_decision_count l :
  Forall no_decision l -> count is_Enter_queue_json_publish l = O.
Proof.
  intros Hl. apply count_none. eapply Forall_impl; [exact Hl|].
  intros o Ho. unfold no_decision, decision in Ho. by apply orb_false_iff in Ho as [? _].
Qed.

(** What one call decides, and what it leaves in the dictionary. *)
Lemma retry_event_decides q fp r n :
  found_tries (event r) n ->
  let d := <["failed_tries" := VInt (n + 1)]> (event r) in
  let after := (retry_event q fp r).2 in
  List.filter decision (emitted r after) =
    [if MAX_REQUEST_RETRIES <? n + 1
     then Enter_failure_processor d
     else Enter_queue_json_publish q (PDict d)] /\
  event after = if MAX_REQUEST_RETRIES <? n + 1 then (fp d).1 else d.
Proof.
  intros Hn d. cbn zeta. rewrite (retry_event_step q fp r n Hn). fold d.
  destruct (MAX_REQUEST_RETRIES <? n + 1).
  - split; [|done]. by erewrite emitted_app by reflexivity.
  - destruct (queue_json_publish_trace q (PDict d) (Some lambda_x_None) (proc r))
      as (l & El & Hl).
    cbn zeta. split; [|done].
    erewrite emitted_app by exact El. cbn. by rewrite no_decision_filter.
Qed.

(** C8, as amended. When [retry_event] decides to republish, it calls
    [queue_json_publish] once, with the processor [lambda x: None], and the
    outcome of that call is the outcome of [retry_event]: an exception of the
    publish path is not caught. Without a broker the event goes to the
    processor, which drops it, and [retry_event] returns. *)
Theorem retry_event_republish_outcome q fp r n :
  found_tries (event r) n -> n + 1 <= MAX_REQUEST_RETRIES ->
  let d := <["failed_tries" := VInt (n + 1)]> (event r) in
  let pub := queue_json_publish q (PDict d) (Some lambda_x_None) (proc r) in
  let run := retry_event q fp r in
  run.1 = pub.1 /\ proc run.2 = pub.2 /\ event run.2 = d /\
  count is_Enter_queue_json_publish (emitted r run.2) = 1%nat /\
  (USING_RABBITMQ (settings (world (proc r))) = false -> run.1 = Return tt).
Proof.
  intros Hn Hle. cbn zeta. rewrite (retry_event_step q fp r n Hn).
  assert ((MAX_REQUEST_RETRIES <? n + 1) = false) as -> by lia.
  set (d := <["failed_tries" := VInt (n + 1)]> (event r)).
  destruct (queue_json_publish_trace q (PDict d) (Some lambda_x_None) (proc r))
    as (l & El & Hl).
  cbn zeta. cbn [fst snd event proc]. repeat split.
  - erewrite emitted_app by exact El. cbn. by rewrite (no_decision_count l Hl).
  - intros Hu. by rewrite (queue_json_publish_without_broker _ _ _ _ Hu).
Qed.

Lemma retry_event_republish_outcome_witness :
  let r := retrying_without_broker ∅ in
  let run := retry_event "q" failure_processor_noop r in
  run.1 = Return tt /\
  count is_Enter_queue_json_publish (emitted r run.2) = 1%nat.
Proof.
  assert (Hfound : found_tries (event (retrying_without_broker ∅)) 0)
    by (left; split; reflexivity).
  assert (Hle : 0 + 1 <= MAX_REQUEST_RETRIES) by (unfold MAX_REQUEST_RETRIES; lia).
  destruct (retry_event_republish_outcome "q" failure_processor_noop
              (retrying_without_broker ∅) 0 Hfound Hle)
    as (_ & _ & _ & Hcount & Hret).
  split; [exact (Hret eq_refl) | exact Hcount].
Defined.

(** C8 as stated fails: the republish raises and so does [retry_event]. *)
Lemma retry_event_raises_when_the_republish_fails :
  ~ retry_event_ignores_republish_failure "q" failure_processor_noop
      (retrying_with [None; Some AMQPConnectionError; Some AMQPConnectionError] ∅).
Proof.
  intros H.
  assert (Hfound : found_tries
            (event (retrying_with
                      [None; Some AMQPConnectionError; Some AMQPConnectionError] ∅)) 0)
    by (left; split; reflexivity).
  assert (Hle : 0 + 1 <= MAX_REQUEST_RETRIES) by (unfold MAX_REQUEST_RETRIES; lia).
  specialize (H 0 Hfound Hle). vm_compute in H. discriminate H.
Qed.

(** ** The declaration cache of the blocking client *)

(** [_reconnect] leaves the cache empty and the registry as it was, in both
    classes, whether or not the new connection can be made. *)
Lemma reconnect_empties_cache cls s :
  let after := (self_reconnect (QueueClient := methods_of cls) s).2 in
  queues (self after) = ∅ /\ consumers (self after) = consumers (self s) /\
  _on_open_cbs (self after) = _on_open_cbs (self s).
Proof.
  destruct cls; cbn [methods_of self_reconnect SimpleQueueClient.methods
                     TornadoQueueClient.methods].
  - unfold SimpleQueueClient._reconnect, SimpleQueueClient._connect. exec.
    split_faults; done.
  - unfold TornadoQueueClient._reconnect, TornadoQueueClient._connect. exec.
    split_faults; done.
Qed.

(** C1, at the failing input. The blocking client has "old" in its cache and
    its connection has dropped. [ensure_queue] finds the connection dead and
    connects again, but the cache still holds "old", and "old" is not
    declared on the new connection. *)
Theorem ensure_queue_reconnects_with_a_stale_cache :
  let s := stale_simple in
  let run := SimpleQueueClient.ensure_queue "old" (user_callback 1 None) s in
  SimpleQueueClient.connection_is_dead (self s) = true /\
  elements (queues (self s)) = ["old"] /\
  run.1 = Return tt /\
  SimpleQueueClient.connection_is_dead (self run.2) = false /\
  conn_id <$> connection (self s) = Some 0%nat /\
  conn_id <$> connection (self run.2) = Some 2%nat /\
  elements (queues (self run.2)) = ["old"] /\
  count is_Connect (emitted s run.2) = 1%nat /\
  count (is_QueueDeclare "old") (emitted s run.2) = 0%nat /\
  queues (self (SimpleQueueClient._reconnect s).2) = ∅.
Proof.
  cbn zeta. repeat split; vm_compute; reflexivity.
Qed.

(** ** Draining *)

(** C9, at the failing input. The queue holds "a", then a message with an
    empty body, then "c". [drain_queue] returns only "a": the empty body is
    fetched but taken for the end of the queue, it is left unacknowledged,
    and "c" stays in the queue. *)
Theorem drain_queue_stops_at_an_empty_body :
  let s := simple_with_queue "q" ["a"; ""; "c"] in
  let run := drain_queue SimpleQueueClient.methods "q" false s in
  run.1 = Return [Raw "a"] /\
  ready_messages (env run.2) "q" = ["c"] /\
  unacked (env run.2) = [(2, "q", "")] /\
  List.filter is_BasicAck (emitted s run.2) = [BasicAck 1 1].
Proof. cbn zeta. repeat split; vm_compute; reflexivity. Qed.

(** The loop of [opened] never runs out of fuel: any two amounts above the
    number of ready messages give the same run. *)
Lemma opened_loop_fuel n m cell q json s :
  (length (ready_messages (env s) q) < n)%nat ->
  (length (ready_messages (env s) q) < m)%nat ->
  opened_loop n cell q json s = opened_loop m cell q json s.
Proof.
  revert m s. induction n as [|n IH]; intros m s Hn Hm; [lia|].
  destruct m as [|m]; [lia|].
  cbn [opened_loop]. unfold ready_messages in *.
  destruct (channel (self s)) as [ch|] eqn:Hch; sym; [|done].
  destruct (broker (env s) !! q) as [[|body rest]|] eqn:Eq.
  - destruct (faults (env s)) as [|[x|] fs] eqn:Ef; sym; done.
  - destruct (faults (env s)) as [|[x|] fs] eqn:Ef; sym; try done;
      (destruct (decide (body = "")); [done|]); sym;
      (destruct json; sym;
       [match goal with
        | |- context [ujson_loads ?e body] => destruct (ujson_loads e body); sym; try done
        end|]);
      apply IH; cbn; rewrite ?lookup_insert_eq; cbn in *; lia.
  - destruct (faults (env s)) as [|[x|] fs] eqn:Ef; sym; done.
Qed.

(** The loop on a queue none of whose messages has an empty body, with a
    broker that answers: every message is fetched, acknowledged at once and
    appended, in order, and the queue ends empty. *)
Lemma opened_loop_drains q ch cell bodies :
  forall fuel s acc,
  Forall (fun b => b <> "") bodies ->
  (length bodies < fuel)%nat ->
  channel (self s) = Some ch ->
  faults (env s) = [] ->
  ready_messages (env s) q = bodies ->
  cells (env s) !! cell = Some acc ->
  exists s',
    opened_loop fuel cell q false s = (Return tt, s') /\
    self s' = self s /\
    faults (env s') = [] /\
    ready_messages (env s') q = [] /\
    cells (env s') !! cell = Some (acc ++ map Raw bodies) /\
    trace (env s') = trace (env s) ++ drain_trace ch q (next_delivery_tag (env s)) bodies.
Proof.
  induction bodies as [|body rest IH]; intros fuel s acc Hne Hfuel Hch Hf Hq Hc;
    (destruct fuel as [|fuel]; [cbn in Hfuel; lia|]); cbn [opened_loop];
    unfold ready_messages in Hq.
  - sym. rewrite Hq. sym. eexists. split; [reflexivity|]. cbn.
    by rewrite app_nil_r.
  - apply Forall_cons in Hne as [Hbody Hrest].
    sym. rewrite Hq. sym. rewrite decide_False by done. sym.
    match goal with
    | |- context [opened_loop fuel cell q false ?s1] => set (s1' := s1)
    end.
    assert (H1 : channel (self s1') = Some ch) by exact Hch.
    assert (H2 : faults (env s1') = []) by exact Hf.
    assert (H3 : ready_messages (env s1') q = rest)
      by (unfold ready_messages; cbn; by rewrite lookup_insert_eq).
    assert (H4 : cells (env s1') !! cell = Some (acc ++ [Raw body]))
      by (cbn; by rewrite list_lookup_alter_eq, Hc).
    assert (H5 : (length rest < fuel)%nat) by (cbn in Hfuel; lia).
    destruct (IH fuel s1' _ Hrest H5 H1 H2 H3 H4)
      as (s' & Hrun & Hself & Hfaults & Hready & Hcells & Htrace).
    rewrite Hrun. eexists. split; [reflexivity|].
    cbn in Hself, Htrace. split; [exact Hself|]. split; [exact Hfaults|].
    split; [exact Hready|]. split; [|rewrite Htrace; by rewrite <- !app_assoc].
    rewrite Hcells. f_equal. by rewrite <- app_assoc.
Qed.

(** [drain_queue] on a connected blocking client whose broker answers, for a
    queue none of whose messages has an empty body: all the messages come
    back, in order, each acknowledged as soon as fetched, and the queue is
    left empty. The client is left as it was, but for the cache. *)
Lemma drain_queue_returns_all q bodies s ch :
  connected (self s) ch ->
  faults (env s) = [] ->
  ready_messages (env s) q = bodies ->
  Forall (fun b => b <> "") bodies ->
  exists s',
    drain_queue SimpleQueueClient.methods q false s = (Return (map Raw bodies), s') /\
    connected (self s') ch /\
    faults (env s') = [] /\
    ready_messages (env s') q = [] /\
    List.filter (fun o => negb (is_QueueDeclare q o)) (emitted s s')
      = drain_trace ch q (next_delivery_tag (env s)) bodies.
Proof.
  intros [Hdead Hch] Hf Hq Hne.
  unfold drain_queue. cbn [self_ensure_queue SimpleQueueClient.methods].
  unfold SimpleQueueClient.ensure_queue, SimpleQueueClient.ensure_queue'. sym.
  rewrite Hdead. cbn [call]. sym.
  destruct (decide (q ∉ queues (self s))) as [Hnew|Hold]; sym.
  - match goal with
    | |- context [opened_loop ?n ?cell q false ?s1] =>
        destruct (opened_loop_drains q ch cell bodies n s1 [])
          as (s' & Hrun & Hself & Hfaults & Hready & Hcells & Htrace)
    end; try done.
    + cbn. unfold ready_messages in Hq. rewrite Hq. lia.
    + cbn. by rewrite lookup_app_r, Nat.sub_diag.
    + rewrite Hrun. sym. rewrite Hcells. cbn. eexists. split; [reflexivity|].
      rewrite Hself. cbn. split; [by split|]. split; [done|]. split; [done|].
      erewrite emitted_app;
        [|unfold trace_of, state_traced; rewrite Htrace; cbn; by rewrite <- app_assoc].
      cbn. rewrite bool_decide_eq_true_2 by done. cbn.
      clear. generalize (next_delivery_tag (env s)).
      induction bodies as [|b bs IH]; intros t; cbn; [done|]. by rewrite IH.
  - match goal with
    | |- context [opened_loop ?n ?cell q false ?s1] =>
        destruct (opened_loop_drains q ch cell bodies n s1 [])
          as (s' & Hrun & Hself & Hfaults & Hready & Hcells & Htrace)
    end; try done.
    + cbn. unfold ready_messages in Hq. rewrite Hq. lia.
    + cbn. by rewrite lookup_app_r, Nat.sub_diag.
    + rewrite Hrun. sym. rewrite Hcells. cbn. eexists. split; [reflexivity|].
      rewrite Hself. cbn. split; [by split|]. split; [done|]. split; [done|].
      erewrite emitted_app; [|unfold trace_of, state_traced; rewrite Htrace; by cbn].
      clear. generalize (next_delivery_tag (env s)).
      induction bodies as [|b bs IH]; intros t; cbn; [done|]. by rewrite IH.
Qed.

(** Draining again, or draining an empty queue, gives the empty list. *)
Lemma drain_queue_twice q bodies s ch :
  connected (self s) ch ->
  faults (env s) = [] ->
  ready_messages (env s) q = bodies ->
  Forall (fun b => b <> "") bodies ->
  let first := drain_queue SimpleQueueClient.methods q false s in
  let second := drain_queue SimpleQueueClient.methods q false first.2 in
  first.1 = Return (map Raw bodies) /\ second.1 = Return [].
Proof.
  intros Hc Hf Hq Hne.
  destruct (drain_queue_returns_all q bodies s ch Hc Hf Hq Hne)
    as (s1 & E1 & Hc1 & Hf1 & Hq1 & _).
  destruct (drain_queue_returns_all q [] s1 ch Hc1 Hf1 Hq1 (List.Forall_nil _))
    as (s2 & E2 & _).
  cbn zeta. rewrite E1. cbn [fst snd]. by rewrite E2.
Qed.

(** ** Declaring a queue once *)

(** On a connected blocking client whose broker answers, [ensure_queue]
    declares the queue if it is not cached and then calls the callback. *)
Lemma Simple_ensure_queue'_connected q cb act s ch :
  connected (self s) ch -> faults (env s) = [] ->
  SimpleQueueClient.ensure_queue' q cb act s = act (declare_if_new ch q s).
Proof.
  intros [Hdead Hch] Hf. unfold SimpleQueueClient.ensure_queue', declare_if_new. sym.
  rewrite Hdead. sym. destruct (decide (q ∉ queues (self s))); sym; done.
Qed.

Lemma declare_if_new_connected q s ch :
  connected (self s) ch -> faults (env s) = [] ->
  connected (self (declare_if_new ch q s)) ch /\
  faults (env (declare_if_new ch q s)) = [] /\
  q ∈ queues (self (declare_if_new ch q s)) /\
  queues (self s) ⊆ queues (self (declare_if_new ch q s)).
Proof.
  intros [Hdead Hch] Hf. unfold declare_if_new.
  destruct (decide (q ∉ queues (self s))) as [Hn|Hn]; cbn.
  - repeat split; try done; set_solver.
  - repeat split; try done. by apply dec_stable.
Qed.

(** With the name [q] cached, nothing a callback does on a connected blocking
    client declares [q], disconnects, or forgets [q]. *)
Lemma keeps_Simple_call_cached q ch cb :
  keeps (inv (fun c => connected c ch /\ q ∈ queues c) (on_faults (fun fs => fs = [])))
        (fun o => is_QueueDeclare q o = false)
        (call SimpleQueueClient.ensure_queue' cb).
Proof.
  apply keeps_call.
  - by intros x fs.
  - by intros [] ?.
  - intros q' cb' act Hact s [[Hc Hq] Hf]. red in Hf.
    rewrite (Simple_ensure_queue'_connected q' cb' act s ch Hc Hf).
    destruct (declare_if_new_connected q' s ch Hc Hf) as (Hc' & Hf' & _ & Hsub).
    destruct (Hact (declare_if_new ch q' s)) as (Hi & l & El & Hl).
    { split; [split; [done|by apply Hsub]|done]. }
    split; [done|]. unfold declare_if_new in *.
    destruct (decide (q' ∉ queues (self s))) as [Hn|Hn]; [|by exists l].
    exists (QueueDeclare ch q' true :: l). split.
    + etrans; [exact El|]. cbn. by rewrite <- app_assoc.
    + constructor; [|done]. cbn. apply bool_decide_eq_false. by intros ->.
Qed.

(** With the name cached, the calls are the callbacks and no declaration. *)
Lemma ensure_queue_calls_cached q ch cbs :
  forall s,
  connected (self s) ch -> q ∈ queues (self s) -> faults (env s) = [] ->
  ensure_queue_calls Simple q cbs s = callback_calls Simple cbs s /\
  exists l, trace_of (ensure_queue_calls Simple q cbs s).2 = trace_of s ++ l /\
            count (is_QueueDeclare q) l = O.
Proof.
  unfold ensure_queue_calls, callback_calls.
  induction cbs as [|cb cbs IH]; intros s Hc Hq Hf; cbn [map runs].
  - split; [done|]. exists []. by rewrite app_nil_r.
  - change (self_ensure_queue (QueueClient := methods_of Simple) q cb s)
      with (SimpleQueueClient.ensure_queue' q cb (call SimpleQueueClient.ensure_queue' cb) s).
    rewrite (Simple_ensure_queue'_connected q cb _ s ch Hc Hf).
    assert (declare_if_new ch q s = s) as ->
      by (unfold declare_if_new; by rewrite decide_False by (by intros ?)).
    destruct (keeps_Simple_call_cached q ch cb s) as ([[Hc1 Hq1] Hf1] & l1 & E1 & H1);
      [done|].
    destruct (call SimpleQueueClient.ensure_queue' cb s) as [r s1]; cbn [snd] in *.
    destruct (IH s1 Hc1 Hq1 Hf1) as (Eq & l2 & E2 & H2).
    rewrite Eq in E2 |- *. clear Eq.
    destruct (runs _ s1) as [rs s2]. cbn [snd] in *.
    split; [done|]. exists (l1 ++ l2). rewrite E2, E1, app_assoc. split; [done|].
    rewrite count_app, H2, (count_none _ l1 H1). done.
Qed.

(** C5, as amended. On a connected blocking client whose broker answers, any
    sequence of [ensure_queue] calls for one name issues at most one
    [queue_declare] for it, and amounts to that declaration, if the name was
    not cached, followed by the callbacks, each called in its turn. On the
    event-driven client a call for a cached name calls the callback at once
    and declares nothing, but a call for a name that is not cached yet, on an
    open channel, issues a [queue_declare] of its own and leaves the callback
    to the completion. *)
Theorem ensure_queue_declares_once_per_cached_name q cbs s ch :
  connected (self s) ch -> faults (env s) = [] ->
  let run := ensure_queue_calls Simple q cbs s in
  (count (is_QueueDeclare q) (emitted s run.2) <= 1)%nat /\
  (cbs <> [] -> run = callback_calls Simple cbs (declare_if_new ch q s)) /\
  (forall t cb, q ∈ queues (self t) ->
     TornadoQueueClient.ensure_queue q cb t = call TornadoQueueClient.ensure_queue' cb t) /\
  (forall t cb ch', q ∉ queues (self t) -> channel (self t) = Some ch' ->
     faults (env t) = [] ->
     TornadoQueueClient.ensure_queue q cb t =
     (Return tt,
      {| self := self t;
         env := with_ioloop (fun l => l ++ [k_finish q cb])
                  (with_trace (fun tr => tr ++ [QueueDeclare ch' q true]) (env t)) |})).
Proof.
  intros Hc Hf. cbn zeta. repeat split.
  - destruct cbs as [|cb cbs].
    { cbn. unfold emitted. rewrite drop_all. cbn. lia. }
    unfold ensure_queue_calls. cbn [map runs].
    change (self_ensure_queue (QueueClient := methods_of Simple) q cb s)
      with (SimpleQueueClient.ensure_queue' q cb (call SimpleQueueClient.ensure_queue' cb) s).
    rewrite (Simple_ensure_queue'_connected q cb _ s ch Hc Hf).
    destruct (declare_if_new_connected q s ch Hc Hf) as (Hc0 & Hf0 & Hq0 & _).
    assert (exists l0, trace_of (declare_if_new ch q s) = trace_of s ++ l0 /\
                       (count (is_QueueDeclare q) l0 <= 1)%nat) as (l0 & E0 & H0).
    { unfold declare_if_new. destruct (decide _).
      - exists [QueueDeclare ch q true]. split; [done|]. cbn.
        rewrite bool_decide_eq_true_2 by done. lia.
      - exists []. split; [by rewrite app_nil_r|]. cbn. lia. }
    destruct (keeps_Simple_call_cached q ch cb (declare_if_new ch q s))
      as ([[Hc1 Hq1] Hf1] & l1 & E1 & H1); [done|].
    destruct (call SimpleQueueClient.ensure_queue' cb _) as [r s1]; cbn [snd] in *.
    destruct (ensure_queue_calls_cached q ch cbs s1 Hc1 Hq1 Hf1) as (_ & l2 & E2 & H2).
    unfold ensure_queue_calls in E2.
    destruct (runs _ s1) as [rs s2]; cbn [snd] in *.
    erewrite emitted_app; [|rewrite E2, E1, E0; by rewrite <- !app_assoc].
    rewrite !count_app, H2, (count_none _ l1 H1). lia.
  - intros Hne. destruct cbs as [|cb cbs]; [done|].
    unfold ensure_queue_calls, callback_calls. cbn [map runs].
    change (self_ensure_queue (QueueClient := methods_of Simple) q cb s)
      with (SimpleQueueClient.ensure_queue' q cb (call SimpleQueueClient.ensure_queue' cb) s).
    rewrite (Simple_ensure_queue'_connected q cb _ s ch Hc Hf).
    destruct (declare_if_new_connected q s ch Hc Hf) as (Hc0 & Hf0 & Hq0 & _).
    destruct (keeps_Simple_call_cached q ch cb (declare_if_new ch q s))
      as ([[Hc1 Hq1] Hf1] & _); [done|].
    destruct (call SimpleQueueClient.ensure_queue' cb _) as [r s1]; cbn [snd] in *.
    destruct (ensure_queue_calls_cached q ch cbs s1 Hc1 Hq1 Hf1) as (Eq & _).
    unfold ensure_queue_calls, callback_calls in Eq. by rewrite Eq.
  - intros t cb Hq. unfold TornadoQueueClient.ensure_queue,
      TornadoQueueClient.ensure_queue'. sym.
    by rewrite decide_False by (by intros ?).
  - intros t cb ch' Hq Hch Hft. unfold TornadoQueueClient.ensure_queue,
      TornadoQueueClient.ensure_queue'. sym.
    rewrite decide_True by done. sym. done.
Qed.

Lemma ensure_queue_declares_once_per_cached_name_witness :
  (count (is_QueueDeclare "q")
     (emitted (built_simple [] ∅)
        (ensure_queue_calls Simple "q" [user_callback 1 None; do_publish "q" "x"]
           (built_simple [] ∅)).2) <= 1)%nat.
Proof.
  apply (ensure_queue_declares_once_per_cached_name "q"
           [user_callback 1 None; do_publish "q" "x"] (built_simple [] ∅) 1).
  - split; reflexivity.
  - reflexivity.
Defined.

(** C5 as stated fails on the event-driven client: two calls made before the
    first declaration completes issue two [queue_declare] requests. *)
Lemma tornado_declares_twice_while_pending :
  ~ declared_at_most_once Tornado "q" [user_callback 1 None; user_callback 2 None]
      (ready_tornado 7).
Proof. unfold declared_at_most_once. vm_compute. lia. Qed.

(** ** Replaying the consumers *)

Lemma after_turns_S cls n s :
  after_turns cls (S n) s = after_turns cls n (perform cls op_ioloop_step s).2.
Proof. reflexivity. Qed.

Lemma replay_trace_shift e e' ch i reg :
  entropy e' = entropy e -> draws e' = S (draws e) ->
  replay_trace e' ch i reg = replay_trace e ch (S i) reg.
Proof.
  intros He Hd. revert i. induction reg as [|[q w] reg IH]; intros i; cbn; [done|].
  rewrite IH. unfold ctag_of_draw. rewrite He, Hd. by rewrite Nat.add_succ_r.
Qed.

(** Replaying one consumer on an open channel with an empty cache: the queue
    is declared again and the subscription is left to the completion. *)
Lemma replay_callback ch q w s :
  queues (self s) = ∅ -> channel (self s) = Some ch -> faults (env s) = [] ->
  exists s',
    _reconnect_consumer_callback TornadoQueueClient.methods q w s = (Return tt, s') /\
    self s' = self s /\ faults (env s') = [] /\
    draws (env s') = draws (env s) /\ entropy (env s') = entropy (env s) /\
    ioloop (env s') = ioloop (env s) ++ [finish_of (q, w)] /\
    exists l, trace (env s') = trace (env s) ++ l /\ List.filter is_BasicConsume l = [].
Proof.
  intros Hq Hch Hf. unfold _reconnect_consumer_callback.
  cbn [self_ensure_queue TornadoQueueClient.methods].
  unfold TornadoQueueClient.ensure_queue, TornadoQueueClient.ensure_queue'. sym.
  rewrite Hq. rewrite decide_True by set_solver. sym.
  eexists. split; [reflexivity|]. cbn. repeat split; try done.
  eexists. rewrite <- app_assoc. split; [reflexivity|]. done.
Qed.

Lemma replay_consumers ch reg :
  forall s,
  queues (self s) = ∅ -> channel (self s) = Some ch -> faults (env s) = [] ->
  exists s',
    for_each reg (fun item => for_each item.2 (fun consumer =>
      _reconnect_consumer_callback TornadoQueueClient.methods item.1 consumer)) s
    = (Return tt, s') /\
    self s' = self s /\ faults (env s') = [] /\
    draws (env s') = draws (env s) /\ entropy (env s') = entropy (env s) /\
    ioloop (env s') = ioloop (env s) ++
      map finish_of (flat_map (fun item => map (fun w => (item.1, w)) item.2) reg) /\
    exists l, trace (env s') = trace (env s) ++ l /\ List.filter is_BasicConsume l = [].
Proof.
  induction reg as [|[q ws] reg IH]; intros s Hq Hch Hf; cbn [for_each flat_map].
  - exists s. repeat split; try done; [by rewrite app_nil_r|].
    exists []. by rewrite app_nil_r.
  - cbn [fst snd].
    assert (Hws : forall s0,
      queues (self s0) = ∅ -> channel (self s0) = Some ch -> faults (env s0) = [] ->
      exists s1,
        for_each ws (fun consumer =>
          _reconnect_consumer_callback TornadoQueueClient.methods q consumer) s0
        = (Return tt, s1) /\
        self s1 = self s0 /\ faults (env s1) = [] /\
        draws (env s1) = draws (env s0) /\ entropy (env s1) = entropy (env s0) /\
        ioloop (env s1) = ioloop (env s0) ++ map finish_of (map (fun w => (q, w)) ws) /\
        exists l, trace (env s1) = trace (env s0) ++ l /\
                  List.filter is_BasicConsume l = []).
    { clear. induction ws as [|w ws IHw]; intros s0 Hq Hch Hf; cbn [for_each map].
      - exists s0. repeat split; try done; [by rewrite app_nil_r|].
        exists []. by rewrite app_nil_r.
      - destruct (replay_callback ch q w s0 Hq Hch Hf)
          as (s1 & E1 & Hs1 & Hf1 & Hd1 & He1 & Hl1 & l1 & Ht1 & Hn1).
        destruct (IHw s1) as (s2 & E2 & Hs2 & Hf2 & Hd2 & He2 & Hl2 & l2 & Ht2 & Hn2);
          [by rewrite Hs1..|done|].
        exists s2. unfold bind. rewrite E1, E2. repeat split; try congruence.
        + rewrite Hl2, Hl1. by rewrite <- app_assoc.
        + exists (l1 ++ l2). rewrite Ht2, Ht1, app_assoc. split; [done|].
          by rewrite List.filter_app, Hn1, Hn2. }
    destruct (Hws s Hq Hch Hf)
      as (s1 & E1 & Hs1 & Hf1 & Hd1 & He1 & Hl1 & l1 & Ht1 & Hn1).
    destruct (IH s1) as (s2 & E2 & Hs2 & Hf2 & Hd2 & He2 & Hl2 & l2 & Ht2 & Hn2);
      [by rewrite Hs1..|done|].
    exists s2. unfold bind. rewrite E1, E2. repeat split; try congruence.
    + rewrite Hl2, Hl1. by rewrite map_app, <- app_assoc.
    + exists (l1 ++ l2). rewrite Ht2, Ht1, app_assoc. split; [done|].
      by rewrite List.filter_app, Hn1, Hn2.
Qed.

(** The completions of a replay, delivered in turn on the open channel: each
    caches its queue and subscribes its consumer with the tag of the next
    draw. *)
Lemma finish_all ch reg :
  forall s,
  channel (self s) = Some ch -> faults (env s) = [] ->
  ioloop (env s) = map finish_of reg ->
  consumers (self (after_turns Tornado (length reg) s)) = consumers (self s) /\
  ioloop (env (after_turns Tornado (length reg) s)) = [] /\
  trace (env (after_turns Tornado (length reg) s))
    = trace (env s) ++ replay_trace (env s) ch 0 reg.
Proof.
  unfold finish_of.
  induction reg as [|[q w] reg IH]; intros s Hch Hf Hio; cbn [length].
  - cbn. by rewrite app_nil_r.
  - rewrite after_turns_S. cbn [perform]. cbn [map] in Hio.
    unfold TornadoQueueClient.ioloop_step. sym.
    cbn [fst snd TornadoQueueClient.run_continuation].
    unfold TornadoQueueClient.finish. sym. cbn [call]. sym.
    match goal with
    | |- context [after_turns Tornado (length reg) ?s1] => set (s1' := s1)
    end.
    destruct (IH s1') as (Hc & Hl & Ht); [exact Hch|exact Hf|reflexivity|].
    rewrite Hc, Hl, Ht. repeat split.
    cbn. rewrite <- app_assoc. cbn. do 2 f_equal.
    + unfold ctag_of_draw. by rewrite Nat.add_0_r.
    + by apply replay_trace_shift.
Qed.

Lemma replay_trace_same e e' ch i reg :
  entropy e' = entropy e -> draws e' = draws e ->
  replay_trace e' ch i reg = replay_trace e ch i reg.
Proof.
  intros He Hd. revert i. induction reg as [|[q w] reg IH]; intros i; cbn; [done|].
  rewrite IH. unfold ctag_of_draw. by rewrite He, Hd.
Qed.

Lemma replay_trace_filter e ch i reg :
  List.filter is_BasicConsume (replay_trace e ch i reg) = replay_trace e ch i reg.
Proof.
  revert i. induction reg as [|[q w] reg IH]; intros i; cbn; [done|]. by rewrite IH.
Qed.

(** C4, as amended. After [_reconnect], in either class and whether or not
    the new connection can be made, the declaration cache is empty and the
    consumer registry is as it was. On the event-driven client with nothing
    else pending and a broker that answers, once the connection and the
    channel have opened and the declarations have completed, exactly one
    subscription has been requested for every registered consumer, in the
    order of the registry, each with a tag generated anew from the next
    random draw. *)
Theorem reconnect_empties_cache_and_tornado_replays s :
  (forall cls,
     let reconnected := (self_reconnect (QueueClient := methods_of cls) s).2 in
     queues (self reconnected) = ∅ /\
     consumers (self reconnected) = consumers (self s)) /\
  (_on_open_cbs (self s) = [] -> ioloop (env s) = [] -> faults (env s) = [] ->
   let reg := registered (self s) in
   let reconnected := (TornadoQueueClient._reconnect s).2 in
   let after := after_turns Tornado (2 + length reg) reconnected in
   consumers (self after) = consumers (self s) /\
   List.filter is_BasicConsume (emitted s after)
     = replay_trace (env s) (S (next_id (env s))) 0 reg).
Proof.
  split.
  - intros cls. destruct (reconnect_empties_cache cls s) as (Hq & Hc & _). by split.
  - intros Hcbs Hio Hf. cbn zeta.
    unfold TornadoQueueClient._reconnect, TornadoQueueClient._connect. sym.
    rewrite Hcbs. cbn [for_each]. sym.
    match goal with
    | |- context [for_each (consumers (self s)) ?f ?s0] =>
        destruct (replay_consumers (S (next_id (env s))) (consumers (self s)) s0)
          as (s1 & E1 & Hs1 & Hf1 & Hd1 & He1 & Hl1 & l1 & Ht1 & Hn1);
          [reflexivity|reflexivity|exact Hf|]
    end.
    rewrite E1. cbn in Hs1, Hd1, He1, Hl1, Ht1.
    match goal with
    | |- context [foldl _ ?s2 (replicate _ op_ioloop_step)] => set (s2' := s2)
    end.
    change (foldl _ s2' (replicate ?n op_ioloop_step)) with (after_turns Tornado n s2').
    destruct (finish_all (S (next_id (env s))) (registered (self s)) s2')
      as (Hc & _ & Ht).
    { subst s2'. cbn. by rewrite Hs1. }
    { exact Hf1. }
    { exact Hl1. }
    split.
    + rewrite Hc. subst s2'. cbn. by rewrite Hs1.
    + erewrite emitted_app.
      2:{ unfold trace_of, state_traced. rewrite Ht. subst s2'. cbn. rewrite Ht1.
          rewrite <- !app_assoc. reflexivity. }
      rewrite !List.filter_app, Hn1. cbn.
      rewrite replay_trace_filter. by apply replay_trace_same.
Qed.

Lemma reconnect_empties_cache_and_tornado_replays_witness :
  let s := tornado_with_consumer in
  let after := after_turns Tornado (2 + length (registered (self s)))
                 (TornadoQueueClient._reconnect s).2 in
  consumers (self after) = consumers (self s) /\
  List.filter is_BasicConsume (emitted s after)
    = replay_trace (env s) (S (next_id (env s))) 0 (registered (self s)).
Proof.
  apply (proj2 (reconnect_empties_cache_and_tornado_replays tornado_with_consumer));
    reflexivity.
Defined.

(** C4 as stated fails twice over. The blocking client subscribes nothing
    again after [_reconnect]. The event-driven client subscribes its consumer
    again, but when the random draw repeats the new tag is the old one. *)
Lemma reconnect_does_not_replay_with_new_tags :
  ~ replayed_with_new_tags Simple 0 simple_with_consumer /\
  ~ replayed_with_new_tags Tornado 3 tornado_with_consumer.
Proof.
  split.
  - intros (_ & _ & H).
    destruct (H "q" {| wid := 2; wkind := blocking_wrapper; winner := passing_consumer |})
      as (tag & Hsub & _).
    + vm_compute. apply list_elem_of_here.
    + vm_compute in Hsub. discriminate Hsub.
  - intros (_ & _ & H).
    destruct (H "q" {| wid := 2; wkind := tornado_wrapper; winner := passing_consumer |})
      as (tag & Hsub & Hne).
    + vm_compute. apply list_elem_of_here.
    + vm_compute in Hsub. injection Hsub as <-.
      apply Hne. vm_compute. reflexivity.
Qed.

(** ** The loop over the deferred callbacks *)

(** While [self.channel] is set, calling a closure leaves [_on_open_cbs] as it
    is: the loop of [_on_channel_open] runs over a list that does not grow. *)
Lemma call_keeps_on_open_cbs ch cbs cb :
  keeps (inv (fun c => channel c = Some ch /\ _on_open_cbs c = cbs)
             (on_faults (fun _ => True)))
        (fun _ => True)
        (call TornadoQueueClient.ensure_queue' cb).
Proof.
  apply keeps_call; [apply tail_closed_any|done|].
  intros q cb' act Hact s [[Hch Hcbs] Hf].
  unfold TornadoQueueClient.ensure_queue'. sym.
  destruct (decide (q ∉ queues (self s))); [|by apply Hact]. sym.
  unfold trace_of, state_traced.
  split_faults; (split; [done|]); eexists; (split; [reflexivity|]); by repeat constructor.
Qed.

(** * Further properties of the module *)

(** ** The heartbeat of the blocking client *)

Lemma new_SimpleQueueClient_result e :
  exists l, trace (new_SimpleQueueClient e).2 = trace e ++ l /\
            Forall (heartbeat_is (Some 0)) l /\
            forall c, (new_SimpleQueueClient e).1 = Return c ->
              rabbitmq_heartbeat c = Some 0 /\ class_of c = Simple.
Proof.
  unfold new_SimpleQueueClient, construct, __init__.
  exec_with ltac:(unfold SimpleQueueClient._connect).
  split_faults; eexists; rewrite <- ?app_assoc;
    (split; [reflexivity|]); (split; [by repeat constructor|]);
    intros c Hc; by simplify_eq.
Qed.

(** X1. Every connection a blocking client ever requests, the one of its
    constructor included, is requested with [heartbeat_interval = 0]:
    whatever is done to the client afterwards, heartbeats stay disabled. *)
Theorem simple_connections_have_heartbeat_0 e c ops :
  (new_SimpleQueueClient e).1 = Return c ->
  let built := after_construction c (new_SimpleQueueClient e).2 in
  rabbitmq_heartbeat c = Some 0 /\
  rabbitmq_heartbeat (self (perform_all Simple ops built)) = Some 0 /\
  Forall (fun p => heartbeat_interval p = Some 0)
    (connects (emitted e (env (perform_all Simple ops built)))).
Proof.
  intros Hc. cbn zeta.
  destruct (new_SimpleQueueClient_result e) as (l0 & E0 & H0 & Hres).
  destruct (Hres c Hc) as [Hh _].
  set (s0 := after_construction c (new_SimpleQueueClient e).2).
  assert (Hchan : chan (heartbeat_is (Some 0))) by (by intros [] ?).
  assert (Hconn : conn (heartbeat_is (Some 0))) by (by intros [] ?).
  assert (Hdecl : decl (heartbeat_is (Some 0))) by done.
  assert (Hmeth : meth (heartbeat_is (Some 0))) by (by intros [] ?).
  assert (Hparams : params (fun c => rabbitmq_heartbeat c = Some 0) (heartbeat_is (Some 0)))
    by (by intros c' b h cr Hc').
  assert (Hs0 : inv (fun c => rabbitmq_heartbeat c = Some 0) (on_faults (fun _ => True)) s0)
    by done.
  destruct (keeps_perform_all _ _ _ Simple ops s0 (survives_heartbeat (Some 0))
              tail_closed_any Hchan Hconn Hdecl Hmeth Hparams Hs0)
    as ((Hj & _) & l & El & Hl).
  split; [done|]. split; [exact Hj|].
  erewrite emitted_app.
  2:{ unfold trace_of, environment_traced.
      unfold trace_of, state_traced in El. rewrite El. subst s0. cbn.
      rewrite E0, <- app_assoc. reflexivity. }
  apply connects_heartbeat. by apply Forall_app.
Qed.

Lemma simple_connections_have_heartbeat_0_witness :
  exists c, (new_SimpleQueueClient quiet_env).1 = Return c /\
    Forall (fun p => heartbeat_interval p = Some 0)
      (connects (emitted quiet_env
         (env (perform_all Simple [op_transport_closed; op_publish "q" "x"; op_reconnect]
                 (after_construction c (new_SimpleQueueClient quiet_env).2))))).
Proof.
  eexists. split; [reflexivity|].
  apply (simple_connections_have_heartbeat_0 quiet_env _
           [op_transport_closed; op_publish "q" "x"; op_reconnect] eq_refl).
Defined.

(** ** The global client *)

Lemma get_queue_client_cached p c :
  queue_client p = Some c -> get_queue_client p = (Return (Some c), p).
Proof. intros Hp. unfold get_queue_client. exec. by rewrite Hp. Qed.

Lemma get_queue_client_fresh p :
  queue_client p = None ->
  get_queue_client p =
  if USING_RABBITMQ (settings (world p))
  then match (if RUNNING_INSIDE_TORNADO (settings (world p))
              then new_TornadoQueueClient (world p)
              else new_SimpleQueueClient (world p)) with
       | (Return c, e) => (Return (Some c), {| queue_client := Some c; world := e |})
       | (Raise x, e) => (Raise x, {| queue_client := None; world := e |})
       end
  else (Return None, p).
Proof.
  intros Hp. unfold get_queue_client. exec. rewrite Hp.
  destruct (RUNNING_INSIDE_TORNADO (settings (world p)));
    destruct (USING_RABBITMQ (settings (world p))); cbn [andb]; exec;
    rewrite ?Hp; try done.
  - by destruct (new_TornadoQueueClient (world p)) as [[c|x] e].
  - by destruct (new_SimpleQueueClient (world p)) as [[c|x] e].
Qed.

(** X2. [get_queue_client] builds the client at most once: when a call
    returns a client, the global refers to it and the next call returns the
    same client without doing anything. A client built by the call is
    event-driven when [RUNNING_INSIDE_TORNADO] is set and blocking otherwise;
    without [USING_RABBITMQ] nothing is built and [None] is returned; and when
    the constructor raises, the global is still [None]. *)
Theorem get_queue_client_builds_one_client p :
  let first := get_queue_client p in
  let second := get_queue_client first.2 in
  (forall c, first.1 = Return (Some c) ->
     queue_client first.2 = Some c /\
     second = (Return (Some c), first.2) /\
     (queue_client p = None ->
      class_of c = if RUNNING_INSIDE_TORNADO (settings (world p))
                   then Tornado else Simple)) /\
  (queue_client p = None -> USING_RABBITMQ (settings (world p)) = false ->
   first = (Return None, p)) /\
  (forall x, first.1 = Raise x -> queue_client first.2 = None).
Proof.
  cbn zeta. destruct (queue_client p) as [c0|] eqn:Hp.
  - rewrite (get_queue_client_cached p c0 Hp). cbn [fst snd].
    split; [|split]; [|done|done].
    intros c [= <-]. split; [done|]. split; [|done].
    by apply get_queue_client_cached.
  - rewrite (get_queue_client_fresh p Hp).
    destruct (USING_RABBITMQ (settings (world p))) eqn:Hu.
    + destruct (RUNNING_INSIDE_TORNADO (settings (world p))) eqn:Ht.
      * destruct (new_TornadoQueueClient (world p)) as [[c|x] e] eqn:En; cbn [fst snd].
        -- split; [|split]; [|done|done].
           intros c' [= <-]. split; [done|]. split; [by apply get_queue_client_cached|].
           intros _. by destruct (new_TornadoQueueClient_heartbeat (world p) c)
             as (_ & Hcls & _); [by rewrite En|].
        -- by split; [|split].
      * destruct (new_SimpleQueueClient (world p)) as [[c|x] e] eqn:En; cbn [fst snd].
        -- split; [|split]; [|done|done].
           intros c' [= <-]. split; [done|]. split; [by apply get_queue_client_cached|].
           intros _. destruct (new_SimpleQueueClient_result (world p))
             as (_ & _ & _ & Hres). apply Hres. by rewrite En.
        -- by split; [|split].
    + cbn [fst snd]. by split; [|split].
Qed.

Lemma get_queue_client_builds_one_client_witness :
  let p := {| queue_client := None; world := quiet_env |} in
  exists c, (get_queue_client p).1 = Return (Some c) /\
            get_queue_client (get_queue_client p).2 = (Return (Some c), (get_queue_client p).2) /\
            class_of c = Simple.
Proof.
  cbn zeta. eexists. split; [reflexivity|].
  destruct (get_queue_client_builds_one_client
              {| queue_client := None; world := quiet_env |}) as (H & _ & _).
  destruct (H _ eq_refl) as (_ & Hsecond & Hclass).
  split; [exact Hsecond | exact (Hclass eq_refl)].
Defined.

(** ** Publishing on a connected blocking client *)

(** What a successful [json_publish] leaves: the body, serialised, at the
    tail of its queue; the name cached; the client still connected. *)
Lemma json_publish_connected q body s ch :
  connected (self s) ch -> faults (env s) = [] ->
  exists s',
    json_publish SimpleQueueClient.methods q body s = (Return tt, s') /\
    connected (self s') ch /\ faults (env s') = [] /\
    queues (self s') = queues (self s) ∪ {[q]} /\
    consumers (self s') = consumers (self s) /\
    broker (env s') = <[q := ready_messages (env s) q ++ [ujson_dumps (env s) body]]>
                        (broker (env s)) /\
    ujson_dumps (env s') = ujson_dumps (env s) /\
    ujson_loads (env s') = ujson_loads (env s) /\
    next_delivery_tag (env s') = next_delivery_tag (env s) /\
    class_of (self s') = class_of (self s) /\
    settings (env s') = settings (env s) /\
    exists l, trace (env s') = trace (env s) ++ l /\
      List.filter is_request l =
        (if decide (q ∉ queues (self s)) then [QueueDeclare ch q true] else [])
        ++ [BasicPublish ch q 2 (ujson_dumps (env s) body)] /\
      count is_Enter_processor l = 0%nat.
Proof.
  intros [Hdead Hch] Hf. unfold json_publish, publish.
  cbn [self_ensure_queue SimpleQueueClient.methods].
  unfold SimpleQueueClient.ensure_queue, SimpleQueueClient.ensure_queue'. sym.
  rewrite Hdead. cbn [call]. sym.
  destruct (decide (q ∉ queues (self s))) as [Hnew|Hold]; sym.
  - eexists. split; [reflexivity|]. cbn. repeat split; try done.
    eexists. rewrite <- !app_assoc. split; [reflexivity|]. done.
  - eexists. split; [reflexivity|]. cbn. repeat split; try done.
    + apply dec_stable in Hold. apply set_eq. intros x.
      rewrite elem_of_union, elem_of_singleton. split; [by left|by intros [?| ->]].
    + eexists. rewrite <- !app_assoc. split; [reflexivity|]. done.
Qed.

(** ** Draining with decoding *)

(** The loop of [opened] with [json] set, on a queue whose messages all
    decode: as [opened_loop_drains], with the decoded bodies appended. *)
Lemma opened_loop_decodes q ch cell bodies :
  forall ps fuel s acc,
  Forall2 (fun b p => b <> "" /\ ujson_loads (env s) b = Some p) bodies ps ->
  (length bodies < fuel)%nat ->
  channel (self s) = Some ch ->
  faults (env s) = [] ->
  ready_messages (env s) q = bodies ->
  cells (env s) !! cell = Some acc ->
  exists s',
    opened_loop fuel cell q true s = (Return tt, s') /\
    self s' = self s /\
    faults (env s') = [] /\
    ready_messages (env s') q = [] /\
    cells (env s') !! cell = Some (acc ++ map Decoded ps) /\
    trace (env s') = trace (env s) ++ drain_trace ch q (next_delivery_tag (env s)) bodies.
Proof.
  induction bodies as [|body rest IH]; intros ps fuel s acc Hne Hfuel Hch Hf Hq Hc;
    (destruct fuel as [|fuel]; [cbn in Hfuel; lia|]); cbn [opened_loop];
    unfold ready_messages in Hq.
  - apply Forall2_nil_inv_l in Hne as ->.
    sym. rewrite Hq. sym. eexists. split; [reflexivity|]. cbn.
    by rewrite app_nil_r.
  - apply Forall2_cons_inv_l in Hne as (p & ps' & [Hbody Hload] & Hrest & ->).
    sym. rewrite Hq. sym. rewrite decide_False by done. sym. rewrite Hload. sym.
    match goal with
    | |- context [opened_loop fuel cell q true ?s1] => set (s1' := s1)
    end.
    assert (H1 : channel (self s1') = Some ch) by exact Hch.
    assert (H2 : faults (env s1') = []) by exact Hf.
    assert (H3 : ready_messages (env s1') q = rest)
      by (unfold ready_messages; cbn; by rewrite lookup_insert_eq).
    assert (H4 : cells (env s1') !! cell = Some (acc ++ [Decoded p]))
      by (cbn; by rewrite list_lookup_alter_eq, Hc).
    assert (H5 : (length rest < fuel)%nat) by (cbn in Hfuel; lia).
    assert (H6 : Forall2 (fun b p => b <> "" /\ ujson_loads (env s1') b = Some p) rest ps')
      by exact Hrest.
    destruct (IH ps' fuel s1' _ H6 H5 H1 H2 H3 H4)
      as (s' & Hrun & Hself & Hfaults & Hready & Hcells & Htrace).
    rewrite Hrun. eexists. split; [reflexivity|].
    cbn in Hself, Htrace. split; [exact Hself|]. split; [exact Hfaults|].
    split; [exact Hready|]. split; [|rewrite Htrace; by rewrite <- !app_assoc].
    rewrite Hcells. f_equal. by rewrite <- app_assoc.
Qed.

Lemma drain_queue_decodes q bodies ps s ch :
  connected (self s) ch ->
  faults (env s) = [] ->
  ready_messages (env s) q = bodies ->
  Forall2 (fun b p => b <> "" /\ ujson_loads (env s) b = Some p) bodies ps ->
  exists s',
    drain_queue SimpleQueueClient.methods q true s = (Return (map Decoded ps), s') /\
    ready_messages (env s') q = [] /\
    List.filter (fun o => negb (is_QueueDeclare q o)) (emitted s s')
      = drain_trace ch q (next_delivery_tag (env s)) bodies.
Proof.
  intros [Hdead Hch] Hf Hq Hne.
  unfold drain_queue. cbn [self_ensure_queue SimpleQueueClient.methods].
  unfold SimpleQueueClient.ensure_queue, SimpleQueueClient.ensure_queue'. sym.
  rewrite Hdead. cbn [call]. sym.
  assert (Hlen : length bodies = length ps) by (by eapply Forall2_length).
  destruct (decide (q ∉ queues (self s))) as [Hnew|Hold]; sym.
  - match goal with
    | |- context [opened_loop ?n ?cell q true ?s1] =>
        destruct (opened_loop_decodes q ch cell bodies ps n s1 [])
          as (s' & Hrun & Hself & Hfaults & Hready & Hcells & Htrace)
    end; try done.
    + cbn. unfold ready_messages in Hq. rewrite Hq. lia.
    + cbn. by rewrite lookup_app_r, Nat.sub_diag.
    + rewrite Hrun. sym. rewrite Hcells. cbn. eexists. split; [reflexivity|].
      split; [done|].
      erewrite emitted_app;
        [|unfold trace_of, state_traced; rewrite Htrace; cbn; by rewrite <- app_assoc].
      cbn. rewrite bool_decide_eq_true_2 by done. cbn.
      clear. generalize (next_delivery_tag (env s)).
      induction bodies as [|b bs IH]; intros t; cbn; [done|]. by rewrite IH.
  - match goal with
    | |- context [opened_loop ?n ?cell q true ?s1] =>
        destruct (opened_loop_decodes q ch cell bodies ps n s1 [])
          as (s' & Hrun & Hself & Hfaults & Hready & Hcells & Htrace)
    end; try done.
    + cbn. unfold ready_messages in Hq. rewrite Hq. lia.
    + cbn. by rewrite lookup_app_r, Nat.sub_diag.
    + rewrite Hrun. sym. rewrite Hcells. cbn. eexists. split; [reflexivity|].
      split; [done|].
      erewrite emitted_app; [|unfold trace_of, state_traced; rewrite Htrace; by cbn].
      clear. generalize (next_delivery_tag (env s)).
      induction bodies as [|b bs IH]; intros t; cbn; [done|]. by rewrite IH.
Qed.

(** X3. [drain_queue] on a connected blocking client whose broker answers:
    when no message of the queue has an empty body, the bodies come back in
    queue order, every message is acknowledged right after its fetch, the
    queue is left empty, and draining again returns the empty list. *)
Theorem drain_queue_returns_every_message q bodies s ch :
  connected (self s) ch ->
  faults (env s) = [] ->
  ready_messages (env s) q = bodies ->
  Forall (fun b => b <> "") bodies ->
  let run := drain_queue SimpleQueueClient.methods q false s in
  run.1 = Return (map Raw bodies) /\
  ready_messages (env run.2) q = [] /\
  List.filter (fun o => negb (is_QueueDeclare q o)) (emitted s run.2)
    = drain_trace ch q (next_delivery_tag (env s)) bodies /\
  (drain_queue SimpleQueueClient.methods q false run.2).1 = Return [].
Proof.
  intros Hc Hf Hq Hne.
  destruct (drain_queue_returns_all q bodies s ch Hc Hf Hq Hne)
    as (s1 & E1 & Hc1 & Hf1 & Hq1 & Ht1).
  destruct (drain_queue_returns_all q [] s1 ch Hc1 Hf1 Hq1 (List.Forall_nil _))
    as (s2 & E2 & _).
  cbn zeta. rewrite E1. cbn [fst snd]. by rewrite E2.
Qed.

Lemma drain_queue_returns_every_message_witness :
  (drain_queue SimpleQueueClient.methods "q" false
     (simple_with_queue "q" ["a"; "b"; "c"])).1 = Return [Raw "a"; Raw "b"; Raw "c"].
Proof.
  apply (drain_queue_returns_every_message "q" ["a"; "b"; "c"]
           (simple_with_queue "q" ["a"; "b"; "c"]) 1).
  - split; reflexivity.
  - reflexivity.
  - reflexivity.
  - repeat constructor; discriminate.
Defined.

(** X4. [drain_queue] with [json=True], when every body of the queue is
    non-empty and decodes with [ujson.loads]: the decoded values come back in
    queue order and the queue is left empty, each message being acknowledged
    right after its fetch. *)
Theorem drain_queue_decodes_every_message q bodies ps s ch :
  connected (self s) ch ->
  faults (env s) = [] ->
  ready_messages (env s) q = bodies ->
  Forall2 (fun b p => b <> "" /\ ujson_loads (env s) b = Some p) bodies ps ->
  let run := drain_queue SimpleQueueClient.methods q true s in
  run.1 = Return (map Decoded ps) /\
  ready_messages (env run.2) q = [] /\
  List.filter (fun o => negb (is_QueueDeclare q o)) (emitted s run.2)
    = drain_trace ch q (next_delivery_tag (env s)) bodies.
Proof.
  intros Hc Hf Hq Hne.
  destruct (drain_queue_decodes q bodies ps s ch Hc Hf Hq Hne) as (s1 & E1 & Hq1 & Ht1).
  cbn zeta. by rewrite E1.
Qed.

Lemma drain_queue_decodes_every_message_witness :
  (drain_queue SimpleQueueClient.methods "q" true
     (simple_with_queue "q" ["a"; "b"])).1
  = Return [Decoded (PStr "a"); Decoded (PStr "b")].
Proof.
  apply (drain_queue_decodes_every_message "q" ["a"; "b"] [PStr "a"; PStr "b"]
           (simple_with_queue "q" ["a"; "b"]) 1).
  - split; reflexivity.
  - reflexivity.
  - reflexivity.
  - repeat constructor; discriminate.
Defined.





(** ** Publishing across a lost connection *)

(** [publish] on a connected blocking client whose broker answers. *)
Lemma publish_connected q b s ch :
  connected (self s) ch -> faults (env s) = [] ->
  exists s',
    publish SimpleQueueClient.methods q b s = (Return tt, s') /\
    connected (self s') ch /\ faults (env s') = [] /\
    queues (self s') = queues (self s) ∪ {[q]} /\
    consumers (self s') = consumers (self s) /\
    broker (env s') = <[q := ready_messages (env s) q ++ [b]]> (broker (env s)) /\
    ujson_dumps (env s') = ujson_dumps (env s) /\
    exists l, trace (env s') = trace (env s) ++ l /\
      count is_Enter_reconnect l = 0%nat /\ count is_Connect l = 0%nat.
Proof.
  intros [Hdead Hch] Hf. unfold publish.
  cbn [self_ensure_queue SimpleQueueClient.methods].
  unfold SimpleQueueClient.ensure_queue, SimpleQueueClient.ensure_queue'. sym.
  rewrite Hdead. cbn [call]. sym.
  destruct (decide (q ∉ queues (self s))) as [Hnew|Hold]; sym.
  - eexists. split; [reflexivity|]. cbn. repeat split; try done.
    eexists. rewrite <- !app_assoc. split; [reflexivity|]. done.
  - eexists. split; [reflexivity|]. cbn. repeat split; try done.
    + apply dec_stable in Hold. apply set_eq. intros x.
      rewrite elem_of_union, elem_of_singleton. split; [by left|by intros [?| ->]].
    + eexists. rewrite <- !app_assoc. split; [reflexivity|]. done.
Qed.

(** [publish] on a connected blocking client when the next request raises:
    the exception leaves [publish], and neither the client nor the broker
    has changed. *)
Lemma publish_fails q b s ch x fs :
  connected (self s) ch -> faults (env s) = Some x :: fs ->
  exists s',
    publish SimpleQueueClient.methods q b s = (Raise x, s') /\
    self s' = self s /\ faults (env s') = fs /\
    broker (env s') = broker (env s) /\
    ujson_dumps (env s') = ujson_dumps (env s) /\
    next_id (env s') = next_id (env s) /\
    exists l, trace (env s') = trace (env s) ++ l /\
      count is_Enter_reconnect l = 0%nat /\ count is_Connect l = 0%nat.
Proof.
  intros [Hdead Hch] Hf. unfold publish.
  cbn [self_ensure_queue SimpleQueueClient.methods].
  unfold SimpleQueueClient.ensure_queue, SimpleQueueClient.ensure_queue'. sym.
  rewrite Hdead. cbn [call]. sym.
  destruct (decide (q ∉ queues (self s))) as [Hnew|Hold]; sym.
  - eexists. split; [reflexivity|]. cbn. repeat split; try done.
    eexists. rewrite <- !app_assoc. split; [reflexivity|]. done.
  - eexists. split; [reflexivity|]. cbn. repeat split; try done.
    eexists. rewrite <- !app_assoc. split; [reflexivity|]. done.
Qed.

(** [_reconnect] of the blocking client against a broker that answers. *)
Lemma Simple_reconnect_connected s :
  faults (env s) = [] ->
  exists s',
    SimpleQueueClient._reconnect s = (Return tt, s') /\
    connected (self s') (S (next_id (env s))) /\ faults (env s') = [] /\
    queues (self s') = ∅ /\
    consumers (self s') = consumers (self s) /\
    broker (env s') = broker (env s) /\
    ujson_dumps (env s') = ujson_dumps (env s) /\
    exists l, trace (env s') = trace (env s) ++ l /\
      count is_Enter_reconnect l = 1%nat /\ count is_Connect l = 1%nat.
Proof.
  intros Hf. unfold SimpleQueueClient._reconnect, SimpleQueueClient._connect. sym.
  eexists. split; [reflexivity|]. cbn. repeat split; try done.
  eexists. rewrite <- !app_assoc. split; [reflexivity|]. done.
Qed.

(** [json_publish] when the first request raises a connection error and the
    broker answers afterwards. *)
Lemma json_publish_reconnects q body s ch :
  connected (self s) ch ->
  faults (env s) = [Some AMQPConnectionError] ->
  exists s',
    json_publish SimpleQueueClient.methods q body s = (Return tt, s') /\
    broker (env s') = <[q := ready_messages (env s) q ++ [ujson_dumps (env s) body]]>
                        (broker (env s)) /\
    queues (self s') = {[q]} /\
    consumers (self s') = consumers (self s) /\
    connected (self s') (S (next_id (env s))) /\
    exists l, trace (env s') = trace (env s) ++ l /\
      count is_Enter_reconnect l = 1%nat /\ count is_Connect l = 1%nat.
Proof.
  intros Hc Hf.
  destruct (publish_fails q (ujson_dumps (env s) body) s ch _ _ Hc Hf)
    as (s1 & E1 & Hs1 & Hf1 & Hb1 & Hd1 & Hn1 & l1 & Hl1 & Hr1 & Hk1).
  set (s1' := on_env (with_trace (fun t => t ++
                [Log WARNING "Failed to send to rabbitmq, trying to reconnect and send again"]))
                s1).
  destruct (Simple_reconnect_connected s1') as
    (s2 & E2 & Hc2 & Hf2 & Hq2 & Hcs2 & Hb2 & Hd2 & l2 & Hl2 & Hr2 & Hk2); [done|].
  destruct (publish_connected q (ujson_dumps (env s2) body) s2 _ Hc2 Hf2)
    as (s3 & E3 & Hc3 & Hf3 & Hq3 & Hcs3 & Hb3 & Hd3 & l3 & Hl3 & Hr3 & Hk3).
  exists s3. split.
  - unfold json_publish, bind, try_except, get_env, ret. rewrite E1.
    cbn [is_AMQPConnectionError self_reconnect SimpleQueueClient.methods].
    unfold lift_env, log, emit, modify. cbn [env self].
    change {| self := self s1; env := _ |} with s1'. rewrite E2. exact E3.
  - cbn in Hcs2, Hb2, Hd2, Hl2, Hc2.
    split; [rewrite Hb3, Hb2, Hb1; unfold ready_messages; by rewrite Hb2, Hb1, Hd2, Hd1|].
    split; [rewrite Hq3, Hq2; apply set_eq; intros x;
            rewrite elem_of_union, elem_of_singleton, elem_of_empty; tauto|].
    split; [by rewrite Hcs3, Hcs2, Hs1|].
    split; [by rewrite <- Hn1|].
    exists (l1 ++ [Log WARNING "Failed to send to rabbitmq, trying to reconnect and send again"]
               ++ l2 ++ l3).
    split; [rewrite Hl3, Hl2, Hl1; by rewrite <- !app_assoc|].
    rewrite !count_app, Hr1, Hr2, Hr3, Hk1, Hk2, Hk3. done.
Qed.

(** X7. When the first broker request of [json_publish] on a connected
    blocking client raises a connection error and the broker answers from then
    on, [json_publish] returns normally after exactly one [_reconnect] and one
    new connection; the queue holds the message exactly once more than
    before and the other queues are as they were, the cache holds exactly the
    published queue, the registry is untouched, and the client is connected
    on a new channel. *)
Theorem json_publish_recovers_from_one_connection_error q body s ch :
  connected (self s) ch ->
  faults (env s) = [Some AMQPConnectionError] ->
  let run := json_publish SimpleQueueClient.methods q body s in
  run.1 = Return tt /\
  ready_messages (env run.2) q = ready_messages (env s) q ++ [ujson_dumps (env s) body] /\
  (forall q', q' <> q -> ready_messages (env run.2) q' = ready_messages (env s) q') /\
  queues (self run.2) = {[q]} /\
  consumers (self run.2) = consumers (self s) /\
  connected (self run.2) (S (next_id (env s))) /\
  count is_Enter_reconnect (emitted s run.2) = 1%nat /\
  count is_Connect (emitted s run.2) = 1%nat.
Proof.
  intros Hc Hf. cbn zeta.
  destruct (json_publish_reconnects q body s ch Hc Hf)
    as (s' & E & Hb & Hq & Hcs & Hc' & l & Hl & Hr & Hn).
  rewrite E. cbn [fst snd]. split; [done|].
  unfold ready_messages. rewrite Hb.
  split; [by rewrite lookup_insert_eq|].
  split; [by intros q' Hq'; rewrite lookup_insert_ne|].
  do 3 (split; [done|]).
  unfold emitted, trace_of, state_traced. rewrite Hl, drop_app_length. by split.
Qed.

Lemma json_publish_recovers_from_one_connection_error_witness :
  let s := built_simple [Some AMQPConnectionError] {["q" := ["a"]]} in
  let run := json_publish SimpleQueueClient.methods "q" (PStr "b") s in
  run.1 = Return tt /\
  ready_messages (env run.2) "q" = ["a"; example_dumps (PStr "b")] /\
  queues (self run.2) = {["q"]} /\
  count is_Enter_reconnect (emitted s run.2) = 1%nat.
Proof.
  destruct (json_publish_recovers_from_one_connection_error "q" (PStr "b")
              (built_simple [Some AMQPConnectionError] {["q" := ["a"]]}) 1)
    as (H1 & H2 & _ & H4 & _ & _ & H7 & _).
  - split; reflexivity.
  - reflexivity.
  - cbn zeta. split; [exact H1|]. split; [exact H2|]. split; [exact H4|exact H7].
Defined.

(** ** Publishing from the module level *)

(** The constructor of the blocking client against a broker that answers. *)
Lemma new_SimpleQueueClient_connected e :
  faults e = [] ->
  exists c e',
    new_SimpleQueueClient e = (Return c, e') /\
    class_of c = Simple /\ connected c (S (next_id e)) /\
    queues c = ∅ /\ consumers c = [] /\
    faults e' = [] /\ broker e' = broker e /\
    ujson_dumps e' = ujson_dumps e /\ settings e' = settings e /\
    exists l, trace e' = trace e ++ l /\
      List.filter is_request l =
        [Connect true {| host := RABBITMQ_HOST (settings e);
                         heartbeat_interval := Some 0;
                         credentials := (RABBITMQ_USERNAME (settings e),
                                         RABBITMQ_PASSWORD (settings e)) |};
         OpenChannel (next_id e)] /\
      count is_Enter_processor l = 0%nat.
Proof.
  intros Hf. unfold new_SimpleQueueClient, construct, __init__.
  exec_with ltac:(unfold SimpleQueueClient._connect).
  repeat (progress (rewrite ?Hf; exec)).
  do 2 eexists. split; [reflexivity|]. cbn. repeat split; try done.
  eexists. rewrite <- !app_assoc. split; [reflexivity|]. done.
Qed.

(** With the broker in use, [queue_json_publish] is [json_publish] on the
    client that [get_queue_client] returns. *)
Lemma queue_json_publish_with_broker q ev f p :
  USING_RABBITMQ (settings (world p)) = true ->
  queue_json_publish q ev f p =
  match get_queue_client
          {| queue_client := queue_client p;
             world := with_trace (fun t => t ++ [Enter_queue_json_publish q ev]) (world p) |}
  with
  | (Return _, p') => on_queue_client (fun C => json_publish C q ev) p'
  | (Raise x, p') => (Raise x, p')
  end.
Proof.
  intros Hu. unfold queue_json_publish, bind, in_world, emit, modify, get, ret.
  cbn [world queue_client settings with_trace]. rewrite Hu.
  by destruct (get_queue_client _) as [[?|?] ?].
Qed.

(** [queue_json_publish] with the broker in use and the global referring to a
    connected blocking client. *)
Lemma queue_json_publish_on_client q ev f p c ch :
  USING_RABBITMQ (settings (world p)) = true ->
  queue_client p = Some c -> class_of c = Simple -> connected c ch ->
  faults (world p) = [] ->
  exists c' e',
    queue_json_publish q ev f p = (Return tt, {| queue_client := Some c'; world := e' |}) /\
    class_of c' = Simple /\ connected c' ch /\ queues c' = queues c ∪ {[q]} /\
    faults e' = [] /\
    broker e' = <[q := ready_messages (world p) q ++ [ujson_dumps (world p) ev]]>
                  (broker (world p)) /\
    ujson_dumps e' = ujson_dumps (world p) /\ settings e' = settings (world p) /\
    exists l, trace e' = trace (world p) ++ l /\
      List.filter is_request l =
        (if decide (q ∉ queues c) then [QueueDeclare ch q true] else [])
        ++ [BasicPublish ch q 2 (ujson_dumps (world p) ev)] /\
      count is_Enter_processor l = 0%nat.
Proof.
  intros Hu Hp Hcls Hc Hf.
  set (s := {| self := c;
               env := with_trace (fun t => t ++ [Enter_queue_json_publish q ev]) (world p) |}).
  destruct (json_publish_connected q ev s ch Hc Hf)
    as (s' & E & Hc' & Hf' & Hq' & _ & Hb' & Hd' & _ & _ & Hcls' & Hs' & l & Hl & Hr & Hn).
  rewrite queue_json_publish_with_broker by done.
  rewrite (get_queue_client_cached _ c) by done.
  unfold on_queue_client. cbn [queue_client world]. rewrite Hp, Hcls.
  cbn [methods_of]. fold s. rewrite E.
  exists (self s'), (env s'). split; [done|]. split; [by rewrite Hcls'|].
  repeat split; try done.
  - apply Hc'.
  - apply Hc'.
  - exists (Enter_queue_json_publish q ev :: l). rewrite Hl. cbn.
    rewrite <- app_assoc. split; [done|]. by split.
Qed.

(** X8. The first [queue_json_publish] of a process that uses the broker
    outside Tornado connects a blocking client and publishes through it, and
    the next one reuses that client: against a broker that answers, both
    return normally, and the requests made are one connection, one channel,
    one declaration per distinct queue and one publication per call. The
    processor handed over is never called. *)
Theorem queue_json_publish_connects_once q1 ev1 f1 q2 ev2 f2 p :
  USING_RABBITMQ (settings (world p)) = true ->
  RUNNING_INSIDE_TORNADO (settings (world p)) = false ->
  queue_client p = None ->
  faults (world p) = [] ->
  let first := queue_json_publish q1 ev1 f1 p in
  let second := queue_json_publish q2 ev2 f2 first.2 in
  let e := world p in
  let ch := S (next_id e) in
  first.1 = Return tt /\ second.1 = Return tt /\
  List.filter is_request (emitted p second.2) =
    [Connect true {| host := RABBITMQ_HOST (settings e);
                     heartbeat_interval := Some 0;
                     credentials := (RABBITMQ_USERNAME (settings e),
                                     RABBITMQ_PASSWORD (settings e)) |};
     OpenChannel (next_id e);
     QueueDeclare ch q1 true;
     BasicPublish ch q1 2 (ujson_dumps e ev1)]
    ++ (if decide (q2 = q1) then [] else [QueueDeclare ch q2 true])
    ++ [BasicPublish ch q2 2 (ujson_dumps e ev2)] /\
  count is_Enter_processor (emitted p second.2) = 0%nat.
Proof.
  intros Hu Ht Hp Hf. cbn zeta.
  destruct (new_SimpleQueueClient_connected
              (with_trace (fun t => t ++ [Enter_queue_json_publish q1 ev1]) (world p)) Hf)
    as (c & e0 & En & Hcls & Hc & Hq & _ & Hf0 & Hb0 & Hd0 & Hs0 & l0 & Hl0 & Hr0 & Hn0).
  cbn in Hl0, Hr0, Hc, Hb0, Hd0, Hs0.
  set (p0 := {| queue_client := Some c; world := e0 |}).
  destruct (json_publish_connected q1 ev1 {| self := c; env := e0 |} _ Hc Hf0)
    as (s1 & E1 & Hc1 & Hf1 & Hq1 & _ & Hb1 & Hd1 & _ & _ & Hcls1 & Hs1 & l1 & Hl1 & Hr1 & Hn1).
  cbn in Hq1, Hb1, Hd1, Hcls1, Hs1, Hl1, Hr1.
  assert (E : queue_json_publish q1 ev1 f1 p
              = (Return tt, {| queue_client := Some (self s1); world := env s1 |})).
  { rewrite queue_json_publish_with_broker by done.
    rewrite get_queue_client_fresh by done. cbn [world settings with_trace].
    rewrite Hu, Ht, En. unfold on_queue_client. cbn [queue_client world].
    rewrite Hcls. cbn [methods_of]. by rewrite E1. }
  rewrite E. cbn [fst snd].
  set (p1 := {| queue_client := Some (self s1); world := env s1 |}).
  destruct (queue_json_publish_on_client q2 ev2 f2 p1 (self s1) (S (next_id (world p))))
    as (c2 & e2 & E2 & _ & _ & _ & _ & _ & _ & _ & l2 & Hl2 & Hr2 & Hn2);
    [by cbn [p1 world]; rewrite Hs1, Hs0|done|by rewrite Hcls1|done|done|].
  rewrite E2. cbn [fst snd]. split; [done|]. split; [done|].
  cbn in Hl2, Hr2.
  assert (Etr : trace e2 = trace (world p)
                  ++ (Enter_queue_json_publish q1 ev1 :: l0) ++ l1 ++ l2).
  { rewrite Hl2, Hl1, Hl0. by rewrite <- !app_assoc. }
  unfold emitted, trace_of, process_traced. cbn [world]. rewrite Etr, drop_app_length.
  split.
  - rewrite !List.filter_app. cbn [List.filter is_request]. rewrite Hr0, Hr1, Hr2.
    rewrite Hq1, Hq, Hd1, Hd0. rewrite decide_True by apply not_elem_of_empty.
    cbn. do 4 f_equal.
    destruct (decide (q2 = q1)) as [->|Hne].
    + rewrite decide_False; [done|]. intros H. apply H.
      apply elem_of_union_r, elem_of_singleton. done.
    + rewrite decide_True; [done|].
      rewrite elem_of_union, elem_of_singleton, elem_of_empty. tauto.
  - rewrite !count_app. cbn [count is_Enter_processor]. by rewrite Hn0, Hn1, Hn2.
Qed.

Lemma queue_json_publish_connects_once_witness :
  let p := {| queue_client := None; world := quiet_env |} in
  let first := queue_json_publish "q" (PStr "a") None p in
  let second := queue_json_publish "q" (PStr "b") None first.2 in
  second.1 = Return tt /\
  count is_Connect (List.filter is_request (emitted p second.2)) = 1%nat.
Proof.
  destruct (queue_json_publish_connects_once "q" (PStr "a") None "q" (PStr "b") None
              {| queue_client := None; world := quiet_env |})
    as (_ & H2 & H3 & _); try reflexivity.
  cbn zeta. split; [exact H2|]. rewrite H3. reflexivity.
Defined.

(** ** Registering a consumer *)

(** [consumers[queue_name].add(w)] adds one entry to the registry and keeps
    the others. *)
Lemma registered_consumers_add q w c :
  registered (with_consumers (consumers_add q w (consumers c)) c)
  ≡ₚ registered c ++ [(q, w)].
Proof.
  unfold registered. cbn [consumers with_consumers].
  induction (consumers c) as [|[q' ws] d IH]; cbn [consumers_add flat_map]; [done|].
  destruct (decide (q' = q)) as [->|Hne]; cbn [flat_map fst snd].
  - rewrite map_app, <- !app_assoc. cbn [map]. apply Permutation_app_head.
    apply Permutation_app_comm.
  - rewrite <- app_assoc. apply Permutation_app_head. exact IH.
Qed.

(** [register_consumer] on a connected blocking client whose broker answers. *)
Lemma Simple_register_consumer_connected q consumer s ch :
  connected (self s) ch -> faults (env s) = [] ->
  exists s',
    SimpleQueueClient.register_consumer q consumer s = (Return tt, s') /\
    consumers (self s') = consumers_add q
      {| wid := next_id (env s); wkind := blocking_wrapper; winner := consumer |}
      (consumers (self s)) /\
    queues (self s') = queues (self s) ∪ {[q]} /\
    exists l, trace (env s') = trace (env s) ++ l /\
      List.filter is_request l
      = (if decide (q ∉ queues (self s)) then [QueueDeclare ch q true] else [])
        ++ [BasicConsume ch (next_id (env s)) q (ctag_of_draw (env s) 0 q)].
Proof.
  intros [Hdead Hch] Hf.
  unfold SimpleQueueClient.register_consumer, SimpleQueueClient.ensure_queue,
    SimpleQueueClient.ensure_queue'. sym.
  unfold SimpleQueueClient.connection_is_dead in *. cbn [connection with_consumers].
  rewrite Hdead. cbn [call]. sym.
  unfold ctag_of_draw. rewrite Nat.add_0_r.
  destruct (decide (q ∉ queues (self s))) as [Hnew|Hold]; sym.
  - eexists. split; [reflexivity|]. cbn. repeat split; try done.
    eexists. rewrite <- ?app_assoc. split; [reflexivity|]. done.
  - eexists. split; [reflexivity|]. cbn. repeat split; try done.
    + apply dec_stable in Hold. apply set_eq. intros x.
      rewrite elem_of_union, elem_of_singleton. split; [by left|by intros [?| ->]].
    + eexists. rewrite <- ?app_assoc. split; [reflexivity|]. done.
Qed.

(** X9. [register_consumer] on a connected blocking client whose broker
    answers: the registry gains exactly the new wrapper, which wraps the
    handler given, and keeps every earlier entry; the queue is declared unless
    it is cached, and cached afterwards; and exactly one subscription is
    requested, for the new wrapper, on the channel of the client, with the
    tag made from the queue name and the next random draw. *)
Theorem register_consumer_subscribes_once q consumer s ch :
  connected (self s) ch -> faults (env s) = [] ->
  let w := {| wid := next_id (env s); wkind := blocking_wrapper; winner := consumer |} in
  let run := SimpleQueueClient.register_consumer q consumer s in
  run.1 = Return tt /\
  registered (self run.2) ≡ₚ registered (self s) ++ [(q, w)] /\
  queues (self run.2) = queues (self s) ∪ {[q]} /\
  List.filter is_request (emitted s run.2)
    = (if decide (q ∉ queues (self s)) then [QueueDeclare ch q true] else [])
      ++ [BasicConsume ch (wid w) q (ctag_of_draw (env s) 0 q)].
Proof.
  intros Hc Hf. cbn zeta.
  destruct (Simple_register_consumer_connected q consumer s ch Hc Hf)
    as (s' & E & Hcs & Hq & l & Hl & Hr).
  rewrite E. cbn [fst snd]. split; [done|]. split; [|split; [done|]].
  - unfold registered. rewrite Hcs. apply (registered_consumers_add q _ (self s)).
  - unfold emitted, trace_of, state_traced. by rewrite Hl, drop_app_length.
Qed.

Lemma register_consumer_subscribes_once_witness :
  let s := built_simple [] ∅ in
  let run := SimpleQueueClient.register_consumer "q" passing_consumer s in
  run.1 = Return tt /\
  List.filter is_request (emitted s run.2)
    = [QueueDeclare 1 "q" true; BasicConsume 1 2 "q" "q_7"].
Proof.
  destruct (register_consumer_subscribes_once "q" passing_consumer (built_simple [] ∅) 1)
    as (H1 & _ & _ & H4).
  - split; reflexivity.
  - reflexivity.
  - cbn zeta. split; [exact H1|]. rewrite H4. reflexivity.
Defined.

(** ** Losing the connection of the event-driven client *)

(** A turn of the loop that runs [on_timeout] while the broker refuses the
    connection: the timer is armed again. *)
Lemma on_timeout_fails s fs :
  ioloop (env s) = [k_on_timeout] ->
  faults (env s) = Some AMQPConnectionError :: fs ->
  exists s',
    TornadoQueueClient.ioloop_step s = (Return tt, s') /\
    ioloop (env s') = [k_on_timeout] /\ faults (env s') = fs /\
    consumers (self s') = consumers (self s) /\
    exists l, trace (env s') = trace (env s) ++ l /\
      count is_Enter_reconnect l = 1%nat /\ count is_Connect l = 1%nat /\
      List.filter is_CallLater l = [CallLater 2].
Proof.
  intros Hio Hf.
  unfold TornadoQueueClient.ioloop_step. sym.
  cbn [TornadoQueueClient.run_continuation].
  unfold TornadoQueueClient.on_timeout, TornadoQueueClient._reconnect,
    TornadoQueueClient._connect, TornadoQueueClient.call_later_on_timeout. sym.
  eexists. split; [reflexivity|]. cbn. repeat split; try done.
  eexists. rewrite <- !app_assoc. split; [reflexivity|]. done.
Qed.

(** A turn of the loop that runs [on_timeout] when the broker accepts the
    connection: the client is connecting again. *)
Lemma on_timeout_connects s :
  ioloop (env s) = [k_on_timeout] ->
  faults (env s) = [] ->
  exists s',
    TornadoQueueClient.ioloop_step s = (Return tt, s') /\
    ioloop (env s') = [k_on_open] /\ faults (env s') = [] /\
    consumers (self s') = consumers (self s) /\
    channel (self s') = None /\ queues (self s') = ∅ /\
    exists l, trace (env s') = trace (env s) ++ l /\
      count is_Enter_reconnect l = 1%nat /\ count is_Connect l = 1%nat /\
      List.filter is_CallLater l = [].
Proof.
  intros Hio Hf.
  unfold TornadoQueueClient.ioloop_step. sym.
  cbn [TornadoQueueClient.run_continuation].
  unfold TornadoQueueClient.on_timeout, TornadoQueueClient._reconnect,
    TornadoQueueClient._connect, TornadoQueueClient.call_later_on_timeout. sym.
  eexists. split; [reflexivity|]. cbn. repeat split; try done.
  eexists. rewrite <- !app_assoc. split; [reflexivity|]. done.
Qed.

(** The timer keeps firing until a connection is accepted. *)
Lemma on_timeout_retries n :
  forall s,
  ioloop (env s) = [k_on_timeout] ->
  faults (env s) = replicate n (Some AMQPConnectionError) ->
  let after := after_turns Tornado (S n) s in
  ioloop (env after) = [k_on_open] /\ faults (env after) = [] /\
  consumers (self after) = consumers (self s) /\
  channel (self after) = None /\ queues (self after) = ∅ /\
  exists l, trace (env after) = trace (env s) ++ l /\
    count is_Enter_reconnect l = S n /\ count is_Connect l = S n /\
    List.filter is_CallLater l = replicate n (CallLater 2).
Proof.
  induction n as [|n IH]; intros s Hio Hf; cbn zeta; rewrite after_turns_S; cbn [perform].
  - destruct (on_timeout_connects s Hio Hf) as (s' & E & H). rewrite E. exact H.
  - destruct (on_timeout_fails s _ Hio Hf)
      as (s' & E & Hio' & Hf' & Hc' & l & Hl & H1 & H2 & H3).
    rewrite E. cbn [snd].
    destruct (IH s' Hio' Hf') as (Ha & Hb & Hc & Hd & He & l' & Hl' & H1' & H2' & H3').
    repeat split; try done; [by rewrite Hc|].
    exists (l ++ l'). rewrite Hl', Hl, <- app_assoc. split; [done|].
    rewrite !count_app, List.filter_app, H1, H2, H3, H1', H2', H3'. done.
Qed.

(** X10. When the connection of the event-driven client closes, a reconnect
    is tried every time the timer fires until the broker accepts one: if the
    broker refuses the next [n] connections, then after [n + 1] turns of the
    loop [n + 1] connections have been requested by [n + 1] calls of
    [_reconnect], the timer has been armed [n + 1] times, each for two
    seconds, and the client is waiting for its new connection to open with
    its consumers still registered. *)
Theorem tornado_reconnects_until_accepted n s :
  ioloop (env s) = [] ->
  faults (env s) = replicate n (Some AMQPConnectionError) ->
  let closed := (TornadoQueueClient.connection_closed s).2 in
  let after := after_turns Tornado (S n) closed in
  (TornadoQueueClient.connection_closed s).1 = Return tt /\
  count is_Connect (emitted s after) = S n /\
  count is_Enter_reconnect (emitted s after) = S n /\
  List.filter is_CallLater (emitted s after) = replicate (S n) (CallLater 2) /\
  ioloop (env after) = [k_on_open] /\
  channel (self after) = None /\ queues (self after) = ∅ /\
  consumers (self after) = consumers (self s).
Proof.
  intros Hio Hf. cbn zeta.
  assert (exists s0,
    TornadoQueueClient.connection_closed s = (Return tt, s0) /\
    ioloop (env s0) = [k_on_timeout] /\ faults (env s0) = faults (env s) /\
    consumers (self s0) = consumers (self s) /\
    trace (env s0) = trace (env s) ++
      [Log WARNING "TornadoQueueClient lost connection to RabbitMQ, reconnecting...";
       CallLater 2]) as (s0 & E0 & Hio0 & Hf0 & Hc0 & Hl0).
  { unfold TornadoQueueClient.connection_closed, TornadoQueueClient._on_connection_closed,
      TornadoQueueClient.call_later_on_timeout, transport_closed. sym.
    eexists. split; [reflexivity|]. cbn. rewrite Hio, <- app_assoc. done. }
  rewrite E0. cbn [fst snd]. rewrite <- Hf0 in Hf.
  destruct (on_timeout_retries n s0 Hio0 Hf)
    as (Ha & _ & Hc & Hd & He & l & Hl & H1 & H2 & H3).
  split; [done|].
  unfold emitted, trace_of, state_traced.
  rewrite Hl, Hl0, <- app_assoc, drop_app_length. cbn [app count is_Connect is_Enter_reconnect].
  repeat split; try done; [|by rewrite Hc].
  cbn [List.filter is_CallLater]. by rewrite H3.
Qed.

Lemma tornado_reconnects_until_accepted_witness :
  let s := on_env (with_faults (replicate 3 (Some AMQPConnectionError))) (ready_tornado 7) in
  let after := after_turns Tornado 4 (TornadoQueueClient.connection_closed s).2 in
  count is_Connect (emitted s after) = 4%nat /\
  List.filter is_CallLater (emitted s after) = replicate 4 (CallLater 2) /\
  ioloop (env after) = [k_on_open].
Proof.
  destruct (tornado_reconnects_until_accepted 3
              (on_env (with_faults (replicate 3 (Some AMQPConnectionError))) (ready_tornado 7)))
    as (_ & H2 & _ & H4 & H5 & _); try reflexivity.
  cbn zeta. split; [exact H2|]. split; [exact H4|exact H5].
Defined.

(** With nothing owed, turns of the loop do nothing. *)
Lemma after_turns_idle m s :
  ioloop (env s) = [] -> after_turns Tornado m s = s.
Proof.
  intros Hio. induction m as [|m IH]; [done|].
  rewrite after_turns_S. cbn [perform]. unfold TornadoQueueClient.ioloop_step. sym.
  cbn [snd]. exact IH.
Qed.

(** X11. [on_timeout] catches connection errors only. When the reconnect it
    tries raises anything else, the exception leaves [on_timeout], the timer
    is not armed again, and the loop has nothing left to run: the client
    stays without connection and channel, and no further turn of the loop
    requests anything. *)
Theorem tornado_stops_retrying_on_another_exception x fs m s :
  ioloop (env s) = [] ->
  faults (env s) = Some x :: fs ->
  is_AMQPConnectionError x = false ->
  let closed := (TornadoQueueClient.connection_closed s).2 in
  let fired := TornadoQueueClient.ioloop_step closed in
  fired.1 = Raise x /\
  List.filter is_CallLater (emitted closed fired.2) = [] /\
  ioloop (env fired.2) = [] /\
  connection (self fired.2) = None /\ channel (self fired.2) = None /\
  after_turns Tornado m fired.2 = fired.2.
Proof.
  intros Hio Hf Hx. cbn zeta.
  assert (exists s',
    TornadoQueueClient.ioloop_step (TornadoQueueClient.connection_closed s).2
      = (Raise x, s') /\
    ioloop (env s') = [] /\ connection (self s') = None /\ channel (self s') = None /\
    exists l, trace (env s') = trace (env (TornadoQueueClient.connection_closed s).2) ++ l /\
              List.filter is_CallLater l = [])
    as (s' & E & Hio' & Hc' & Hch' & l & Hl & Hn).
  { unfold TornadoQueueClient.connection_closed, TornadoQueueClient._on_connection_closed,
      TornadoQueueClient.call_later_on_timeout, transport_closed,
      TornadoQueueClient.ioloop_step. sym.
    cbn [TornadoQueueClient.run_continuation app].
    unfold TornadoQueueClient.on_timeout, TornadoQueueClient._reconnect,
      TornadoQueueClient._connect, TornadoQueueClient.call_later_on_timeout. sym.
    rewrite Hx. sym.
    eexists. split; [reflexivity|]. cbn. repeat split; try done.
    eexists. rewrite <- !app_assoc. split; [reflexivity|]. done. }
  rewrite E. cbn [fst snd]. split; [done|].
  split; [unfold emitted, trace_of, state_traced; by rewrite Hl, drop_app_length|].
  repeat split; try done. by apply after_turns_idle.
Qed.

Lemma tornado_stops_retrying_on_another_exception_witness :
  let s := on_env (with_faults [Some ValueError]) (ready_tornado 7) in
  let fired := TornadoQueueClient.ioloop_step (TornadoQueueClient.connection_closed s).2 in
  fired.1 = Raise ValueError /\ ioloop (env fired.2) = [] /\
  after_turns Tornado 5 fired.2 = fired.2.
Proof.
  destruct (tornado_stops_retrying_on_another_exception ValueError [] 5
              (on_env (with_faults [Some ValueError]) (ready_tornado 7)))
    as (H1 & _ & H3 & _ & _ & H6); try reflexivity.
  cbn zeta. split; [exact H1|]. split; [exact H3|exact H6].
Defined.

(** ** Publishing before the channel is open *)

(** The three turns that follow a connection request with one publication
    deferred: the connection opens, the channel opens and the deferred call
    declares the queue, the declaration completes and the message is
    published. *)
Lemma deferred_publish_turns q b s :
  awaiting_open [ensure_queue_lambda q (do_publish q b)] s ->
  exists s1 s2 s3,
    TornadoQueueClient.ioloop_step s = (Return tt, s1) /\
    TornadoQueueClient.ioloop_step s1 = (Return tt, s2) /\
    TornadoQueueClient.ioloop_step s2 = (Return tt, s3) /\
    open_with [ensure_queue_lambda q (do_publish q b)] s3 /\
    broker (env s3) = <[q := ready_messages (env s) q ++ [b]]> (broker (env s)) /\
    exists l, trace (env s3) = trace (env s) ++ l /\
      List.filter is_BasicPublish l = [BasicPublish (next_id (env s)) q 2 b].
Proof.
  intros (Hch & Hq & Hcbs & Hcs & [conn Hconn] & Hio & Hf).
  eexists _, _, _. split; [|split; [|split]].
  - unfold TornadoQueueClient.ioloop_step. sym.
    cbn [TornadoQueueClient.run_continuation]. unfold TornadoQueueClient._on_open. sym.
    unfold TornadoQueueClient.mark_open. sym. reflexivity.
  - unfold TornadoQueueClient.ioloop_step. sym.
    cbn [TornadoQueueClient.run_continuation].
    unfold TornadoQueueClient._on_channel_open, _reconnect_consumer_callbacks. sym.
    rewrite Hcbs. cbn [for_each call]. unfold TornadoQueueClient.ensure_queue'. sym.
    rewrite Hq. rewrite decide_True by apply not_elem_of_empty. sym.
    rewrite Hcs. cbn [for_each]. sym. reflexivity.
  - unfold TornadoQueueClient.ioloop_step. sym.
    cbn [TornadoQueueClient.run_continuation]. unfold TornadoQueueClient.finish. sym.
    cbn [call]. sym. reflexivity.
  - cbn. split; [|split].
    + repeat split; try done. by eexists.
    + done.
    + eexists. rewrite <- !app_assoc. split; [reflexivity|]. done.
Qed.

Lemma deferred_publish_is_sent q b s :
  awaiting_open [ensure_queue_lambda q (do_publish q b)] s ->
  let after := after_turns Tornado 3 s in
  open_with [ensure_queue_lambda q (do_publish q b)] after /\
  broker (env after) = <[q := ready_messages (env s) q ++ [b]]> (broker (env s)) /\
  exists l, trace (env after) = trace (env s) ++ l /\
    List.filter is_BasicPublish l = [BasicPublish (next_id (env s)) q 2 b].
Proof.
  intros Hs. cbn zeta.
  destruct (deferred_publish_turns q b s Hs) as (s1 & s2 & s3 & E1 & E2 & E3 & H).
  rewrite !after_turns_S. cbn [perform]. rewrite E1. cbn [snd]. rewrite E2. cbn [snd].
  rewrite E3. exact H.
Qed.

(** [_reconnect] on an open event-driven client without consumers: the
    client awaits its new connection; nothing is published. *)
Lemma Tornado_reconnect_awaits cbs s :
  open_with cbs s ->
  exists s',
    TornadoQueueClient._reconnect s = (Return tt, s') /\
    awaiting_open cbs s' /\ broker (env s') = broker (env s) /\
    exists l, trace (env s') = trace (env s) ++ l /\ List.filter is_BasicPublish l = [].
Proof.
  intros ([ch Hch] & Hcbs & Hcs & Hio & Hf).
  unfold TornadoQueueClient._reconnect, TornadoQueueClient._connect. sym.
  eexists. split; [reflexivity|]. unfold awaiting_open. cbn. rewrite Hio.
  split; [|split; [done|]].
  - repeat split; try done. by eexists.
  - eexists. rewrite <- !app_assoc. split; [reflexivity|]. done.
Qed.

(** X12. A [publish] on an event-driven client whose channel is not open yet
    requests nothing from the broker and returns; the message is not lost:
    when the connection and the channel have opened and the declaration of
    the queue has completed, it has been published exactly once, on the new
    channel, and is in its queue. *)
Theorem tornado_publish_before_open_is_sent_once q b s :
  awaiting_open [] s ->
  let deferred := publish TornadoQueueClient.methods q b s in
  let after := after_turns Tornado 3 deferred.2 in
  deferred.1 = Return tt /\
  List.filter is_request (emitted s deferred.2) = [] /\
  broker (env deferred.2) = broker (env s) /\
  open_with [ensure_queue_lambda q (do_publish q b)] after /\
  ready_messages (env after) q = ready_messages (env s) q ++ [b] /\
  List.filter is_BasicPublish (emitted s after) = [BasicPublish (next_id (env s)) q 2 b].
Proof.
  intros (Hch & Hq & Hcbs & Hcs & [conn Hconn] & Hio & Hf). cbn zeta.
  assert (exists s',
    publish TornadoQueueClient.methods q b s = (Return tt, s') /\
    awaiting_open [ensure_queue_lambda q (do_publish q b)] s' /\
    broker (env s') = broker (env s) /\ next_id (env s') = next_id (env s) /\
    trace (env s') = trace (env s) ++ [Enter_publish q b])
    as (s' & E & Hs' & Hb' & Hn' & Hl').
  { unfold publish. cbn [self_ensure_queue TornadoQueueClient.methods].
    unfold TornadoQueueClient.ensure_queue, TornadoQueueClient.ensure_queue'. sym.
    rewrite Hq. rewrite decide_True by apply not_elem_of_empty. sym.
    eexists. split; [reflexivity|]. cbn. rewrite Hcbs. repeat split; try done.
    by eexists. }
  rewrite E. cbn [fst snd].
  destruct (deferred_publish_is_sent q b s' Hs') as (Ho & Hb & l & Hl & Hp).
  split; [done|].
  split; [unfold emitted, trace_of, state_traced; by rewrite Hl', drop_app_length|].
  split; [done|]. split; [done|].
  split; [unfold ready_messages at 1; rewrite Hb, lookup_insert_eq;
          unfold ready_messages; by rewrite Hb'|].
  unfold emitted, trace_of, state_traced.
  rewrite Hl, Hl', <- app_assoc, drop_app_length. cbn. by rewrite Hp, Hn'.
Qed.

Lemma tornado_publish_before_open_is_sent_once_witness :
  let s := {| self := blank Tornado; env := quiet_env |} in
  let built := (TornadoQueueClient.__init__ s).2 in
  let after := after_turns Tornado 3 (publish TornadoQueueClient.methods "q" "m" built).2 in
  ready_messages (env after) "q" = ["m"] /\
  List.filter is_BasicPublish (emitted built after) = [BasicPublish 1 "q" 2 "m"].
Proof.
  destruct (tornado_publish_before_open_is_sent_once "q" "m"
              (TornadoQueueClient.__init__ {| self := blank Tornado; env := quiet_env |}).2)
    as (_ & _ & _ & _ & H5 & H6).
  - repeat split; try reflexivity. eexists. reflexivity.
  - cbn zeta. split; [exact H5|exact H6].
Defined.

(** X13. [_on_open_cbs] is never emptied, so a publication that was deferred
    once is made again each time the channel opens: on a client that holds
    one deferred [publish] of [b] to [q], [n] forced reconnects, each
    followed by the turns of the loop that open the new channel, publish [b]
    [n] more times, and the queue holds [n] more copies of it. *)
Theorem tornado_deferred_publish_is_repeated_on_reconnect q b n s :
  open_with [ensure_queue_lambda q (do_publish q b)] s ->
  let after := Nat.iter n reconnect_cycle s in
  open_with [ensure_queue_lambda q (do_publish q b)] after /\
  ready_messages (env after) q = ready_messages (env s) q ++ replicate n b /\
  count is_BasicPublish (emitted s after) = n.
Proof.
  intros Hs. cbn zeta.
  assert (exists l, open_with [ensure_queue_lambda q (do_publish q b)]
                      (Nat.iter n reconnect_cycle s) /\
            ready_messages (env (Nat.iter n reconnect_cycle s)) q
              = ready_messages (env s) q ++ replicate n b /\
            trace (env (Nat.iter n reconnect_cycle s)) = trace (env s) ++ l /\
            count is_BasicPublish l = n) as (l & Ho & Hr & Hl & Hn).
  { induction n as [|n (l & Ho & Hr & Hl & Hn)]; cbn [Nat.iter nat_rect].
    - exists []. by rewrite !app_nil_r.
    - set (sn := Nat.iter n reconnect_cycle s) in *.
      change (nat_rect _ s (fun _ => reconnect_cycle) n) with sn.
      unfold reconnect_cycle.
      destruct (Tornado_reconnect_awaits _ sn Ho) as (s' & E & Hs' & Hb' & l' & Hl' & Hp').
      rewrite E. cbn [snd].
      destruct (deferred_publish_is_sent q b s' Hs') as (Ho3 & Hb3 & l3 & Hl3 & Hp3).
      exists (l ++ l' ++ l3). split; [done|]. split; [|split].
      + unfold ready_messages at 1. rewrite Hb3, lookup_insert_eq.
        unfold ready_messages at 1. rewrite Hb'. fold (ready_messages (env sn) q).
        rewrite Hr, <- app_assoc. f_equal.
        replace (S n) with (n + 1)%nat by lia. by rewrite replicate_add.
      + rewrite Hl3, Hl', Hl. by rewrite <- !app_assoc.
      + rewrite !count_app, Hn.
        assert (Hcount : forall l0, count is_BasicPublish l0
                           = length (List.filter is_BasicPublish l0)).
        { clear. induction l0 as [|o l0 IH]; cbn; [done|]. destruct (is_BasicPublish o); cbn; lia. }
        rewrite !Hcount, Hp', Hp3. cbn. lia. }
  split; [done|]. split; [done|].
  unfold emitted, trace_of, state_traced. by rewrite Hl, drop_app_length.
Qed.

Lemma tornado_deferred_publish_is_repeated_on_reconnect_witness :
  let built := (TornadoQueueClient.__init__ {| self := blank Tornado; env := quiet_env |}).2 in
  let s := after_turns Tornado 3 (publish TornadoQueueClient.methods "q" "m" built).2 in
  ready_messages (env (Nat.iter 2 reconnect_cycle s)) "q" = ["m"; "m"; "m"].
Proof.
  cbn zeta.
  destruct (tornado_deferred_publish_is_repeated_on_reconnect "q" "m" 2
    (after_turns Tornado 3
       (publish TornadoQueueClient.methods "q" "m"
          (TornadoQueueClient.__init__ {| self := blank Tornado; env := quiet_env |}).2).2))
    as (_ & H2 & _).
  - vm_compute. repeat split; try reflexivity. eexists. reflexivity.
  - rewrite H2. vm_compute. reflexivity.
Defined.

(** ** Consumer tags *)

Lemma pretty_N_char_no_underscore x : pretty_N_char x <> "_"%char.
Proof. unfold pretty_N_char. by repeat case_match. Qed.

Lemma pretty_N_go_no_underscore x :
  forall s, no_underscore s -> no_underscore (pretty_N_go x s).
Proof.
  induction (N.lt_wf_0 x) as [x _ IH]; intros s Hs.
  assert (x = 0 \/ 0 < x)%N as [->|Hx] by lia; [by rewrite pretty_N_go_0|].
  rewrite pretty_N_go_step by done. apply IH; [by apply N.div_lt|].
  split; [apply pretty_N_char_no_underscore|done].
Qed.

Lemma pretty_N_no_underscore (x : N) : no_underscore (pretty x).
Proof.
  unfold pretty, pretty_N. case_decide.
  - cbn. split; [discriminate|done].
  - by apply pretty_N_go_no_underscore.
Qed.

(** A string that ends in an underscore and a part without underscores is
    cut in one way only. *)
Lemma append_underscore_inj q1 :
  forall q2 d1 d2,
  no_underscore d1 -> no_underscore d2 ->
  q1 +:+ "_" +:+ d1 = q2 +:+ "_" +:+ d2 -> q1 = q2 /\ d1 = d2.
Proof.
  assert (Hno : forall q d, no_underscore (q +:+ "_" +:+ d) -> False).
  { induction q as [|a q IH]; cbn; intros d [Ha Hd]; [done|by eapply IH]. }
  induction q1 as [|a q1 IH]; intros [|b q2] d1 d2 H1 H2; cbn; intros E.
  - by injection E.
  - injection E as _ E. change ("" +:+ d1) with d1 in E. subst d1. destruct (Hno _ _ H1).
  - injection E as _ E. change ("" +:+ d2) with d2 in E. subst d2. destruct (Hno _ _ H2).
  - injection E as -> E. by destruct (IH q2 d1 d2 H1 H2 E) as [-> ->].
Qed.

(** X14. Two tags made by [_generate_ctag] are equal exactly when they are
    made for the same queue from the same 16 random bits: tags of different
    queues never coincide, whatever characters the queue names contain, and
    two tags of one queue coincide only when the draw repeats. *)
Theorem generate_ctag_collides_only_on_equal_draws q1 q2 s1 s2 :
  (_generate_ctag q1 s1).1 = (_generate_ctag q2 s2).1 <->
  q1 = q2 /\ (getrandbits 16 (env s1)).1 = (getrandbits 16 (env s2)).1.
Proof.
  unfold _generate_ctag. exec. split.
  - intros [= E].
    apply append_underscore_inj in E as [-> E]; try apply pretty_N_no_underscore.
    split; [done|]. f_equal. by apply (inj pretty).
  - intros [-> [= ->]]. done.
Qed.

(** ** Registering a consumer before the channel is open *)

(** The turn that opens the connection: the channel is requested. *)
Lemma connection_open_turn s conn :
  connection (self s) = Some conn ->
  ioloop (env s) = [k_on_open] -> faults (env s) = [] ->
  exists s1,
    TornadoQueueClient.ioloop_step s = (Return tt, s1) /\
    queues (self s1) = queues (self s) /\ _on_open_cbs (self s1) = _on_open_cbs (self s) /\
    consumers (self s1) = consumers (self s) /\
    ioloop (env s1) = [k_on_channel_open] /\ faults (env s1) = [] /\
    next_id (env s1) = next_id (env s) /\
    entropy (env s1) = entropy (env s) /\ draws (env s1) = draws (env s) /\
    trace (env s1) = trace (env s) ++ [OpenChannel (conn_id conn)].
Proof.
  intros Hconn Hio Hf.
  unfold TornadoQueueClient.ioloop_step. sym.
  cbn [TornadoQueueClient.run_continuation]. unfold TornadoQueueClient._on_open. sym.
  unfold TornadoQueueClient.mark_open. sym.
  eexists. split; [reflexivity|]. done.
Qed.

(** The turn that opens the channel of a client with nothing deferred: every
    registered consumer has its queue declared, in the order of the
    registry, and nothing is subscribed yet. *)
Lemma channel_open_turn s :
  queues (self s) = ∅ -> _on_open_cbs (self s) = [] ->
  ioloop (env s) = [k_on_channel_open] -> faults (env s) = [] ->
  exists s2,
    TornadoQueueClient.ioloop_step s = (Return tt, s2) /\
    channel (self s2) = Some (next_id (env s)) /\
    consumers (self s2) = consumers (self s) /\
    faults (env s2) = [] /\
    ioloop (env s2) = map finish_of (registered (self s)) /\
    entropy (env s2) = entropy (env s) /\ draws (env s2) = draws (env s) /\
    exists l, trace (env s2) = trace (env s) ++ l /\ List.filter is_BasicConsume l = [].
Proof.
  intros Hq Hcbs Hio Hf.
  unfold TornadoQueueClient.ioloop_step. sym.
  cbn [TornadoQueueClient.run_continuation].
  unfold TornadoQueueClient._on_channel_open, _reconnect_consumer_callbacks. sym.
  rewrite Hcbs. cbn [for_each]. sym.
  match goal with
  | |- context [for_each (consumers (self s)) ?f ?s0] =>
      destruct (replay_consumers (next_id (env s)) (consumers (self s)) s0)
        as (s' & E & Hs' & Hf' & Hd' & He' & Hl' & l' & Ht' & Hn');
        [exact Hq|reflexivity|exact Hf|]
  end.
  rewrite E. sym. cbn in Hs', Hd', He', Hl', Ht'.
  eexists. split; [reflexivity|]. cbn. rewrite Hs', Hf', Hd', He', Hl'. cbn.
  repeat split; try done.
  exists (l' ++ [Log INFO "TornadoQueueClient connected"]).
  rewrite Ht', <- app_assoc. split; [done|]. rewrite List.filter_app, Hn'. done.
Qed.

(** X15. [register_consumer] on an event-driven client whose channel is not
    open yet only records the consumer: nothing is requested or logged, and
    the registry gains the new wrapper. When the connection and the channel
    have opened and the declarations have completed, exactly one subscription
    has been requested for every registered consumer, the new one included,
    on the new channel. The consumers are subscribed in the order in which
    the registry is visited, which is some arrangement of it, and the
    subscription made in place [i] carries the tag of the [i]-th random
    draw. *)
Theorem tornado_consumer_registered_before_open_is_subscribed q consumer s conn :
  channel (self s) = None -> queues (self s) = ∅ -> _on_open_cbs (self s) = [] ->
  connection (self s) = Some conn ->
  ioloop (env s) = [k_on_open] -> faults (env s) = [] ->
  let w := {| wid := next_id (env s); wkind := tornado_wrapper; winner := consumer |} in
  let recorded := TornadoQueueClient.register_consumer q consumer s in
  let after := after_turns Tornado (3 + length (registered (self s))) recorded.2 in
  recorded.1 = Return tt /\
  emitted s recorded.2 = [] /\
  registered (self recorded.2) ≡ₚ registered (self s) ++ [(q, w)] /\
  exists visited,
    visited ≡ₚ registered (self s) ++ [(q, w)] /\
    List.filter is_BasicConsume (emitted s after)
      = replay_trace (env s) (S (next_id (env s))) 0 visited.
Proof.
  intros Hch Hq Hcbs Hconn Hio Hf. cbn zeta.
  pose proof (registered_consumers_add q
    {| wid := next_id (env s); wkind := tornado_wrapper; winner := consumer |} (self s))
    as Hreg.
  set (s1 := {| self := with_consumers (consumers_add q
                  {| wid := next_id (env s); wkind := tornado_wrapper; winner := consumer |}
                  (consumers (self s))) (self s);
                env := with_next_id (S (next_id (env s))) (env s) |}).
  assert (E : TornadoQueueClient.register_consumer q consumer s = (Return tt, s1)).
  { unfold TornadoQueueClient.register_consumer. sym. reflexivity. }
  rewrite E. cbn [fst snd]. split; [done|].
  split; [unfold emitted, trace_of, state_traced; cbn; by rewrite drop_all|].
  split; [exact Hreg|].
  exists (registered (self s1)). split; [exact Hreg|].
  destruct (connection_open_turn s1 conn Hconn Hio Hf)
    as (s2 & E2 & Hq2 & Hcbs2 & Hcs2 & Hio2 & Hf2 & Hn2 & He2 & Hd2 & Hl2).
  cbn in Hq2, Hcbs2, Hcs2, Hn2, He2, Hd2, Hl2. rewrite Hq in Hq2. rewrite Hcbs in Hcbs2.
  destruct (channel_open_turn s2 Hq2 Hcbs2 Hio2 Hf2)
    as (s3 & E3 & Hch3 & Hcs3 & Hf3 & Hio3 & He3 & Hd3 & l3 & Hl3 & Hr3).
  assert (Hregs : registered (self s2) = registered (self s1))
    by (unfold registered; by rewrite Hcs2).
  rewrite Hregs in Hio3.
  assert (Hlen : (3 + length (registered (self s)) = S (S (length (registered (self s1)))))%nat).
  { apply Permutation_length in Hreg. change (self s1) with
      (with_consumers (consumers_add q
         {| wid := next_id (env s); wkind := tornado_wrapper; winner := consumer |}
         (consumers (self s))) (self s)).
    rewrite Hreg, length_app. cbn. lia. }
  rewrite Hlen.
  set (reg := registered (self s1)) in *.
  rewrite !after_turns_S. cbn [perform]. rewrite E2. cbn [snd]. rewrite E3. cbn [snd].
  destruct (finish_all (S (next_id (env s))) reg s3) as (_ & _ & Ht);
    [by rewrite Hch3, Hn2|done|done|].
  unfold emitted, trace_of, state_traced.
  rewrite Ht, Hl3, Hl2, <- !app_assoc, drop_app_length.
  rewrite !List.filter_app, Hr3. cbn [List.filter is_BasicConsume app].
  rewrite replay_trace_filter. apply replay_trace_same; [by rewrite He3, He2|by rewrite Hd3, Hd2].
Qed.

Lemma tornado_consumer_registered_before_open_is_subscribed_witness :
  let s := (TornadoQueueClient.__init__ {| self := blank Tornado; env := quiet_env |}).2 in
  let recorded := TornadoQueueClient.register_consumer "q" passing_consumer s in
  let after := after_turns Tornado 3 recorded.2 in
  emitted s recorded.2 = [] /\
  exists visited,
    visited ≡ₚ [("q", {| wid := 1; wkind := tornado_wrapper; winner := passing_consumer |})] /\
    List.filter is_BasicConsume (emitted s after) = replay_trace (env s) 2 0 visited.
Proof.
  destruct (tornado_consumer_registered_before_open_is_subscribed "q" passing_consumer
              (TornadoQueueClient.__init__ {| self := blank Tornado; env := quiet_env |}).2
              {| conn_id := 0; is_open := false;
                 conn_parameters := {| host := "localhost"; heartbeat_interval := Some 0;
                                       credentials := ("zulip", "secret") |} |})
    as (_ & H2 & _ & visited & Hv & H4); try reflexivity.
  cbn zeta. split; [exact H2|]. exists visited. split; [exact Hv|exact H4].
Defined.

(** ** Registering a consumer on an open channel *)

(** X16. [register_consumer] on an event-driven client whose channel is open
    and whose loop owes nothing: the registry gains the new wrapper and
    keeps every earlier entry. For a cached queue the subscription is
    requested at once; otherwise the queue is declared and the subscription
    is requested when the declaration completes, on the next turn of the
    loop, after which the queue is cached. Either way exactly one
    subscription is requested, with the tag of the next random draw. *)
Theorem tornado_register_consumer_subscribes_once q consumer s ch :
  channel (self s) = Some ch -> ioloop (env s) = [] -> faults (env s) = [] ->
  let w := {| wid := next_id (env s); wkind := tornado_wrapper; winner := consumer |} in
  let run := TornadoQueueClient.register_consumer q consumer s in
  let after := after_turns Tornado 1 run.2 in
  run.1 = Return tt /\
  registered (self run.2) ≡ₚ registered (self s) ++ [(q, w)] /\
  List.filter is_request (emitted s run.2)
    = (if decide (q ∉ queues (self s)) then [QueueDeclare ch q true]
       else [BasicConsume ch (wid w) q (ctag_of_draw (env s) 0 q)]) /\
  List.filter is_request (emitted s after)
    = (if decide (q ∉ queues (self s)) then [QueueDeclare ch q true] else [])
      ++ [BasicConsume ch (wid w) q (ctag_of_draw (env s) 0 q)] /\
  queues (self after) = queues (self s) ∪ {[q]} /\
  ioloop (env after) = [].
Proof.
  intros Hch Hio Hf. cbn zeta.
  pose proof (registered_consumers_add q
    {| wid := next_id (env s); wkind := tornado_wrapper; winner := consumer |} (self s))
    as Hreg.
  assert (exists s1 s2,
    TornadoQueueClient.register_consumer q consumer s = (Return tt, s1) /\
    TornadoQueueClient.ioloop_step s1 = (Return tt, s2) /\
    consumers (self s1) = consumers_add q
      {| wid := next_id (env s); wkind := tornado_wrapper; winner := consumer |}
      (consumers (self s)) /\
    queues (self s2) = queues (self s) ∪ {[q]} /\ ioloop (env s2) = [] /\
    exists l1 l2, trace (env s1) = trace (env s) ++ l1 /\
      trace (env s2) = trace (env s1) ++ l2 /\
      List.filter is_request l1
      = (if decide (q ∉ queues (self s)) then [QueueDeclare ch q true]
         else [BasicConsume ch (next_id (env s)) q (ctag_of_draw (env s) 0 q)]) /\
      List.filter is_request l2
      = (if decide (q ∉ queues (self s))
         then [BasicConsume ch (next_id (env s)) q (ctag_of_draw (env s) 0 q)] else []))
    as (s1 & s2 & E1 & E2 & Hc & Hq & Hio2 & l1 & l2 & Hl1 & Hl2 & Hr1 & Hr2).
  { clear Hreg. unfold ctag_of_draw. rewrite Nat.add_0_r.
    destruct (decide (q ∉ queues (self s))) as [Hnew|Hold].
    - eexists _, _. split; [|split].
      + unfold TornadoQueueClient.register_consumer, TornadoQueueClient.ensure_queue,
          TornadoQueueClient.ensure_queue'. sym.
        rewrite decide_True by done. sym. reflexivity.
      + unfold TornadoQueueClient.ioloop_step. sym.
        cbn [TornadoQueueClient.run_continuation]. unfold TornadoQueueClient.finish. sym.
        cbn [call]. sym. reflexivity.
      + cbn. repeat split; try done.
        eexists _, _. split; [reflexivity|]. split; [reflexivity|]. done.
    - eexists _, _. split; [|split].
      + unfold TornadoQueueClient.register_consumer, TornadoQueueClient.ensure_queue,
          TornadoQueueClient.ensure_queue'. sym.
        rewrite decide_False by done. cbn [call]. sym. reflexivity.
      + unfold TornadoQueueClient.ioloop_step. sym. reflexivity.
      + cbn. repeat split; try done.
        * apply dec_stable in Hold. apply set_eq. intros x.
          rewrite elem_of_union, elem_of_singleton. split; [by left|by intros [?| ->]].
        * eexists _, []. split; [reflexivity|]. split; [by rewrite app_nil_r|]. done. }
  rewrite E1. cbn [fst snd]. rewrite after_turns_S. cbn [perform after_turns perform_all
    replicate foldl]. rewrite E2. cbn [snd].
  split; [done|]. split; [|split; [|split; [|split; [done|done]]]].
  - unfold registered in *. cbn [consumers with_consumers] in Hreg. by rewrite Hc.
  - unfold emitted, trace_of, state_traced. by rewrite Hl1, drop_app_length.
  - unfold emitted, trace_of, state_traced.
    rewrite Hl2, Hl1, <- app_assoc, drop_app_length, List.filter_app, Hr1, Hr2.
    by destruct (decide (q ∉ queues (self s))).
Qed.

Lemma tornado_register_consumer_subscribes_once_witness :
  let s := ready_tornado 7 in
  let run := TornadoQueueClient.register_consumer "q" passing_consumer s in
  List.filter is_request (emitted s run.2) = [QueueDeclare 1 "q" true] /\
  List.filter is_request (emitted s (after_turns Tornado 1 run.2))
    = [QueueDeclare 1 "q" true; BasicConsume 1 2 "q" "q_7"].
Proof.
  destruct (tornado_register_consumer_subscribes_once "q" passing_consumer (ready_tornado 7) 1)
    as (_ & _ & H3 & H4 & _); try reflexivity.
  cbn zeta. split; [rewrite H3|rewrite H4]; reflexivity.
Defined.

(** ** Draining through the event-driven client *)

(** X17. [drain_queue] on an event-driven client, for a queue that is not
    cached, returns before anything is fetched: the result is empty whatever
    the queue holds, no message is fetched or acknowledged, and the broker is
    untouched. With the channel open only the declaration of the queue has
    been requested, and the fetching is left to its completion; without a
    channel nothing is requested and the call is deferred to the opening of
    the channel. *)
Theorem tornado_drain_queue_returns_before_draining q json s :
  q ∉ queues (self s) -> faults (env s) = [] ->
  let run := drain_queue TornadoQueueClient.methods q json s in
  let fetch := opened (length (cells (env s))) q json in
  run.1 = Return [] /\
  broker (env run.2) = broker (env s) /\
  unacked (env run.2) = unacked (env s) /\
  queues (self run.2) = queues (self s) /\
  (forall ch, channel (self s) = Some ch ->
     List.filter is_request (emitted s run.2) = [QueueDeclare ch q true] /\
     ioloop (env run.2) = ioloop (env s) ++ [k_finish q fetch] /\
     _on_open_cbs (self run.2) = _on_open_cbs (self s)) /\
  (channel (self s) = None ->
     List.filter is_request (emitted s run.2) = [] /\
     ioloop (env run.2) = ioloop (env s) /\
     _on_open_cbs (self run.2) = _on_open_cbs (self s) ++ [ensure_queue_lambda q fetch]).
Proof.
  intros Hnew Hf. cbn zeta.
  assert (exists s1,
    drain_queue TornadoQueueClient.methods q json s = (Return [], s1) /\
    broker (env s1) = broker (env s) /\ unacked (env s1) = unacked (env s) /\
    queues (self s1) = queues (self s) /\
    match channel (self s) with
    | Some ch =>
        trace (env s1) = trace (env s) ++ [QueueDeclare ch q true] /\
        ioloop (env s1) = ioloop (env s)
                          ++ [k_finish q (opened (length (cells (env s))) q json)] /\
        _on_open_cbs (self s1) = _on_open_cbs (self s)
    | None =>
        trace (env s1) = trace (env s) ++ [] /\
        ioloop (env s1) = ioloop (env s) /\
        _on_open_cbs (self s1) = _on_open_cbs (self s)
                                 ++ [ensure_queue_lambda q (opened (length (cells (env s))) q json)]
    end) as (s1 & E1 & Hb1 & Hu1 & Hq1 & H1).
  { unfold drain_queue. cbn [self_ensure_queue TornadoQueueClient.methods].
    unfold TornadoQueueClient.ensure_queue, TornadoQueueClient.ensure_queue'. sym.
    rewrite decide_True by done. sym.
    destruct (channel (self s)) as [ch|] eqn:Hch; sym;
      rewrite lookup_app_r, Nat.sub_diag by done; cbn;
      (eexists; split; [reflexivity|]); cbn; by rewrite ?app_nil_r. }
  rewrite E1. cbn [fst snd]. do 4 (split; [done|]).
  unfold emitted, trace_of, state_traced.
  split; [intros ch Hch|intros Hch]; rewrite Hch in H1;
    destruct H1 as (Hl1 & Hio1 & Hcb1); rewrite Hl1, drop_app_length; done.
Qed.

Lemma tornado_drain_queue_returns_before_draining_witness :
  let s := on_env (fun e => with_broker {["q" := ["a"; "b"]]} (unacked e) (next_delivery_tag e) e)
             (ready_tornado 7) in
  let run := drain_queue TornadoQueueClient.methods "q" false s in
  run.1 = Return [] /\
  ready_messages (env run.2) "q" = ["a"; "b"] /\
  List.filter is_request (emitted s run.2) = [QueueDeclare 1 "q" true].
Proof.
  destruct (tornado_drain_queue_returns_before_draining "q" false
    (on_env (fun e => with_broker {["q" := ["a"; "b"]]} (unacked e) (next_delivery_tag e) e)
       (ready_tornado 7))) as (H1 & H2 & _ & _ & H5 & _).
  - apply not_elem_of_empty.
  - reflexivity.
  - cbn zeta. split; [exact H1|]. split; [|exact (proj1 (H5 1%nat eq_refl))].
    unfold ready_messages. rewrite H2. reflexivity.
Defined.

(** ** Publishing without a broker *)

(** X18. Without [USING_RABBITMQ], [queue_json_publish] never builds a client
    and never talks to a broker: the event goes to the processor handed
    over, called once, whose outcome is the outcome of the call, or, when no
    processor is given, to the worker of the queue. *)
Theorem queue_json_publish_without_rabbitmq q ev f p :
  USING_RABBITMQ (settings (world p)) = false ->
  let run := queue_json_publish q ev f p in
  queue_client run.2 = queue_client p /\
  broker (world run.2) = broker (world p) /\
  run.1 = match f with
          | Some g => match g ev with None => Return tt | Some x => Raise x end
          | None => Return tt
          end /\
  emitted p run.2 = [Enter_queue_json_publish q ev;
                     match f with
                     | Some _ => Enter_processor ev
                     | None => WorkerConsume q ev
                     end].
Proof.
  intros Hu. cbn zeta. unfold emitted, trace_of, process_traced.
  destruct f as [g|].
  - rewrite queue_json_publish_without_broker by done. cbn.
    by rewrite <- app_assoc, drop_app_length.
  - unfold queue_json_publish. exec. rewrite Hu. exec.
    by rewrite <- app_assoc, drop_app_length.
Qed.

Lemma queue_json_publish_without_rabbitmq_witness :
  let p := {| queue_client := None;
              world := example_env (example_settings false false) [] ∅ 7 |} in
  let run := queue_json_publish "q" (PStr "e") (Some (fun _ => Some ValueError)) p in
  queue_client run.2 = None /\ run.1 = Raise ValueError.
Proof.
  destruct (queue_json_publish_without_rabbitmq "q" (PStr "e") (Some (fun _ => Some ValueError))
              {| queue_client := None;
                 world := example_env (example_settings false false) [] ∅ 7 |})
    as (H1 & _ & H3 & _); [reflexivity|].
  cbn zeta. split; [exact H1|exact H3].
Defined.

(** ** Publishing without a retry *)

(** Every way [publish] can end on a connected blocking client. *)
Lemma publish_outcomes q b s ch :
  connected (self s) ch ->
  exists r s' l,
    publish SimpleQueueClient.methods q b s = (r, s') /\
    trace (env s') = trace (env s) ++ l /\
    count is_Enter_reconnect l = 0%nat /\ count is_Connect l = 0%nat /\
    forall x, r = Raise x ->
      broker (env s') = broker (env s) /\
      ((exists fs, faults (env s) = Some x :: fs /\ self s' = self s) \/
       (exists fs, faults (env s) = None :: Some x :: fs /\ (q ∉ queues (self s)) /\
                   self s' = with_queues (queues (self s) ∪ {[q]}) (self s))).
Proof.
  intros [Hdead Hch]. unfold publish.
  cbn [self_ensure_queue SimpleQueueClient.methods].
  unfold SimpleQueueClient.ensure_queue, SimpleQueueClient.ensure_queue'. sym.
  rewrite Hdead. cbn [call]. sym.
  destruct (decide (q ∉ queues (self s))) as [Hnew|Hold]; sym.
  - destruct (faults (env s)) as [|[y|] [|[z|] fs]] eqn:Hf; sym;
      (eexists _, _, _; split; [reflexivity|]); cbn; rewrite <- ?app_assoc;
      (split; [reflexivity|]); (do 2 (split; [done|])); intros x Hx;
      try discriminate Hx; simplify_eq; (split; [done|]);
      first [left; by eexists | right; by eexists].
  - destruct (faults (env s)) as [|[y|] fs] eqn:Hf; sym;
      (eexists _, _, _; split; [reflexivity|]); cbn; rewrite <- ?app_assoc;
      (split; [reflexivity|]); (do 2 (split; [done|])); intros x Hx;
      try discriminate Hx; simplify_eq; (split; [done|]); left; by eexists.
Qed.

(** X19. [publish] itself never reconnects. Whenever it raises on a connected
    blocking client, a request it made was refused, and its exception left
    [publish] at once: the message is in no queue, [_reconnect] has not been
    called and no connection has been requested. Either the first request
    was refused and the client object is as it was, or the declaration of a
    queue that was not cached was answered and the publication refused, and
    then the client differs only by having cached the queue. Only
    [json_publish] retries. *)
Theorem publish_does_not_retry q b s ch x :
  connected (self s) ch ->
  (publish SimpleQueueClient.methods q b s).1 = Raise x ->
  let run := publish SimpleQueueClient.methods q b s in
  broker (env run.2) = broker (env s) /\
  count is_Enter_reconnect (emitted s run.2) = 0%nat /\
  count is_Connect (emitted s run.2) = 0%nat /\
  ((exists fs, faults (env s) = Some x :: fs /\ self run.2 = self s) \/
   (exists fs, faults (env s) = None :: Some x :: fs /\ (q ∉ queues (self s)) /\
               self run.2 = with_queues (queues (self s) ∪ {[q]}) (self s))).
Proof.
  intros Hc. cbn zeta.
  destruct (publish_outcomes q b s ch Hc) as (r & s' & l & E & Hl & Hr & Hk & Hx).
  rewrite E. cbn [fst snd]. intros ->. destruct (Hx x eq_refl) as [Hb Hcases].
  split; [done|]. unfold emitted, trace_of, state_traced.
  rewrite Hl, drop_app_length. by do 2 (split; [done|]).
Qed.

Lemma publish_does_not_retry_witness :
  let s := built_simple [None; Some AMQPConnectionError] ∅ in
  let run := publish SimpleQueueClient.methods "q" "m" s in
  run.1 = Raise AMQPConnectionError /\ broker (env run.2) = broker (env s) /\
  queues (self run.2) = queues (self s) ∪ {["q"]}.
Proof.
  destruct (publish_does_not_retry "q" "m" (built_simple [None; Some AMQPConnectionError] ∅) 1
              AMQPConnectionError)
    as (H1 & _ & _ & [(fs & Hfs & _)|(fs & _ & _ & H4)]).
  - split; reflexivity.
  - reflexivity.
  - discriminate Hfs.
  - cbn zeta. split; [reflexivity|]. split; [exact H1|]. by rewrite H4.
Defined.

(** ** JSON consumers *)

(** X20. [register_json_consumer] on a connected blocking client registers
    one wrapper, and a delivery to that wrapper decodes the body with
    [ujson.loads] before the handler sees it: when the body decodes and the
    handler returns, the delivery is acknowledged; when the body does not
    decode, [ValueError] is raised, and when the handler raises, its
    exception is, and in both cases the delivery is negatively acknowledged
    instead. *)
Theorem json_consumer_decodes_before_the_handler q callback s ch :
  connected (self s) ch -> faults (env s) = [] ->
  let run := register_json_consumer SimpleQueueClient.methods q callback s in
  run.1 = Return tt /\
  exists w,
    registered (self run.2) ≡ₚ registered (self s) ++ [(q, w)] /\
    forall ch' tag body e',
      let outcome := match ujson_loads (env s) body with
                     | Some p => callback p
                     | None => Some ValueError
                     end in
      let delivery := deliver w ch' tag body e' in
      delivery.1 = match outcome with None => Return tt | Some x => Raise x end /\
      List.filter (fun o => is_BasicAck o || is_BasicNack o) (emitted e' delivery.2)
        = [match outcome with None => BasicAck ch' tag | Some _ => BasicNack ch' tag end].
Proof.
  intros Hc Hf. cbn zeta.
  set (consumer := (fun (_ : Z) body =>
                      match ujson_loads (env s) body with
                      | Some p => callback p
                      | None => Some ValueError
                      end) : Consumer).
  assert (E : register_json_consumer SimpleQueueClient.methods q callback s
              = SimpleQueueClient.register_consumer q consumer s) by reflexivity.
  rewrite E.
  destruct (Simple_register_consumer_connected q consumer s ch Hc Hf)
    as (s' & E' & Hcs & _).
  rewrite E'. cbn [fst snd]. split; [done|].
  exists {| wid := next_id (env s); wkind := blocking_wrapper; winner := consumer |}.
  split.
  - unfold registered. rewrite Hcs. apply (registered_consumers_add q _ (self s)).
  - intros ch' tag body e'. unfold deliver. cbn [wkind winner].
    unfold SimpleQueueClient.wrapped_consumer, emitted, trace_of, environment_traced. exec.
    subst consumer. cbn beta.
    destruct (ujson_loads (env s) body) as [p|]; [destruct (callback p)|]; cbn;
      rewrite <- ?app_assoc, drop_app_length; done.
Qed.

Lemma json_consumer_decodes_before_the_handler_witness :
  let s := on_env (with_ujson_loads loads_only_empty_object) (built_simple [] ∅) in
  let run := register_json_consumer SimpleQueueClient.methods "q" (fun _ => None) s in
  exists w,
    registered (self run.2) ≡ₚ [("q", w)] /\
    (deliver w 1 5 "not json" (env run.2)).1 = Raise ValueError /\
    (deliver w 1 5 "{}" (env run.2)).1 = Return tt.
Proof.
  destruct (json_consumer_decodes_before_the_handler "q" (fun _ => None)
              (on_env (with_ujson_loads loads_only_empty_object) (built_simple [] ∅)) 1)
    as (_ & w & Hreg & Hd).
  - split; reflexivity.
  - reflexivity.
  - exists w. split; [exact Hreg|].
    split; [exact (proj1 (Hd 1%nat 5 "not json" _))|exact (proj1 (Hd 1%nat 5 "{}" _))].
Defined.

(** ** Closing *)

(** [publish] on a blocking client whose connection is missing or closed,
    against a broker that answers: [ensure_queue] connects first. *)
Lemma publish_when_dead q b s :
  SimpleQueueClient.connection_is_dead (self s) = true -> faults (env s) = [] ->
  exists s',
    publish SimpleQueueClient.methods q b s = (Return tt, s') /\
    connected (self s') (S (next_id (env s))) /\
    broker (env s') = <[q := ready_messages (env s) q ++ [b]]> (broker (env s)) /\
    exists l, trace (env s') = trace (env s) ++ l /\
      count is_Connect l = 1%nat /\
      List.filter is_BasicPublish l = [BasicPublish (S (next_id (env s))) q 2 b].
Proof.
  intros Hdead Hf. unfold publish.
  cbn [self_ensure_queue SimpleQueueClient.methods].
  unfold SimpleQueueClient.ensure_queue, SimpleQueueClient.ensure_queue',
    SimpleQueueClient._connect. sym.
  rewrite Hdead. sym. cbn [call].
  destruct (decide (q ∉ queues (self s))) as [Hnew|Hold]; sym.
  - eexists. split; [reflexivity|]. cbn. repeat split; try done.
    eexists. rewrite <- !app_assoc. split; [reflexivity|]. done.
  - eexists. split; [reflexivity|]. cbn. repeat split; try done.
    eexists. rewrite <- !app_assoc. split; [reflexivity|]. done.
Qed.

(** X21. [close] closes the connection when there is one and does nothing
    otherwise. It is not final for the blocking client: the next [publish]
    finds the connection closed, opens exactly one new connection and
    channel, and publishes on the new channel, so the message reaches its
    queue. *)
Theorem close_then_publish_reconnects q b s ch :
  connected (self s) ch -> faults (env s) = [] ->
  let closed := close s in
  let published := publish SimpleQueueClient.methods q b closed.2 in
  closed.1 = Return tt /\
  SimpleQueueClient.connection_is_dead (self closed.2) = true /\
  count is_CloseConnection (emitted s closed.2) = 1%nat /\
  published.1 = Return tt /\
  connected (self published.2) (S (next_id (env s))) /\
  count is_Connect (emitted closed.2 published.2) = 1%nat /\
  List.filter is_BasicPublish (emitted closed.2 published.2)
    = [BasicPublish (S (next_id (env s))) q 2 b] /\
  ready_messages (env published.2) q = ready_messages (env s) q ++ [b] /\
  (forall s0, connection (self s0) = None -> close s0 = (Return tt, s0)).
Proof.
  intros [Hdead Hch] Hf. cbn zeta.
  unfold SimpleQueueClient.connection_is_dead in Hdead.
  destruct (connection (self s)) as [conn|] eqn:Hconn; [|done].
  assert (exists s1,
    close s = (Return tt, s1) /\
    SimpleQueueClient.connection_is_dead (self s1) = true /\
    faults (env s1) = [] /\ broker (env s1) = broker (env s) /\
    next_id (env s1) = next_id (env s) /\
    trace (env s1) = trace (env s) ++ [CloseConnection (conn_id conn)])
    as (s1 & E1 & Hd1 & Hf1 & Hb1 & Hn1 & Hl1).
  { unfold close. sym. eexists. split; [reflexivity|]. done. }
  destruct (publish_when_dead q b s1 Hd1 Hf1) as (s2 & E2 & Hc2 & Hb2 & l2 & Hl2 & Hr2 & Hp2).
  rewrite E1. cbn [fst snd]. rewrite E2. cbn [fst snd].
  unfold emitted, trace_of, state_traced. rewrite Hl2, Hl1, !drop_app_length.
  rewrite Hn1 in *. repeat split; try done.
  - apply Hc2.
  - apply Hc2.
  - unfold ready_messages at 1. rewrite Hb2, lookup_insert_eq.
    unfold ready_messages. by rewrite Hb1.
  - intros s0 H0. unfold close. sym. by destruct s0.
Qed.

Lemma close_then_publish_reconnects_witness :
  let s := built_simple [] ∅ in
  let published := publish SimpleQueueClient.methods "q" "m" (close s).2 in
  published.1 = Return tt /\ ready_messages (env published.2) "q" = ["m"].
Proof.
  destruct (close_then_publish_reconnects "q" "m" (built_simple [] ∅) 1)
    as (_ & _ & _ & H4 & _ & _ & _ & H8 & _).
  - split; reflexivity.
  - reflexivity.
  - cbn zeta. split; [exact H4|exact H8].
Defined.

(** ** Retrying an event *)

Lemma filter_BasicPublish_of_requests l :
  List.filter is_BasicPublish (List.filter is_request l) = List.filter is_BasicPublish l.
Proof.
  induction l as [|o l IH]; [done|]. destruct o; cbn; by rewrite ?IH.
Qed.

(** A call of [retry_event] that republishes, with the broker in use and the
    global referring to a connected blocking client: the event, with its new
    counter, is serialised and published to the queue. *)
Lemma retry_event_on_client q fp r n c ch :
  found_tries (event r) n -> n + 1 <= MAX_REQUEST_RETRIES ->
  USING_RABBITMQ (settings (world (proc r))) = true ->
  queue_client (proc r) = Some c -> class_of c = Simple -> connected c ch ->
  faults (world (proc r)) = [] ->
  let d := <["failed_tries" := VInt (n + 1)]> (event r) in
  let body := ujson_dumps (world (proc r)) (PDict d) in
  exists c' e',
    retry_event q fp r
      = (Return tt, {| event := d; proc := {| queue_client := Some c'; world := e' |} |}) /\
    class_of c' = Simple /\ connected c' ch /\ faults e' = [] /\
    broker e' = <[q := ready_messages (world (proc r)) q ++ [body]]> (broker (world (proc r))) /\
    ujson_dumps e' = ujson_dumps (world (proc r)) /\
    settings e' = settings (world (proc r)) /\
    exists l, trace e' = trace (world (proc r)) ++ l /\
      List.filter is_BasicPublish l = [BasicPublish ch q 2 body] /\
      count is_Enter_processor l = 0%nat.
Proof.
  intros Hn Hle Hu Hp Hcls Hc Hf. cbn zeta.
  rewrite (retry_event_step q fp r n Hn).
  assert ((MAX_REQUEST_RETRIES <? n + 1) = false) as -> by lia.
  destruct (queue_json_publish_on_client q
              (PDict (<["failed_tries" := VInt (n + 1)]> (event r)))
              (Some lambda_x_None) (proc r) c ch Hu Hp Hcls Hc Hf)
    as (c' & e' & E & Hcls' & Hc' & _ & Hf' & Hb' & Hd' & Hs' & l & Hl & Hr & Hk).
  cbn zeta. rewrite E. cbn [fst snd].
  exists c', e'. do 7 (split; [done|]).
  exists l. split; [done|]. split; [|done].
  rewrite <- filter_BasicPublish_of_requests, Hr, List.filter_app.
  by destruct (decide _).
Qed.

(** A call of [retry_event] that republishes, without a broker: the event
    goes to the processor [lambda x: None], which drops it. *)
Lemma retry_event_without_broker q fp r n :
  found_tries (event r) n -> n + 1 <= MAX_REQUEST_RETRIES ->
  USING_RABBITMQ (settings (world (proc r))) = false ->
  let d := <["failed_tries" := VInt (n + 1)]> (event r) in
  retry_event q fp r
  = (Return tt,
     {| event := d;
        proc := {| queue_client := queue_client (proc r);
                   world := with_trace (fun t => (t ++ [Enter_queue_json_publish q (PDict d)])
                                                   ++ [Enter_processor (PDict d)])
                              (world (proc r)) |} |}).
Proof.
  intros Hn Hle Hu. cbn zeta. rewrite (retry_event_step q fp r n Hn).
  assert ((MAX_REQUEST_RETRIES <? n + 1) = false) as -> by lia.
  cbn zeta. by rewrite (queue_json_publish_without_broker _ _ _ _ Hu).
Qed.

(** C3. From an event without ['failed_tries'], four calls of [retry_event]
    on the same dictionary: the first three leave the counter at 1, 2 and 3
    and hand the event to [queue_json_publish]; the fourth sets it to 4 and
    hands the event to [failure_processor] instead, whose outcome is the
    outcome of the call, and requests nothing from the broker. Republishing
    is the call [queue_json_publish(queue_name, event, lambda x: None)]: with
    the broker in use and a connected blocking client whose broker answers,
    each of the first three calls returns after one [basic_publish] of the
    serialised event, and the queue ends with the three events, counters 1,
    2 and 3, behind what it held; without a broker the event goes to the
    processor [lambda x: None] and nothing is published. On every call the
    counter starts from 0 when absent and grows by exactly 1, and the event
    is handed to exactly one of the two. *)
Theorem retry_event_counts_failed_tries q fp r0 :
  event r0 !! "failed_tries" = None ->
  let d n := <["failed_tries" := VInt n]> (event r0) in
  let r1 := (retry_event q fp r0).2 in
  let r2 := (retry_event q fp r1).2 in
  let r3 := (retry_event q fp r2).2 in
  let r4 := (retry_event q fp r3).2 in
  (event r1 = d 1 /\
   List.filter decision (emitted r0 r1) = [Enter_queue_json_publish q (PDict (d 1))]) /\
  (event r2 = d 2 /\
   List.filter decision (emitted r1 r2) = [Enter_queue_json_publish q (PDict (d 2))]) /\
  (event r3 = d 3 /\
   List.filter decision (emitted r2 r3) = [Enter_queue_json_publish q (PDict (d 3))]) /\
  (List.filter decision (emitted r3 r4) = [Enter_failure_processor (d 4)] /\
   event r4 = (fp (d 4)).1) /\
  ((retry_event q fp r3).1 = match (fp (d 4)).2 with None => Return tt | Some x => Raise x end /\
   emitted r3 r4 = [Enter_failure_processor (d 4)] /\
   broker (world (proc r4)) = broker (world (proc r3))) /\
  (forall c ch,
     USING_RABBITMQ (settings (world (proc r0))) = true ->
     queue_client (proc r0) = Some c -> class_of c = Simple -> connected c ch ->
     faults (world (proc r0)) = [] ->
     let body n := ujson_dumps (world (proc r0)) (PDict (d n)) in
     (retry_event q fp r0).1 = Return tt /\
     (retry_event q fp r1).1 = Return tt /\
     (retry_event q fp r2).1 = Return tt /\
     List.filter is_BasicPublish (emitted r0 r1) = [BasicPublish ch q 2 (body 1)] /\
     List.filter is_BasicPublish (emitted r1 r2) = [BasicPublish ch q 2 (body 2)] /\
     List.filter is_BasicPublish (emitted r2 r3) = [BasicPublish ch q 2 (body 3)] /\
     count is_Enter_processor (emitted r0 r3) = 0%nat /\
     ready_messages (world (proc r3)) q
       = ready_messages (world (proc r0)) q ++ [body 1; body 2; body 3] /\
     ready_messages (world (proc r4)) q = ready_messages (world (proc r3)) q) /\
  (USING_RABBITMQ (settings (world (proc r0))) = false ->
     (retry_event q fp r0).1 = Return tt /\
     (retry_event q fp r1).1 = Return tt /\
     (retry_event q fp r2).1 = Return tt /\
     emitted r0 r1 = [Enter_queue_json_publish q (PDict (d 1)); Enter_processor (PDict (d 1))] /\
     emitted r1 r2 = [Enter_queue_json_publish q (PDict (d 2)); Enter_processor (PDict (d 2))] /\
     emitted r2 r3 = [Enter_queue_json_publish q (PDict (d 3)); Enter_processor (PDict (d 3))] /\
     broker (world (proc r3)) = broker (world (proc r0))) /\
  forall r n, found_tries (event r) n ->
    let d' := <["failed_tries" := VInt (n + 1)]> (event r) in
    List.filter decision (emitted r (retry_event q fp r).2) =
      [if MAX_REQUEST_RETRIES <? n + 1
       then Enter_failure_processor d'
       else Enter_queue_json_publish q (PDict d')] /\
    (n + 1 <= MAX_REQUEST_RETRIES ->
     let pub := queue_json_publish q (PDict d') (Some lambda_x_None) (proc r) in
     retry_event q fp r = (pub.1, {| event := d'; proc := pub.2 |})).
Proof.
  intros H0 d r1 r2 r3 r4.
  assert (Hnext : forall n, d (n + 1) = <["failed_tries" := VInt (n + 1)]> (d n))
    by (intros n; unfold d; by rewrite insert_insert_eq).
  assert (Hfound : forall n r, event r = d n -> found_tries (event r) n)
    by (intros n r ->; right; unfold d; by rewrite lookup_insert_eq).
  assert (Hf0 : found_tries (event r0) 0) by (by left).
  destruct (retry_event_decides q fp r0 0 Hf0) as [T1 E1].
  change (event r1 = d 1) in E1. fold r1 in T1.
  destruct (retry_event_decides q fp r1 1 (Hfound 1 r1 E1)) as [T2 E2].
  fold r2 in T2, E2. rewrite E1, <- (Hnext 1) in T2, E2.
  change (event r2 = d 2) in E2.
  destruct (retry_event_decides q fp r2 2 (Hfound 2 r2 E2)) as [T3 E3].
  fold r3 in T3, E3. rewrite E2, <- (Hnext 2) in T3, E3.
  change (event r3 = d 3) in E3.
  destruct (retry_event_decides q fp r3 3 (Hfound 3 r3 E3)) as [T4 E4].
  fold r4 in T4, E4. rewrite E3, <- (Hnext 3) in T4, E4.
  do 4 (split; [done|]).
  assert (Hle : forall n, n = 0 \/ n = 1 \/ n = 2 -> n + 1 <= MAX_REQUEST_RETRIES)
    by (unfold MAX_REQUEST_RETRIES; lia).
  assert (H4 : (retry_event q fp r3).1
                 = match (fp (d 4)).2 with None => Return tt | Some x => Raise x end /\
               emitted r3 r4 = [Enter_failure_processor (d 4)] /\
               broker (world (proc r4)) = broker (world (proc r3))).
  { pose proof (retry_event_step q fp r3 3 (Hfound 3 r3 E3)) as S4.
    cbn zeta in S4. rewrite E3, <- (Hnext 3) in S4.
    change (MAX_REQUEST_RETRIES <? 3 + 1) with true in S4. cbn iota in S4.
    unfold r4. rewrite S4. cbn [fst snd proc world event]. split; [done|]. split; [|done].
    unfold emitted, trace_of, retrying_traced. cbn. by rewrite drop_app_length. }
  split; [exact H4|]. split; [|split].
  - intros c ch Hu Hp Hcls Hc Hf body.
    destruct (retry_event_on_client q fp r0 0 c ch Hf0 (Hle 0 (or_introl eq_refl))
                Hu Hp Hcls Hc Hf)
      as (c1 & e1 & R1 & Hcls1 & Hc1 & Hf1 & Hb1 & Hd1 & Hs1 & l1 & Hl1 & Hp1 & Hk1).
    change (<["failed_tries" := VInt (0 + 1)]> (event r0)) with (d 1) in *.
    assert (Er1 : r1 = {| event := d 1; proc := {| queue_client := Some c1; world := e1 |} |})
      by (unfold r1; by rewrite R1).
    assert (Hu1 : USING_RABBITMQ (settings (world (proc r1))) = true)
      by (rewrite Er1; cbn; by rewrite Hs1).
    destruct (retry_event_on_client q fp r1 1 c1 ch (Hfound 1 r1 E1)
                (Hle 1 (or_intror (or_introl eq_refl))) Hu1)
      as (c2 & e2 & R2 & Hcls2 & Hc2 & Hf2 & Hb2 & Hd2 & Hs2 & l2 & Hl2 & Hp2 & Hk2);
      [by rewrite Er1|done|done|by rewrite Er1|].
    rewrite E1, <- (Hnext 1) in R2, Hb2, Hp2. rewrite Er1 in Hb2, Hd2, Hs2, Hl2, Hp2.
    cbn [proc world] in Hb2, Hd2, Hs2, Hl2, Hp2.
    assert (Er2 : r2 = {| event := d 2; proc := {| queue_client := Some c2; world := e2 |} |})
      by (unfold r2; by rewrite R2).
    assert (Hu2 : USING_RABBITMQ (settings (world (proc r2))) = true)
      by (rewrite Er2; cbn; by rewrite Hs2, Hs1).
    destruct (retry_event_on_client q fp r2 2 c2 ch (Hfound 2 r2 E2)
                (Hle 2 (or_intror (or_intror eq_refl))) Hu2)
      as (c3 & e3 & R3 & Hcls3 & Hc3 & Hf3 & Hb3 & Hd3 & Hs3 & l3 & Hl3 & Hp3 & Hk3);
      [by rewrite Er2|done|done|by rewrite Er2|].
    rewrite E2, <- (Hnext 2) in R3, Hb3, Hp3. rewrite Er2 in Hb3, Hd3, Hs3, Hl3, Hp3.
    cbn [proc world] in Hb3, Hd3, Hs3, Hl3, Hp3.
    assert (Er3 : r3 = {| event := d 3; proc := {| queue_client := Some c3; world := e3 |} |})
      by (unfold r3; by rewrite R3).
    rewrite Hd1 in Hb2, Hp2. rewrite Hd2, Hd1 in Hb3, Hp3.
    change (1 + 1) with 2 in *. change (2 + 1) with 3 in *.
    fold (body 1) in Hb1, Hp1. fold (body 2) in Hb2, Hp2. fold (body 3) in Hb3, Hp3.
    split; [by rewrite R1|]. split; [by rewrite R2|]. split; [by rewrite R3|].
    unfold emitted, trace_of, retrying_traced.
    destruct H4 as (_ & _ & Hb4).
    rewrite Er3 in Hb4 |- *. rewrite Er2, Er1. cbn [proc world] in Hb4 |- *.
    split; [by rewrite Hl1, drop_app_length|].
    split; [by rewrite Hl2, drop_app_length|].
    split; [by rewrite Hl3, drop_app_length|].
    split.
    + rewrite Hl3, Hl2, Hl1, <- !app_assoc, drop_app_length.
      by rewrite !count_app, Hk1, Hk2, Hk3.
    + split.
      * unfold ready_messages at 1. rewrite Hb3, lookup_insert_eq.
        unfold ready_messages at 1. rewrite Hb2, lookup_insert_eq.
        unfold ready_messages at 1. rewrite Hb1, lookup_insert_eq.
        cbn. by rewrite <- !app_assoc.
      * unfold ready_messages. by rewrite Hb4.
  - intros Hu.
    pose proof (retry_event_without_broker q fp r0 0 Hf0 (Hle 0 (or_introl eq_refl)) Hu) as R1.
    change (<["failed_tries" := VInt (0 + 1)]> (event r0)) with (d 1) in R1.
    assert (Er1 : r1 = (retry_event q fp r0).2) by done. rewrite R1 in Er1. cbn [snd] in Er1.
    assert (Hu1 : USING_RABBITMQ (settings (world (proc r1))) = false)
      by (by rewrite Er1).
    pose proof (retry_event_without_broker q fp r1 1 (Hfound 1 r1 E1)
                  (Hle 1 (or_intror (or_introl eq_refl))) Hu1) as R2.
    rewrite E1, <- (Hnext 1) in R2.
    assert (Er2 : r2 = (retry_event q fp r1).2) by done. rewrite R2 in Er2. cbn [snd] in Er2.
    assert (Hu2 : USING_RABBITMQ (settings (world (proc r2))) = false)
      by (by rewrite Er2).
    pose proof (retry_event_without_broker q fp r2 2 (Hfound 2 r2 E2)
                  (Hle 2 (or_intror (or_intror eq_refl))) Hu2) as R3.
    rewrite E2, <- (Hnext 2) in R3.
    assert (Er3 : r3 = (retry_event q fp r2).2) by done. rewrite R3 in Er3. cbn [snd] in Er3.
    split; [by rewrite R1|]. split; [by rewrite R2|]. split; [by rewrite R3|].
    unfold emitted, trace_of, retrying_traced.
    split; [rewrite Er1; cbn; by rewrite <- app_assoc, drop_app_length|].
    split; [rewrite Er2; cbn; by rewrite <- app_assoc, drop_app_length|].
    split; [rewrite Er3; cbn; by rewrite <- app_assoc, drop_app_length|].
    rewrite Er3. cbn. rewrite Er2. cbn. by rewrite Er1.
  - intros r n Hn. split; [apply retry_event_decides, Hn|].
    intros Hle'. cbn zeta. rewrite (retry_event_step q fp r n Hn).
    by assert ((MAX_REQUEST_RETRIES <? n + 1) = false) as -> by lia.
Qed.

Lemma retry_event_counts_failed_tries_witness :
  let r0 := retrying_with [] ∅ in
  let r1 := (retry_event "q" failure_processor_noop r0).2 in
  let r2 := (retry_event "q" failure_processor_noop r1).2 in
  let r3 := (retry_event "q" failure_processor_noop r2).2 in
  let d n := <["failed_tries" := VInt n]> (event r0) in
  event r3 = d 3 /\
  List.filter is_BasicPublish (emitted r0 r1)
    = [BasicPublish 1 "q" 2 (ujson_dumps (world (proc r0)) (PDict (d 1)))] /\
  ready_messages (world (proc r3)) "q"
    = ready_messages (world (proc r0)) "q"
      ++ [ujson_dumps (world (proc r0)) (PDict (d 1));
          ujson_dumps (world (proc r0)) (PDict (d 2));
          ujson_dumps (world (proc r0)) (PDict (d 3))].
Proof.
  assert (H0 : event (retrying_with [] ∅) !! "failed_tries" = None) by reflexivity.
  destruct (retry_event_counts_failed_tries "q" failure_processor_noop
              (retrying_with [] ∅) H0)
    as (_ & _ & (E3 & _) & _ & _ & Hbroker & _).
  assert (Hu : USING_RABBITMQ (settings (world (proc (retrying_with [] ∅)))) = true)
    by reflexivity.
  assert (Hp : queue_client (proc (retrying_with [] ∅)) = Some (self (built_simple [] ∅)))
    by reflexivity.
  assert (Hcls : class_of (self (built_simple [] ∅)) = Simple) by reflexivity.
  assert (Hc : connected (self (built_simple [] ∅)) 1) by (split; reflexivity).
  assert (Hf : faults (world (proc (retrying_with [] ∅))) = []) by reflexivity.
  destruct (Hbroker (self (built_simple [] ∅)) 1%nat Hu Hp Hcls Hc Hf)
    as (_ & _ & _ & Hp1 & _ & _ & _ & Hq3 & _).
  cbn zeta. split; [exact E3|]. split; [exact Hp1|exact Hq3].
Defined.
